(** * A verified model of the [marxia-save-lite] ingestion relay

    The worker in [src/index.js] accepts a JSON submission, sanitizes its
    rows, signs the canonical payload and relays it to a downstream
    endpoint.  This file embeds the worker in Rocq and proves (or refutes)
    the properties its specification states.

    Layout:
    - JavaScript strings (sequences of UTF-16 code units) and the string
      built-ins the worker calls ([replace], [trim], [slice]);
    - JavaScript numbers (binary64) with [parseInt], [parseFloat],
      [Number::toString] and [toFixed];
    - JSON values, [String(v)], property access;
    - the worker itself: [safeText], [toInt], [toMoney], [getOpt], [json],
      [readLimited], [concat], [b64], [handleSave];
    - the theorems on the properties the specification states;
    - further properties of the worker, read off the code: the reader
      and [concat], the sanitizers, the rows, and the handler from the
      request to the response. *)

From Stdlib Require Import String Ascii Strings.Byte.
From Stdlib Require Import ZArith NArith List Bool Lia Arith Wf_nat.
From Stdlib Require Import DecimalN DecimalPos DecimalFacts.
From Equations Require Import Equations.
Import ListNotations.

Set Implicit Arguments.
Set Warnings "-register-all".
Local Open Scope N_scope.

(* ===================================================================== *)
(** * JavaScript strings *)
(* ===================================================================== *)

(** A JavaScript string is a finite sequence of 16-bit code units;
    [s.length] is the number of code units. *)
Definition codeunit := N.
Definition jsstring := list codeunit.

(** ASCII literals of the source, as code units. *)
Definition str (s : string) : jsstring :=
  List.map N_of_ascii (list_ascii_of_string s).

Definition jsstring_eqb (a b : jsstring) : bool :=
  if list_eq_dec N.eq_dec a b then true else false.

(** ** Character classes of the two regular expressions of [safeText] *)

(** [/[<>]/] *)
Definition is_angle (c : codeunit) : bool := (c =? 60) || (c =? 62).

(** [/[\u0000-\u001F]/] *)
Definition is_ctrl (c : codeunit) : bool := c <=? 31.

(** ** [String.prototype.replace] with a global character-class pattern *)

(** [s.replace(/[cls]/g, repl)]: every single match is replaced. *)
Definition replace_each (cls : codeunit -> bool) (repl : jsstring)
  (s : jsstring) : jsstring :=
  flat_map (fun c => if cls c then repl else [c]) s.

(** The greedy [+] of [/[cls]+/]: the longest run of class members at
    the head of the subject is consumed by one match. *)
Fixpoint skip_run (cls : codeunit -> bool) (s : jsstring) : jsstring :=
  match s with
  | c :: t => if cls c then skip_run cls t else s
  | [] => []
  end.

(** [s.replace(/[cls]+/g, repl)]: scanning left to right, a match starts
    at the first class member, extends over the whole run, is replaced by
    [repl], and scanning resumes after the run. *)
Equations? replace_runs (cls : codeunit -> bool) (repl : jsstring)
  (s : jsstring) : jsstring by wf (length s) lt :=
  replace_runs cls repl [] := [];
  replace_runs cls repl (c :: t) with cls c => {
    | true := repl ++ replace_runs cls repl (skip_run cls t);
    | false := c :: replace_runs cls repl t }.
Proof.
  assert (H : forall u, (length (skip_run cls u) <= length u)%nat).
  { induction u as [|x u IH]; simpl; [lia|]. destruct (cls x); simpl; lia. }
  specialize (H t). simpl. lia.
Qed.

(** ** [String.prototype.trim] *)

(** ECMAScript WhiteSpace and LineTerminator code points: TAB, LF, VT, FF,
    CR, SPACE, NBSP, U+1680, U+2000..U+200A, U+2028, U+2029, U+202F,
    U+205F, U+3000 and U+FEFF. *)
Definition is_js_space (c : codeunit) : bool :=
  existsb (N.eqb c)
    [9; 10; 11; 12; 13; 32; 160; 5760; 8232; 8233; 8239; 8287; 12288; 65279]
  || ((8192 <=? c) && (c <=? 8202)).

Definition trimStart (s : jsstring) : jsstring := skip_run is_js_space s.
Definition trimEnd (s : jsstring) : jsstring := rev (trimStart (rev s)).
Definition trim (s : jsstring) : jsstring := trimEnd (trimStart s).

(** ** [String.prototype.slice(0, n)] for [0 <= n] *)
Definition slice0 (s : jsstring) (n : nat) : jsstring := firstn n s.

(** ** Case-insensitive search, [/lit/i.test(s)]

    Without the [u] flag a pattern character matches a subject code unit
    when both canonicalize to the same code unit; for an ASCII letter the
    only code units doing so are its two cases (a non-ASCII code unit whose
    upper case is ASCII keeps itself). *)
Definition ascii_upper (c : codeunit) : codeunit :=
  if (97 <=? c) && (c <=? 122) then c - 32 else c.

Fixpoint prefix_ci (lit s : jsstring) : bool :=
  match lit, s with
  | [], _ => true
  | p :: lit', c :: s' => (ascii_upper p =? ascii_upper c) && prefix_ci lit' s'
  | _ :: _, [] => false
  end.

Fixpoint test_ci (lit s : jsstring) : bool :=
  prefix_ci lit s ||
  match s with
  | [] => false
  | _ :: s' => test_ci lit s'
  end.

(** ** Decimal digits *)

Definition is_digit (c : codeunit) : bool := (48 <=? c) && (c <=? 57).

(** The longest prefix of class members, and the rest. *)
Fixpoint span (cls : codeunit -> bool) (s : jsstring) : jsstring * jsstring :=
  match s with
  | c :: t => if cls c then let (a, b) := span cls t in (c :: a, b) else ([], s)
  | [] => ([], [])
  end.

Fixpoint digits_of_uint (u : Decimal.uint) : jsstring :=
  match u with
  | Decimal.Nil => []
  | Decimal.D0 u => 48 :: digits_of_uint u
  | Decimal.D1 u => 49 :: digits_of_uint u
  | Decimal.D2 u => 50 :: digits_of_uint u
  | Decimal.D3 u => 51 :: digits_of_uint u
  | Decimal.D4 u => 52 :: digits_of_uint u
  | Decimal.D5 u => 53 :: digits_of_uint u
  | Decimal.D6 u => 54 :: digits_of_uint u
  | Decimal.D7 u => 55 :: digits_of_uint u
  | Decimal.D8 u => 56 :: digits_of_uint u
  | Decimal.D9 u => 57 :: digits_of_uint u
  end.

(** The mathematical value of a string of decimal digits. *)
Definition digit_value (c : codeunit) : Z := Z.of_N (c - 48).

Definition digits_value (ds : jsstring) : Z :=
  fold_left (fun acc c => (10 * acc + digit_value c)%Z) ds 0%Z.

(** The decimal representation of a natural number, without leading
    zeros (["0"] for zero). *)
Definition decimal_digits (n : Z) : jsstring :=
  digits_of_uint (N.to_uint (Z.to_N n)).

Definition starts_with (lit s : jsstring) : bool :=
  jsstring_eqb (firstn (length lit) s) lit.

(* ===================================================================== *)
(** * JavaScript numbers *)
(* ===================================================================== *)

Local Open Scope Z_scope.

(** A Number is an IEEE 754 binary64 value: NaN, an infinity, or the
    finite value [(-1)^neg * m * 2^e].  The canonical finite values have
    [2^52 <= m < 2^53] and [-1074 <= e <= 971] (normal numbers), or
    [m < 2^52] and [e = -1074] (subnormal numbers and the two zeros). *)
Inductive f64 : Type :=
| NaN
| Inf (neg : bool)
| Fin (neg : bool) (m : Z) (e : Z).

Definition canonical (x : f64) : Prop :=
  match x with
  | Fin _ m e =>
      (2 ^ 52 <= m < 2 ^ 53 /\ -1074 <= e <= 971) \/ (0 <= m < 2 ^ 52 /\ e = -1074)
  | _ => True
  end.

Definition f64_eqb (a b : f64) : bool :=
  match a, b with
  | NaN, NaN => true
  | Inf s, Inf t => Bool.eqb s t
  | Fin s m e, Fin t n f => Bool.eqb s t && (m =? n) && (e =? f)
  | _, _ => false
  end.

(** Magnitudes are measured in units of [2^-1074], the spacing of the
    smallest binade, so that every canonical finite value is an integer
    number of units. *)
Definition U : Z := 2 ^ 1074.

Definition units (m e : Z) : Z := m * 2 ^ (e + 1074).

Definition signed_units (neg : bool) (m e : Z) : Z :=
  if neg then - units m e else units m e.

(** ** Rounding a rational to the nearest Number, ties to even *)

(** The integer nearest to [P / Q] ([0 <= P], [0 < Q]), ties to even. *)
Definition rne (P Q : Z) : Z :=
  let d := P / Q in
  match (2 * (P mod Q)) ?= Q with
  | Lt => d
  | Gt => d + 1
  | Eq => if Z.even d then d else d + 1
  end.

(** The binade of [P / Q] units: the least [k >= 0] with
    [P / Q < 2^53 * 2^k]. *)
Definition binade (P Q : Z) : Z :=
  let k0 := Z.max 0 (Z.log2 P - Z.log2 Q - 53) in
  if 2 ^ 53 * Q * 2 ^ k0 <=? P then k0 + 1 else k0.

(** The Number nearest to [(-1)^neg * p / q], for [0 <= p] and [0 < q]. *)
Definition f64_of_rat (neg : bool) (p q : Z) : f64 :=
  if p =? 0 then Fin neg 0 (-1074)
  else
    let P := p * U in
    let k := binade P q in
    let m := rne P (q * 2 ^ k) in
    let (m', k') := if m =? 2 ^ 53 then (2 ^ 52, k + 1) else (m, k) in
    if 2045 <? k' then Inf neg else Fin neg m' (k' - 1074).

(** The Number nearest to [(-1)^neg * d * 10^ex]. *)
Definition f64_of_decimal (neg : bool) (d ex : Z) : f64 :=
  if 0 <=? ex then f64_of_rat neg (d * 10 ^ ex) 1
  else f64_of_rat neg d (10 ^ (- ex)).

Definition f64_of_Z (z : Z) : f64 := f64_of_rat (z <? 0) (Z.abs z) 1.

(** The numeric literals of the source: [0], the quantity bounds [1] and
    [9999], and [0.15]. *)
Definition zero : f64 := Eval vm_compute in f64_of_Z 0.
Definition qty_min : f64 := Eval vm_compute in f64_of_Z 1.
Definition qty_max : f64 := Eval vm_compute in f64_of_Z 9999.
Definition IVA_RATE : f64 := Eval vm_compute in f64_of_decimal false 15 (-2).

(** ** Comparison, [Number.isFinite], [Math.max], [Math.min] *)

(** IEEE comparison: NaN is unordered, the two zeros are equal. *)
Definition f64_compare (a b : f64) : option comparison :=
  match a, b with
  | NaN, _ | _, NaN => None
  | Inf sa, Inf sb =>
      Some (if sa then (if sb then Eq else Lt) else (if sb then Gt else Eq))
  | Inf sa, Fin _ _ _ => Some (if sa then Lt else Gt)
  | Fin _ _ _, Inf sb => Some (if sb then Gt else Lt)
  | Fin sa ma ea, Fin sb mb eb =>
      Some (signed_units sa ma ea ?= signed_units sb mb eb)
  end.

(** [a < b] and [a <= b] of the source language. *)
Definition f64_lt (a b : f64) : bool :=
  match f64_compare a b with Some Lt => true | _ => false end.

Definition f64_le (a b : f64) : bool :=
  match f64_compare a b with Some Lt | Some Eq => true | _ => false end.

Definition isFinite (x : f64) : bool :=
  match x with Fin _ _ _ => true | _ => false end.

(** [Math.max(a, b)]: NaN if either is NaN; [+0] counts as larger
    than [-0]. *)
Definition Math_max (a b : f64) : f64 :=
  match f64_compare a b with
  | None => NaN
  | Some Lt => b
  | Some Gt => a
  | Some Eq => match a with Fin true _ _ => b | _ => a end
  end.

(** [Math.min(a, b)]: NaN if either is NaN; [-0] counts as smaller
    than [+0]. *)
Definition Math_min (a b : f64) : f64 :=
  match f64_compare a b with
  | None => NaN
  | Some Lt => a
  | Some Gt => b
  | Some Eq => match a with Fin true _ _ => a | _ => b end
  end.

(** ** [Number.parseInt(s, 10)] and [Number.parseFloat(s)] *)

(** An optional sign in front of a numeric literal. *)
Definition strip_sign (s : jsstring) : bool * jsstring :=
  match s with
  | 45%N :: t => (true, t)
  | 43%N :: t => (false, t)
  | _ => (false, s)
  end.

(** [parseInt(s, 10)]: leading white space is skipped, then an optional
    sign, then the longest run of decimal digits; no digit gives NaN. *)
Definition parseInt10 (input : jsstring) : f64 :=
  let (neg, s) := strip_sign (trimStart input) in
  let (ds, _) := span is_digit s in
  match ds with
  | [] => NaN
  | _ => f64_of_rat neg (digits_value ds) 1
  end.

(** The exponent part [e±ddd] of a decimal literal; it belongs to the
    literal only when at least one digit follows. *)
Definition exponent_part (s : jsstring) : Z :=
  match s with
  | c :: t =>
      if (c =? 101)%N || (c =? 69)%N then
        let (eneg, t') := strip_sign t in
        let (ed, _) := span is_digit t' in
        match ed with
        | [] => 0
        | _ => if eneg then - digits_value ed else digits_value ed
        end
      else 0
  | [] => 0
  end.

(** [parseFloat(s)]: the longest prefix of the trimmed string that is a
    [StrDecimalLiteral], rounded to the nearest Number. *)
Definition parseFloat (input : jsstring) : f64 :=
  let (neg, s) := strip_sign (trimStart input) in
  if starts_with (str "Infinity") s then Inf neg
  else
    let (ip, r1) := span is_digit s in
    let (fp, r2) :=
      match r1 with
      | 46%N :: t => span is_digit t
      | _ => ([], r1)
      end in
    match ip ++ fp with
    | [] => NaN
    | ds => f64_of_decimal neg (digits_value ds)
              (exponent_part r2 - Z.of_nat (length fp))
    end.

(** ** [Number::toString] (radix 10) *)

(** [lt_pow10 V n]: the magnitude [V] (in units) is below [10^n]. *)
Definition lt_pow10 (V n : Z) : bool :=
  if 0 <=? n then V <? 10 ^ n * U else V * 10 ^ (- n) <? U.

(** The decade of a positive magnitude: the [n] with
    [10^(n-1) <= V/U < 10^n], searched upwards from [start]. *)
Fixpoint decade_from (fuel : nat) (start V : Z) : Z :=
  match fuel with
  | O => start
  | S fuel' =>
      if lt_pow10 V start then start else decade_from fuel' (start + 1) V
  end.

Definition decade (V : Z) : Z := decade_from 640 (-330) V.

(** [floor (V/U * 10^j)]. *)
Definition scaled_floor (V j : Z) : Z :=
  if 0 <=? j then (V * 10 ^ j) / U else V / (U * 10 ^ (- j)).

(** Of the two [k]-digit neighbours [lo] and [lo + 1] of [V/U * 10^j],
    is the lower one at least as good a choice (closer, or equally close
    and even)? *)
Definition prefer_low (V j lo : Z) : bool :=
  let c := if 0 <=? j then (2 * V * 10 ^ j) ?= ((2 * lo + 1) * U)
           else (2 * V) ?= ((2 * lo + 1) * U * 10 ^ (- j)) in
  match c with
  | Lt => true
  | Gt => false
  | Eq => Z.even lo
  end.

(** The shortest digit string: the least [k >= 1] for which some integer
    [s] with [10^(k-1) <= s < 10^k] has [s * 10^(n-k)] round to [x]; among
    several [s] the one closest to [x].  Returns [(s, k, n)]. *)
Fixpoint shortest (fuel : nat) (k : Z) (x : f64) (V n : Z) : Z * Z * Z :=
  let lo := scaled_floor V (k - n) in
  let hi := lo + 1 in
  let carry := if hi =? 10 ^ k then (10 ^ (k - 1), k, n + 1) else (hi, k, n) in
  let oklo := f64_eqb (f64_of_decimal false lo (n - k)) x in
  let okhi := f64_eqb (f64_of_decimal false hi (n - k)) x in
  match fuel with
  | O => (lo, k, n)
  | S fuel' =>
      if oklo && okhi then (if prefer_low V (k - n) lo then (lo, k, n) else carry)
      else if oklo then (lo, k, n)
      else if okhi then carry
      else shortest fuel' (k + 1) x V n
  end.

Definition zeros (n : Z) : jsstring := repeat 48%N (Z.to_nat n).

(** The layout of the [k] digits [ds] with decimal point position [n]:
    steps 6 to 10 of [Number::toString]. *)
Definition layout (k : Z) (ds : jsstring) (n : Z) : jsstring :=
  if (k <=? n) && (n <=? 21) then ds ++ zeros (n - k)
  else if (0 <? n) && (n <=? 21) then
    firstn (Z.to_nat n) ds ++ str "." ++ skipn (Z.to_nat n) ds
  else if (-6 <? n) && (n <=? 0) then str "0." ++ zeros (- n) ++ ds
  else
    let ex := (if 0 <=? n - 1 then str "+" else str "-")
                ++ decimal_digits (Z.abs (n - 1)) in
    if k =? 1 then ds ++ str "e" ++ ex
    else firstn 1 ds ++ str "." ++ skipn 1 ds ++ str "e" ++ ex.

Definition toString_pos (m e : Z) : jsstring :=
  let V := units m e in
  let '(s, k, n) := shortest 800 1 (Fin false m e) V (decade V) in
  layout k (decimal_digits s) n.

Definition Number_toString (x : f64) : jsstring :=
  match x with
  | NaN => str "NaN"
  | Inf neg => if neg then str "-Infinity" else str "Infinity"
  | Fin neg m e =>
      if m =? 0 then str "0"
      else (if neg then str "-" else []) ++ toString_pos m e
  end.

(** ** [Number.prototype.toFixed(2)] *)

(** The integer [n] for which [n / 100] is nearest to the magnitude [V]
    (in units), the larger one when two are equally near. *)
Definition cents (V : Z) : Z := (200 * V + U) / (2 * U).

(** The digits of [n], padded with zeros to three digits at least, with
    a point before the last two. *)
Definition fixed2_digits (n : Z) : jsstring :=
  let m0 := decimal_digits n in
  let m1 := if (length m0 <=? 2)%nat
            then repeat 48%N (3 - length m0) ++ m0 else m0 in
  firstn (length m1 - 2) m1 ++ str "." ++ skipn (length m1 - 2) m1.

Definition toFixed2 (x : f64) : jsstring :=
  match x with
  | Fin neg m e =>
      let V := units m e in
      let sgn := if neg && (0 <? V) then str "-" else [] in
      if 10 ^ 21 * U <=? V then sgn ++ Number_toString (Fin false m e)
      else sgn ++ fixed2_digits (cents V)
  | _ => Number_toString x
  end.

(* ===================================================================== *)
(** * JavaScript values and abrupt completions *)
(* ===================================================================== *)

(** The values [JSON.parse] can produce, and [undefined] (the result of
    reading a property that is absent).  An object is its list of own
    properties in insertion order. *)
Inductive value : Type :=
| JUndefined
| JNull
| JBool (b : bool)
| JNum (x : f64)
| JStr (s : jsstring)
| JArr (items : list value)
| JObj (fields : list (jsstring * value)).

(** The exceptions that can end a run of the worker. *)
Inductive error : Type :=
| TypeError      (* property read on [null], or no primitive value *)
| RangeError     (* the call stack is exhausted by nested conversions *)
| DataError      (* [crypto.subtle.importKey] refuses the key *)
| StreamError    (* [reader.read()] of the request body rejects *)
| NetworkError.  (* [fetch] rejected *)

(** A computation either completes normally or throws. *)
Inductive completion (A : Type) : Type :=
| Normal (a : A)
| Throw (e : error).
Arguments Throw {A} e.

Definition bind {A B} (c : completion A) (k : A -> completion B)
  : completion B :=
  match c with
  | Normal a => k a
  | Throw e => Throw e
  end.

Notation "'let*' x ':=' c 'in' k" := (bind c (fun x => k))
  (at level 61, x name, c at next level, right associativity).

(** Own-property lookup. *)
Fixpoint lookup (key : jsstring) (fields : list (jsstring * value))
  : option value :=
  match fields with
  | [] => None
  | (k, v) :: rest => if jsstring_eqb k key then Some v else lookup key rest
  end.

(** [v.key] for the property names the worker reads ([timestamp], [item],
    [qty], [subtotal], [vat], [total], [rows] and the five optional
    fields): none of them exists on a built-in prototype, so the read
    yields the own property of an object and [undefined] on everything
    else, except that reading from [null] or [undefined] throws. *)
Definition get (v : value) (key : string) : completion value :=
  match v with
  | JUndefined | JNull => Throw TypeError
  | JObj fields =>
      Normal (match lookup (str key) fields with Some x => x | None => JUndefined end)
  | _ => Normal JUndefined
  end.

(** [v?.key] *)
Definition get_opt_chain (v : value) (key : string) : value :=
  match v with
  | JObj fields =>
      match lookup (str key) fields with Some x => x | None => JUndefined end
  | _ => JUndefined
  end.

Definition isArray (v : value) : bool :=
  match v with JArr _ => true | _ => false end.

(** [!v] is [negb (truthy v)]. *)
Definition truthy (v : value) : bool :=
  match v with
  | JUndefined | JNull => false
  | JBool b => b
  | JNum NaN => false
  | JNum (Fin _ m _) => negb (m =? 0)
  | JNum (Inf _) => true
  | JStr s => match s with [] => false | _ => true end
  | JArr _ | JObj _ => true
  end.

(** [typeof v === "object"] *)
Definition typeof_object (v : value) : bool :=
  match v with JNull | JArr _ | JObj _ => true | _ => false end.

(** The call stack of the runtime is finite: [stack_depth] is the number
    of array conversions, one nested in the other, that it has room for.
    Its value depends on the engine and is left open: what is proved of
    the worker is proved for every value of it. *)
Class Stack : Type := stack_depth : nat.

(** A runtime with room for 1024 nested conversions, on which the
    examples are run. *)
#[global] Instance example_stack : Stack := 1024%nat.

(** [String(v)] for a value that is not an array, and [on_array] for an
    array.  An object produced by [JSON.parse] inherits
    [Object.prototype.toString] and yields ["[object Object]"], unless it
    has an own property named [toString]: that property is not callable,
    the inherited [valueOf] returns the object itself, and the conversion
    throws a TypeError. *)
Definition ToString_with (on_array : list value -> completion jsstring)
  (v : value) : completion jsstring :=
  match v with
  | JUndefined => Normal (str "undefined")
  | JNull => Normal (str "null")
  | JBool b => Normal (if b then str "true" else str "false")
  | JNum x => Normal (Number_toString x)
  | JStr s => Normal s
  | JArr items => on_array items
  | JObj fields =>
      match lookup (str "toString") fields with
      | Some _ => Throw TypeError
      | None => Normal (str "[object Object]")
      end
  end.

(** [Array.prototype.join] as [String(array)] calls it, with room for
    [depth] nested conversions: the comma-separated join of the string
    forms of the elements, [null] and [undefined] elements giving the
    empty string.  The conversion of an element that is an array is
    nested in this one; with no room left it throws a RangeError. *)
Fixpoint Array_join (depth : nat) (items : list value) {struct depth}
  : completion jsstring :=
  match depth with
  | O => Throw RangeError
  | S depth' =>
      (fix join (l : list value) : completion jsstring :=
         match l with
         | [] => Normal []
         | x :: t =>
             let* sx := match x with
                        | JUndefined | JNull => Normal []
                        | _ => ToString_with (Array_join depth') x
                        end in
             match t with
             | [] => Normal sx
             | _ => let* st := join t in Normal (sx ++ str "," ++ st)
             end
         end) items
  end.

(** [String(v)] *)
Definition ToString {stack : Stack} (v : value) : completion jsstring :=
  ToString_with (Array_join stack_depth) v.

(* ===================================================================== *)
(** * The worker: sanitizers *)
(* ===================================================================== *)

(** [safeText(v, max)] *)
Definition safeText (v : value) (max : nat) : jsstring :=
  match v with
  | JStr v =>
      let s := trim (replace_runs is_ctrl (str " ")
                       (replace_each is_angle [] v)) in
      if (max <? length s)%nat then slice0 s max else s
  | _ => []
  end.

(** [toInt(v, min, max)] *)
Definition toInt {stack : Stack} (v : value) (min max : f64) : completion f64 :=
  let* s := ToString v in
  let n := parseInt10 s in
  if negb (isFinite n) then Normal zero
  else Normal (Math_min (Math_max n min) max).

(** [toMoney(v)] *)
Definition toMoney {stack : Stack} (v : value) : completion jsstring :=
  let* s := ToString v in
  let n := parseFloat s in
  if negb (isFinite n) || f64_lt n zero then Normal (str "0.00")
  else Normal (toFixed2 n).

(** [getOpt(obj, key)] *)
Definition getOpt (obj : value) (key : string) : value :=
  if negb (truthy obj) || negb (typeof_object obj) then JUndefined
  else get_opt_chain obj key.

(* ===================================================================== *)
(** * The worker: bytes, encodings, requests and responses *)
(* ===================================================================== *)

Local Open Scope N_scope.

Definition bytes := list byte.

Definition byte_of (n : N) : byte :=
  match Byte.of_N n with Some b => b | None => x00 end.

(** [new TextEncoder().encode(s)]: UTF-8, a surrogate pair giving one
    four-byte sequence and a lone surrogate U+FFFD. *)
Definition is_high_surrogate (c : codeunit) : bool := (55296 <=? c) && (c <=? 56319).
Definition is_low_surrogate (c : codeunit) : bool := (56320 <=? c) && (c <=? 57343).
Definition utf8_replacement : bytes := [xef; xbf; xbd].

Fixpoint TextEncoder_encode (s : jsstring) : bytes :=
  match s with
  | [] => []
  | c :: t =>
      if c <? 128 then byte_of c :: TextEncoder_encode t
      else if c <? 2048 then
        byte_of (192 + c / 64) :: byte_of (128 + c mod 64) :: TextEncoder_encode t
      else if is_high_surrogate c then
        match t with
        | l :: t' =>
            if is_low_surrogate l then
              let cp := 65536 + (c - 55296) * 1024 + (l - 56320) in
              byte_of (240 + cp / 262144) :: byte_of (128 + (cp / 4096) mod 64)
                :: byte_of (128 + (cp / 64) mod 64) :: byte_of (128 + cp mod 64)
                :: TextEncoder_encode t'
            else utf8_replacement ++ TextEncoder_encode t
        | [] => utf8_replacement
        end
      else if is_low_surrogate c then utf8_replacement ++ TextEncoder_encode t
      else
        byte_of (224 + c / 4096) :: byte_of (128 + (c / 64) mod 64)
          :: byte_of (128 + c mod 64) :: TextEncoder_encode t
  end.

(** [btoa]: base64 of a string of code units below 256. *)
Definition b64_char (n : N) : codeunit :=
  if n <? 26 then 65 + n
  else if n <? 52 then 97 + (n - 26)
  else if n <? 62 then 48 + (n - 52)
  else if n =? 62 then 43 else 47.

Fixpoint btoa (s : jsstring) : jsstring :=
  match s with
  | a :: b :: c :: t =>
      b64_char (a / 4) :: b64_char ((a mod 4) * 16 + b / 16)
        :: b64_char ((b mod 16) * 4 + c / 64) :: b64_char (c mod 64) :: btoa t
  | [a; b] =>
      [b64_char (a / 4); b64_char ((a mod 4) * 16 + b / 16);
       b64_char ((b mod 16) * 4); 61]
  | [a] => [b64_char (a / 4); b64_char ((a mod 4) * 16); 61; 61]
  | [] => []
  end.

(** [b64(u8)]: the loop appends [String.fromCharCode(u8[i])] for each
    byte, then [btoa] encodes the string. *)
Definition b64 (u8 : bytes) : jsstring :=
  btoa (fold_left (fun s b => s ++ [Byte.to_N b]) u8 []).

(** [concat(chunks)]: the chunks copied one after the other. *)
Definition concat (chunks : list bytes) : bytes :=
  fold_left (fun out c => out ++ c) chunks [].

(** The body of an inbound request: a readable stream that delivers a
    finite sequence of chunks and ends; a stream that delivers chunks and
    then fails, its next [read()] rejecting; or no stream at all, in
    which case [request.text()] resolves to a text or rejects. *)
Inductive body : Type :=
| Stream (chunks : list bytes)
| BrokenStream (chunks : list bytes)
| NoStream (text : option jsstring).

Record request : Type := {
  req_method : jsstring;
  req_pathname : jsstring;           (* [new URL(request.url).pathname] *)
  req_header : string -> option jsstring;   (* [request.headers.get] *)
  req_body : body
}.

(** The bindings the worker reads from [env]. *)
Record env : Type := {
  SIGNING_KEY : jsstring;
  APP_SCRIPT_URL : jsstring;
  ASSET_ID : jsstring;
  KID : jsstring
}.

(** A [Response] made by [json]: the status, the content type header and
    the object whose [JSON.stringify] serialization is the body. *)
Record response : Type := {
  resp_status : Z;
  resp_content_type : jsstring;
  resp_json : value
}.

(** [json(obj, status)] *)
Definition json (obj : list (jsstring * value)) (status : Z) : response :=
  {| resp_status := status;
     resp_content_type := str "application/json; charset=utf-8";
     resp_json := JObj obj |}.

(** An outbound call of the global [fetch]. *)
Record outbound : Type := {
  out_url : jsstring;
  out_method : jsstring;
  out_headers : list (jsstring * jsstring);
  out_body : jsstring
}.

(** What the network answers: [fetch] rejects, or resolves to a response
    with a status whose text can be read or not. *)
Inductive fetch_result : Type :=
| FetchRejected
| FetchResponse (status : Z) (text : option jsstring).

(** [res.ok]: the status is in the range 200 to 299. *)
Definition res_ok (status : Z) : bool := ((200 <=? status) && (status <=? 299))%Z.

(** The surroundings of one request: the instant the clock reports for
    [new Date().toISOString()] and the behaviour of the network. *)
Record world : Type := {
  now_iso : jsstring;
  network : outbound -> fetch_result
}.

(** [promise.catch(() => "")] on the text of a body: the text, or the
    empty string when reading it fails. *)
Definition text_or_empty (text : option jsstring) : jsstring :=
  match text with Some t => t | None => [] end.

(** ** [readLimited] *)

(** The [while (true)] loop over [reader.read()].  The reader is the list
    of chunks not yet delivered; the loop returns the accepted chunks
    ([None] for the early [return null]) and the chunks never read. *)
Fixpoint read_loop (maxBytes : nat) (reader : list bytes) (received : nat)
  (chunks : list bytes) : option (list bytes) * list bytes :=
  match reader with
  | [] => (Some chunks, [])
  | value :: rest =>
      let received' := (received + length value)%nat in
      if (maxBytes <? received')%nat then (None, rest)
      else read_loop maxBytes rest received' (chunks ++ [value])
  end.

(** [readLimited(request, maxBytes)]: the buffer or [null], or the
    exception of a stream that fails, and the part of the stream left
    unread.  On a stream that fails after its chunks the loop runs as on
    the chunks, and the [read()] that would have reported the end rejects
    instead. *)
Definition readLimited (rq : request) (maxBytes : nat)
  : completion (option bytes) * list bytes :=
  match req_body rq with
  | NoStream text =>
      let t := text_or_empty text in
      let buf := TextEncoder_encode t in
      (Normal (if (maxBytes <? length buf)%nat then None else Some buf), [])
  | Stream cs =>
      match read_loop maxBytes cs 0 [] with
      | (Some chunks, unread) => (Normal (Some (concat chunks)), unread)
      | (None, unread) => (Normal None, unread)
      end
  | BrokenStream cs =>
      match read_loop maxBytes cs 0 [] with
      | (Some chunks, unread) => (Throw StreamError, unread)
      | (None, unread) => (Normal None, unread)
      end
  end.

(* ===================================================================== *)
(** * The worker: [handleSave] *)
(* ===================================================================== *)

Section Worker.

(** Built-ins of the runtime that the worker calls and that are not
    part of its source. *)
Variable TextDecoder_decode : bytes -> jsstring.
Variable JSON_parse : jsstring -> option value.   (* [None]: SyntaxError *)
Variable JSON_stringify : value -> jsstring.
Variable sha256 : bytes -> bytes.                 (* [crypto.subtle.digest] *)
Variable hmac_sha256 : bytes -> bytes -> bytes.   (* key, message *)
Context {stack : Stack}.

(** [sha256base64(str)] *)
Definition sha256base64 (s : jsstring) : jsstring :=
  b64 (sha256 (TextEncoder_encode s)).

(** [hmacSha256Base64(secret, message)]: [importKey] refuses a key of
    no bytes with a DataError, and any other key signs the message. *)
Definition hmacSha256Base64 (secret message : jsstring) : completion jsstring :=
  match TextEncoder_encode secret with
  | [] => Throw DataError
  | key => Normal (b64 (hmac_sha256 key (TextEncoder_encode message)))
  end.

(** [a || b] on a header value that may be [null]. *)
Definition or_else (a : option jsstring) (b : jsstring) : jsstring :=
  match a with
  | Some ((_ :: _) as s) => s
  | _ => b
  end.

(** The body of the [for (const r of dataRows)] loop of step 3: the
    object pushed onto [norm], or the response of the early [return]. *)
Definition normalize_row (r : value) : completion (response + value) :=
  let* v_timestamp := get r "timestamp" in
  let timestamp := safeText v_timestamp 64 in
  let* v_item := get r "item" in
  let item_name := safeText v_item 96 in
  let* v_qty := get r "qty" in
  let* qty := toInt v_qty qty_min qty_max in
  let* v_subtotal := get r "subtotal" in
  let* subtotal_usd := toMoney v_subtotal in
  let* v_vat := get r "vat" in
  let* vat_usd := toMoney v_vat in
  let* v_total := get r "total" in
  let* total_usd := toMoney v_total in
  if negb (truthy (JStr timestamp)) || negb (truthy (JStr item_name))
     || f64_le qty zero
  then
    Normal (inl (json
      [(str "ok", JBool false); (str "error", JStr (str "invalid_row"));
       (str "hint", JObj [(str "item_name", JStr item_name);
                          (str "qty", JNum qty)])] 422))
  else
    Normal (inr (JObj [(str "timestamp", JStr timestamp);
                       (str "item_name", JStr item_name);
                       (str "qty", JNum qty);
                       (str "subtotal_usd", JStr subtotal_usd);
                       (str "vat_usd", JStr vat_usd);
                       (str "total_usd", JStr total_usd);
                       (str "currency", JStr (str "USD"));
                       (str "iva_rate", JNum IVA_RATE)])).

(** The loop itself: rows are sanitized in order and pushed onto
    [norm]; the first rejection or exception ends the loop. *)
Fixpoint normalize (dataRows : list value) (norm : list value)
  : completion (response + list value) :=
  match dataRows with
  | [] => Normal (inr norm)
  | r :: rest =>
      let* outcome := normalize_row r in
      match outcome with
      | inl rejection => Normal (inl rejection)
      | inr row => normalize rest (norm ++ [row])
      end
  end.

(** The [payload] object of step 3. *)
Definition assemble (rq : request) (wrapper : value) (norm : list value)
  : value :=
  let ip := or_else (req_header rq "CF-Connecting-IP")
              (or_else (req_header rq "X-Forwarded-For") []) in
  let ua := or_else (req_header rq "User-Agent") [] in
  JObj [(str "rows", JArr norm);
        (str "source_ip", JStr ip);
        (str "user_agent", JStr ua);
        (str "delivery_address", JStr (safeText (getOpt wrapper "delivery_address") 200));
        (str "whatsapp", JStr (safeText (getOpt wrapper "whatsapp") 50));
        (str "email", JStr (safeText (getOpt wrapper "email") 120));
        (str "delivery_lat", JStr (safeText (getOpt wrapper "delivery_lat") 32));
        (str "delivery_lng", JStr (safeText (getOpt wrapper "delivery_lng") 32));
        (str "status", JStr (str "pending"))].

(** Step 4 and the arguments of the [fetch] of step 5: the signed
    request sent downstream, or the exception of the signing. *)
Definition signed_call (e : env) (w : world) (payload : value)
  : completion outbound :=
  let tsHeader := now_iso w in
  let bodyString := JSON_stringify payload in
  let bodyHash := sha256base64 bodyString in
  let* signature :=
    hmacSha256Base64 (SIGNING_KEY e) (tsHeader ++ str "." ++ bodyHash) in
  Normal
    {| out_url := APP_SCRIPT_URL e;
       out_method := str "POST";
       out_headers :=
         [(str "Content-Type", str "application/json");
          (str "X-Asset-ID", ASSET_ID e);
          (str "X-KID", KID e);
          (str "X-Timestamp", tsHeader);
          (str "X-Body-Hash", bodyHash);
          (str "X-Signature", signature)];
       out_body := bodyString |}.

(** Step 5: the call and the reading of its response. *)
Definition relay (e : env) (w : world) (payload : value)
  : completion response * list outbound :=
  match signed_call e w payload with
  | Throw err => (Throw err, [])
  | Normal call =>
      match network w call with
      | FetchRejected => (Throw NetworkError, [call])
      | FetchResponse status res_text =>
          let text := text_or_empty res_text in
          if res_ok status && test_ci (str "success") text then
            (Normal (json [(str "ok", JBool true); (str "forwarded", JBool true)] 200),
             [call])
          else
            (Normal (json [(str "ok", JBool false); (str "forwarded", JBool false);
                           (str "status", JNum (f64_of_Z status));
                           (str "body", JStr (slice0 text 3000))] 502),
             [call])
      end
  end.

(** [handleSave(request, env)]: how the request completes, and the
    outbound calls made on the way. *)
Definition handleSave (rq : request) (e : env) (w : world)
  : completion response * list outbound :=
  let MAX := (64 * 1024)%nat in
  match fst (readLimited rq MAX) with
  | Throw err => (Throw err, [])
  | Normal None =>
      (Normal (json [(str "ok", JBool false);
                     (str "error", JStr (str "payload_too_large"))] 413), [])
  | Normal (Some buf) =>
      let raw := TextDecoder_decode buf in
      match JSON_parse raw with
      | None =>
          (Normal (json [(str "ok", JBool false);
                         (str "error", JStr (str "invalid_json"))] 400), [])
      | Some rows =>
          let isArrayOnly := isArray rows in
          let dataRows :=
            if isArrayOnly then rows
            else if isArray (get_opt_chain rows "rows")
                 then get_opt_chain rows "rows" else JNull in
          match dataRows with
          | JArr ((_ :: _) as items) =>
              match normalize items [] with
              | Throw err => (Throw err, [])
              | Normal (inl rejection) => (Normal rejection, [])
              | Normal (inr norm) =>
                  let wrapper := if isArrayOnly then JNull else rows in
                  relay e w (assemble rq wrapper norm)
              end
          | _ =>
              (Normal (json [(str "ok", JBool false);
                             (str "error", JStr (str "empty_rows"))] 400), [])
          end
      end
  end.

(** The [fetch] handler of the default export. *)
Definition fetch_handler (rq : request) (e : env) (w : world)
  : completion response * list outbound :=
  if jsstring_eqb (req_method rq) (str "GET")
     && jsstring_eqb (req_pathname rq) (str "/health")
  then (Normal (json [(str "ok", JBool true);
                      (str "info", JStr (str "marxia-save-lite ready"))] 200), [])
  else if jsstring_eqb (req_method rq) (str "POST")
          && jsstring_eqb (req_pathname rq) (str "/api/save")
  then handleSave rq e w
  else (Normal (json [(str "ok", JBool false);
                      (str "error", JStr (str "not_found"));
                      (str "path", JStr (req_pathname rq));
                      (str "method", JStr (req_method rq))] 404), []).

End Worker.

Unset Implicit Arguments.

(* ===================================================================== *)
(** * Basic facts *)
(* ===================================================================== *)

Lemma jsstring_eqb_eq a b : jsstring_eqb a b = true <-> a = b.
Proof.
  unfold jsstring_eqb. destruct (list_eq_dec N.eq_dec a b); split; congruence.
Qed.

Lemma f64_eqb_eq (a b : f64) : f64_eqb a b = true <-> a = b.
Proof.
  destruct a as [|s|s m e], b as [|t|t n f]; simpl; split;
    try congruence; try reflexivity.
  - intros H. apply Bool.eqb_prop in H. congruence.
  - intros H. inversion H. apply Bool.eqb_reflx.
  - rewrite !andb_true_iff, !Z.eqb_eq. intros [[H1 H2] H3].
    apply Bool.eqb_prop in H1. congruence.
  - intros H. inversion H. subst.
    rewrite Bool.eqb_reflx, !Z.eqb_refl. reflexivity.
Qed.

Lemma skip_run_length cls s : (length (skip_run cls s) <= length s)%nat.
Proof.
  induction s as [|c t IH]; simpl; [lia|]. destruct (cls c); simpl; lia.
Qed.

(* ===================================================================== *)
(** * [safeText] against its description *)
(* ===================================================================== *)

(** The two replacements of [safeText] in one pass over the input: angle
    brackets are dropped, a control character opens a run that yields a
    single space, and further control characters of the same run (also
    across dropped brackets) yield nothing. *)
Fixpoint strip_collapse (in_run : bool) (s : jsstring) : jsstring :=
  match s with
  | [] => []
  | c :: t =>
      if is_angle c then strip_collapse in_run t
      else if is_ctrl c then
        (if in_run then [] else str " ") ++ strip_collapse true t
      else c :: strip_collapse false t
  end.

Definition safeText_described (v : value) (maxLen : nat) : jsstring :=
  match v with
  | JStr s => firstn maxLen (trim (strip_collapse false s))
  | _ => []
  end.

Lemma replace_runs_nil cls repl : replace_runs cls repl [] = [].
Proof. now simp replace_runs. Qed.

Lemma replace_runs_cons cls repl c t :
  replace_runs cls repl (c :: t) =
  if cls c then repl ++ replace_runs cls repl (skip_run cls t)
  else c :: replace_runs cls repl t.
Proof. simp replace_runs. destruct (cls c); reflexivity. Qed.

Lemma replace_each_cons cls repl c t :
  replace_each cls repl (c :: t) =
  (if cls c then repl else [c]) ++ replace_each cls repl t.
Proof. reflexivity. Qed.

Lemma strip_collapse_replace s :
  strip_collapse false s
    = replace_runs is_ctrl (str " ") (replace_each is_angle [] s)
  /\ strip_collapse true s
    = replace_runs is_ctrl (str " ")
        (skip_run is_ctrl (replace_each is_angle [] s)).
Proof.
  induction s as [|c t [IHf IHt]].
  - simpl. rewrite replace_runs_nil. auto.
  - rewrite replace_each_cons. simpl strip_collapse.
    destruct (is_angle c) eqn:Ha; simpl app.
    + auto.
    + simpl skip_run. rewrite replace_runs_cons.
      destruct (is_ctrl c) eqn:Hc.
      * rewrite IHt. auto.
      * rewrite replace_runs_cons, Hc, IHf. auto.
Qed.

Lemma slice0_guard (s : jsstring) (n : nat) :
  (if (n <? length s)%nat then slice0 s n else s) = firstn n s.
Proof.
  unfold slice0. destruct (Nat.ltb_spec n (length s)); [reflexivity|].
  symmetry. now apply firstn_all2.
Qed.

Lemma safeText_described_eq v maxLen :
  safeText v maxLen = safeText_described v maxLen.
Proof.
  destruct v as [| |b|x|s|l|f]; try reflexivity.
  unfold safeText, safeText_described.
  rewrite slice0_guard.
  now rewrite (proj1 (strip_collapse_replace s)).
Qed.

(** ** The description's own terms

    The words of the description are given meanings of their own, none
    of them taken from the model of the code: the two brackets, the
    control characters, the white space of ECMAScript (every code unit
    listed), a string rid of its brackets, a string whose runs of control
    characters are each collapsed to one space, a string trimmed at both
    ends, and a string cut to a length. *)

Definition angle_bracket (c : codeunit) : Prop := c = 60 \/ c = 62.

Definition control_character (c : codeunit) : Prop := c < 32.

Definition white_space (c : codeunit) : Prop :=
  In c [9; 10; 11; 12; 13; 32; 160; 5760;
        8192; 8193; 8194; 8195; 8196; 8197; 8198; 8199; 8200; 8201; 8202;
        8232; 8233; 8239; 8287; 12288; 65279].

Definition starts_without (P : codeunit -> Prop) (s : jsstring) : Prop :=
  match s with [] => True | c :: _ => ~ P c end.

Definition ends_without (P : codeunit -> Prop) (s : jsstring) : Prop :=
  starts_without P (rev s).

(** [without_brackets s t]: [t] is [s] with every bracket struck out. *)
Inductive without_brackets : jsstring -> jsstring -> Prop :=
| wb_end : without_brackets [] []
| wb_strike c s t :
    angle_bracket c -> without_brackets s t -> without_brackets (c :: s) t
| wb_keep c s t :
    ~ angle_bracket c -> without_brackets s t ->
    without_brackets (c :: s) (c :: t).

(** [runs_collapsed s t]: [t] is [s] with every maximal run of control
    characters replaced by one space, and nothing else changed. *)
Inductive runs_collapsed : jsstring -> jsstring -> Prop :=
| rc_end : runs_collapsed [] []
| rc_keep c s t :
    ~ control_character c -> runs_collapsed s t ->
    runs_collapsed (c :: s) (c :: t)
| rc_run run rest t :
    run <> [] -> Forall control_character run ->
    starts_without control_character rest ->
    runs_collapsed rest t ->
    runs_collapsed (run ++ rest) (32 :: t).

(** [trimmed s t]: [t] is [s] without the white space at its two ends. *)
Definition trimmed (s t : jsstring) : Prop :=
  exists pre post,
    s = pre ++ t ++ post
    /\ Forall white_space pre /\ Forall white_space post
    /\ starts_without white_space t /\ ends_without white_space t.

(** [truncated maxLen s t]: [t] is [s] cut to at most [maxLen] code units. *)
Definition truncated (maxLen : nat) (s t : jsstring) : Prop :=
  exists rest, s = t ++ rest /\ length t = Nat.min maxLen (length s).

(** The description of [safeText] on a string, step by step. *)
Definition safeText_description (s : jsstring) (maxLen : nat) (out : jsstring)
  : Prop :=
  exists a b c,
    without_brackets s a /\ runs_collapsed a b /\ trimmed b c
    /\ truncated maxLen c out.

(** ** The classes of the code against the terms of the description *)

Lemma is_angle_spec c : is_angle c = true <-> angle_bracket c.
Proof.
  unfold is_angle, angle_bracket. now rewrite orb_true_iff, !N.eqb_eq.
Qed.

Lemma is_ctrl_spec c : is_ctrl c = true <-> control_character c.
Proof. unfold is_ctrl, control_character. rewrite N.leb_le. lia. Qed.

Lemma is_js_space_spec c : is_js_space c = true <-> white_space c.
Proof.
  unfold is_js_space, white_space. cbn [existsb In].
  rewrite !orb_true_iff, andb_true_iff, !N.eqb_eq, !N.leb_le.
  split.
  - intros [H|H]; [|lia].
    repeat (destruct H as [H|H]; [lia|]). discriminate H.
  - intros H. repeat (destruct H as [H|H]; [lia|]). destruct H.
Qed.

Section Runs.

Variable cls : codeunit -> bool.
Variable P : codeunit -> Prop.
Hypothesis cls_spec : forall c, cls c = true <-> P c.

Lemma cls_false c : ~ P c -> cls c = false.
Proof.
  intros H. destruct (cls c) eqn:E; [|reflexivity].
  now apply cls_spec in E.
Qed.

Lemma skip_run_over pre t :
  Forall P pre -> skip_run cls (pre ++ t) = skip_run cls t.
Proof.
  induction 1 as [|c pre Hc _ IH]; [reflexivity|]. cbn [app skip_run].
  apply cls_spec in Hc. now rewrite Hc.
Qed.

Lemma skip_run_stay s : starts_without P s -> skip_run cls s = s.
Proof.
  destruct s as [|c t]; [reflexivity|]. cbn [starts_without skip_run].
  intros H. now rewrite (cls_false _ H).
Qed.

Lemma skip_run_all s : Forall P s -> skip_run cls s = [].
Proof.
  intros H. rewrite <- (List.app_nil_r s). now rewrite (skip_run_over _ _ H).
Qed.

Lemma skip_run_split s :
  exists run, s = run ++ skip_run cls s /\ Forall P run
              /\ starts_without P (skip_run cls s).
Proof.
  induction s as [|c t (run & E & Hrun & Hs)].
  - exists []. repeat split. constructor.
  - cbn [skip_run]. destruct (cls c) eqn:Hc.
    + exists (c :: run). cbn [app]. rewrite <- E.
      repeat split; [|exact Hs]. constructor; [now apply cls_spec|exact Hrun].
    + exists []. repeat split; [constructor|]. cbn [starts_without].
      intros HP. apply cls_spec in HP. congruence.
Qed.

End Runs.

(** ** Each step of the code against its description *)

Lemma without_brackets_iff s a :
  without_brackets s a <-> a = replace_each is_angle [] s.
Proof.
  split.
  - induction 1 as [|c s t Hc _ IH|c s t Hc _ IH];
      [reflexivity| |]; rewrite replace_each_cons.
    + apply is_angle_spec in Hc. now rewrite Hc.
    + rewrite (cls_false _ _ is_angle_spec _ Hc). cbn [app]. now f_equal.
  - intros ->. induction s as [|c t IH]; [constructor|].
    rewrite replace_each_cons. destruct (is_angle c) eqn:Hc.
    + apply wb_strike; [now apply is_angle_spec|exact IH].
    + apply wb_keep; [|exact IH]. intros H. apply is_angle_spec in H.
      congruence.
Qed.

Lemma runs_collapsed_iff a b :
  runs_collapsed a b <-> b = replace_runs is_ctrl (str " ") a.
Proof.
  split.
  - induction 1 as [|c s t Hc _ IH|run rest t Hne Hrun Hrest _ IH].
    + now rewrite replace_runs_nil.
    + rewrite replace_runs_cons, (cls_false _ _ is_ctrl_spec _ Hc).
      now f_equal.
    + destruct run as [|c run']; [contradiction|].
      inversion Hrun as [|? ? Hc Hrun']; subst.
      cbn [app]. rewrite replace_runs_cons.
      apply is_ctrl_spec in Hc. rewrite Hc.
      rewrite (skip_run_over _ _ is_ctrl_spec _ _ Hrun').
      rewrite (skip_run_stay _ _ is_ctrl_spec _ Hrest). reflexivity.
  - intros ->. remember (length a) as n eqn:En. revert a En.
    induction n as [n IH] using (well_founded_induction lt_wf).
    intros [|c t] En; [rewrite replace_runs_nil; constructor|].
    rewrite replace_runs_cons. destruct (is_ctrl c) eqn:Hc.
    + destruct (skip_run_split _ _ is_ctrl_spec t) as (run & E & Hrun & Hs).
      change (str " " ++ replace_runs is_ctrl (str " ") (skip_run is_ctrl t))
        with (32 :: replace_runs is_ctrl (str " ") (skip_run is_ctrl t)).
      rewrite E at 1. change (c :: run ++ skip_run is_ctrl t)
        with ((c :: run) ++ skip_run is_ctrl t).
      apply rc_run; [discriminate| |exact Hs|].
      * constructor; [now apply is_ctrl_spec|exact Hrun].
      * apply (IH (length (skip_run is_ctrl t))); [|reflexivity].
        subst n. cbn [length]. pose proof (skip_run_length is_ctrl t). lia.
    + apply rc_keep.
      * intros H. apply is_ctrl_spec in H. congruence.
      * apply (IH (length t)); [subst n; cbn [length]; lia|reflexivity].
Qed.

Lemma trimmed_iff b c : trimmed b c <-> c = trim b.
Proof.
  unfold trim, trimEnd, trimStart. split.
  - intros (pre & post & -> & Hpre & Hpost & Hs & He).
    rewrite (skip_run_over _ _ is_js_space_spec _ _ Hpre).
    destruct c as [|x c'].
    + cbn [app]. rewrite (skip_run_all _ _ is_js_space_spec _ Hpost).
      reflexivity.
    + rewrite (skip_run_stay _ _ is_js_space_spec ((x :: c') ++ post) Hs).
      rewrite rev_app_distr.
      rewrite (skip_run_over _ _ is_js_space_spec _ _
                 (Forall_rev Hpost)).
      rewrite (skip_run_stay _ _ is_js_space_spec _ He).
      now rewrite rev_involutive.
  - intros ->.
    destruct (skip_run_split _ _ is_js_space_spec b) as (pre & E & Hpre & Hs).
    set (u := skip_run is_js_space b) in *.
    destruct (skip_run_split _ _ is_js_space_spec (rev u))
      as (pre' & E' & Hpre' & Hs').
    set (v := skip_run is_js_space (rev u)) in *.
    assert (Eu : u = rev v ++ rev pre').
    { rewrite <- rev_app_distr, <- E'. now rewrite rev_involutive. }
    exists pre, (rev pre'). split; [now rewrite <- Eu|].
    split; [exact Hpre|]. split; [now apply Forall_rev|].
    split.
    + rewrite Eu in Hs. destruct (rev v); [exact I|exact Hs].
    + unfold ends_without. now rewrite rev_involutive.
Qed.

Lemma truncated_iff maxLen s t :
  truncated maxLen s t
  <-> t = (if (maxLen <? length s)%nat then slice0 s maxLen else s).
Proof.
  rewrite slice0_guard. split.
  - intros (rest & -> & Hlen). rewrite length_app in Hlen.
    rewrite firstn_app.
    destruct (Nat.le_gt_cases maxLen (length t + length rest)) as [H|H].
    + rewrite Nat.min_l in Hlen by exact H. rewrite Hlen, Nat.sub_diag.
      rewrite <- Hlen, firstn_all. cbn [firstn]. now rewrite List.app_nil_r.
    + rewrite Nat.min_r in Hlen by lia.
      assert (Hr : rest = []) by (apply length_zero_iff_nil; lia).
      subst rest. rewrite firstn_nil, List.app_nil_r.
      symmetry. apply firstn_all2. cbn [length] in H. lia.
  - intros ->. exists (skipn maxLen s). split.
    + symmetry. apply firstn_skipn.
    + apply length_firstn.
Qed.

(** The code follows the description, and the description allows no
    other result. *)
Lemma safeText_description_iff s maxLen out :
  safeText (JStr s) maxLen = out <-> safeText_description s maxLen out.
Proof.
  unfold safeText_description, safeText. split.
  - intros <-. eexists _, _, _.
    split; [apply without_brackets_iff; reflexivity|].
    split; [apply runs_collapsed_iff; reflexivity|].
    split; [apply trimmed_iff; reflexivity|].
    apply truncated_iff. reflexivity.
  - intros (a & b & c & Ha & Hb & Hc & Ho).
    apply without_brackets_iff in Ha. apply runs_collapsed_iff in Hb.
    apply trimmed_iff in Hc. apply truncated_iff in Ho.
    subst. reflexivity.
Qed.

(** C8: [safeText] returns the empty string on a value that is not a
    string.  On a string its result is the one the description allows:
    [<] and [>] are struck out, every run of control characters (code
    points 0 to 31) is then replaced by one space, white space is trimmed
    at both ends and the result is cut to [maxLen] code units.  Among the
    examples, the item [<script>x</script>] sanitizes to
    [scriptx/script]; a string with white space at its ends, brackets and
    a run of TAB, LF and U+0001 sanitizes to the text between, the run
    turned into one space; the white space trimmed includes U+00A0 and
    U+FEFF; and a text longer than the limit is cut. *)
Theorem safeText_as_described :
  (forall v maxLen, safeText v maxLen = [] \/ exists s, v = JStr s)
  /\ (forall s maxLen out,
        safeText (JStr s) maxLen = out <-> safeText_description s maxLen out)
  /\ safeText (JStr (str "<script>x</script>")) 96 = str "scriptx/script"
  /\ safeText (JStr ([32; 60; 98; 62; 97; 9; 10; 1; 98; 60; 47; 98; 62; 32; 10])) 200
     = str "ba b/b"
  /\ safeText (JStr ([160; 97; 1; 60; 2; 98; 65279])) 200 = str "a b"
  /\ safeText (JStr (str " abcdef ")) 3 = str "abc"
  /\ safeText (JStr [9; 10; 60; 13]) 200 = [].
Proof.
  split; [|split; [|repeat split]].
  - intros [| |b|x|s|l|f] maxLen; try (left; reflexivity).
    right. now exists s.
  - exact safeText_description_iff.
Qed.

Lemma safeText_as_described_witness :
  safeText_description (str " <b>a</b> ") 200 (str "ba/b").
Proof.
  apply (proj1 (proj1 (proj2 safeText_as_described) _ _ _)). reflexivity.
Defined.

(* ===================================================================== *)
(** * [toInt]: clamping *)
(* ===================================================================== *)

Local Open Scope Z_scope.

(** The signed magnitude of a finite Number, in units. *)
Definition su (x : f64) : Z :=
  match x with
  | Fin s m e => signed_units s m e
  | _ => 0
  end.

Lemma f64_le_fin a b :
  isFinite a = true -> isFinite b = true ->
  f64_le a b = (su a <=? su b).
Proof.
  destruct a as [| |sa ma ea], b as [| |sb mb eb]; try discriminate.
  intros _ _. unfold f64_le, f64_compare, su.
  destruct (Z.compare_spec (signed_units sa ma ea) (signed_units sb mb eb));
    symmetry; [apply Z.leb_le|apply Z.leb_le|apply Z.leb_gt]; lia.
Qed.

Lemma Math_max_fin a b :
  isFinite a = true -> isFinite b = true ->
  isFinite (Math_max a b) = true /\ su (Math_max a b) = Z.max (su a) (su b).
Proof.
  destruct a as [| |sa ma ea], b as [| |sb mb eb]; try discriminate.
  intros _ _. unfold Math_max, f64_compare, su.
  destruct (Z.compare_spec (signed_units sa ma ea) (signed_units sb mb eb));
    try destruct sa; cbv beta iota; split; try reflexivity; lia.
Qed.

Lemma Math_min_fin a b :
  isFinite a = true -> isFinite b = true ->
  isFinite (Math_min a b) = true /\ su (Math_min a b) = Z.min (su a) (su b).
Proof.
  destruct a as [| |sa ma ea], b as [| |sb mb eb]; try discriminate.
  intros _ _. unfold Math_min, f64_compare, su.
  destruct (Z.compare_spec (signed_units sa ma ea) (signed_units sb mb eb));
    try destruct sa; cbv beta iota; split; try reflexivity; lia.
Qed.

(** [Math.min(Math.max(n, lo), hi)] of finite Numbers with [lo <= hi]
    lies between [lo] and [hi]. *)
Lemma clamp_between n lo hi :
  isFinite n = true -> isFinite lo = true -> isFinite hi = true ->
  su lo <= su hi ->
  let q := Math_min (Math_max n lo) hi in
  isFinite q = true /\ f64_le lo q = true /\ f64_le q hi = true.
Proof.
  intros Hn Hlo Hhi Hle q.
  destruct (Math_max_fin n lo Hn Hlo) as [Hf1 Hs1].
  destruct (Math_min_fin (Math_max n lo) hi Hf1 Hhi) as [Hf2 Hs2].
  fold q in Hf2, Hs2. split; [exact Hf2|].
  rewrite !f64_le_fin by assumption.
  rewrite Hs2, Hs1. split; apply Z.leb_le; lia.
Qed.

Lemma toInt_finite {stack : Stack} v s lo hi :
  ToString v = Normal s -> isFinite (parseInt10 s) = true ->
  toInt v lo hi = Normal (Math_min (Math_max (parseInt10 s) lo) hi).
Proof. intros Hs Hf. unfold toInt. rewrite Hs. simpl. now rewrite Hf. Qed.

Lemma toInt_not_finite {stack : Stack} v s lo hi :
  ToString v = Normal s -> isFinite (parseInt10 s) = false ->
  toInt v lo hi = Normal zero.
Proof. intros Hs Hf. unfold toInt. rewrite Hs. simpl. now rewrite Hf. Qed.

Lemma qty_in_range {stack : Stack} v s :
  ToString v = Normal s -> isFinite (parseInt10 s) = true ->
  exists q, toInt v qty_min qty_max = Normal q
    /\ isFinite q = true
    /\ f64_le qty_min q = true /\ f64_le q qty_max = true
    /\ f64_le q zero = false.
Proof.
  intros Hs Hf. rewrite (@toInt_finite _ v s qty_min qty_max Hs Hf).
  eexists. split; [reflexivity|].
  assert (Hle : su qty_min <= su qty_max) by (apply Z.leb_le; vm_compute; reflexivity).
  destruct (clamp_between (parseInt10 s) qty_min qty_max Hf eq_refl eq_refl Hle)
    as (Hq & Hlo & Hhi).
  repeat split; try assumption.
  rewrite f64_le_fin in * by (assumption || reflexivity).
  apply Z.leb_le in Hlo. apply Z.leb_gt.
  assert (su zero < su qty_min) by (apply Z.ltb_lt; vm_compute; reflexivity).
  lia.
Qed.

(** A row object whose text fields sanitize to non-empty strings and
    whose money fields convert: only its quantity can reject it. *)
Definition text_and_money_ok {stack : Stack} (r : value) : Prop :=
  exists vt vi vs vv vtot ms mv mt,
    get r "timestamp" = Normal vt /\ safeText vt 64 <> []
    /\ get r "item" = Normal vi /\ safeText vi 96 <> []
    /\ get r "subtotal" = Normal vs /\ toMoney vs = Normal ms
    /\ get r "vat" = Normal vv /\ toMoney vv = Normal mv
    /\ get r "total" = Normal vtot /\ toMoney vtot = Normal mt.

Lemma truthy_nonempty (s : jsstring) : s <> [] -> truthy (JStr s) = true.
Proof. destruct s; [congruence|reflexivity]. Qed.

Lemma normalize_row_qty {stack : Stack} r vq s :
  text_and_money_ok r ->
  get r "qty" = Normal vq -> ToString vq = Normal s ->
  (isFinite (parseInt10 s) = true ->
     exists row, normalize_row r = Normal (inr row))
  /\ (isFinite (parseInt10 s) = false ->
     exists hint, normalize_row r =
       Normal (inl (json [(str "ok", JBool false);
                          (str "error", JStr (str "invalid_row"));
                          (str "hint", hint)] 422))).
Proof.
  intros (vt & vi & vs & vv & vtot & ms & mv & mt &
          Ht & Ht' & Hi & Hi' & Hs1 & Hs2 & Hv1 & Hv2 & Ht1 & Ht2) Hq Hs.
  split; intros Hf.
  - destruct (@qty_in_range _ vq s Hs Hf) as (q & Hq1 & _ & _ & _ & Hq0).
    unfold normalize_row. rewrite Ht, Hi, Hq. cbn [bind].
    rewrite Hq1, Hs1. cbn [bind].
    rewrite Hs2, Hv1. cbn [bind]. rewrite Hv2, Ht1. cbn [bind].
    rewrite Ht2. cbn [bind].
    rewrite (truthy_nonempty _ Ht'), (truthy_nonempty _ Hi'), Hq0. cbn [negb orb].
    eexists. reflexivity.
  - unfold normalize_row. rewrite Ht, Hi, Hq. cbn [bind].
    rewrite (@toInt_not_finite _ vq s qty_min qty_max Hs Hf), Hs1. cbn [bind].
    rewrite Hs2, Hv1. cbn [bind]. rewrite Hv2, Ht1. cbn [bind].
    rewrite Ht2. cbn [bind].
    rewrite (truthy_nonempty _ Ht'), (truthy_nonempty _ Hi'). cbn [negb orb].
    replace (f64_le zero zero) with true by reflexivity.
    eexists. reflexivity.
Qed.

(* ===================================================================== *)
(** * The sanitizing loop: order, and the first failing row *)
(* ===================================================================== *)

(** [r] sanitizes to the row [r']. *)
Definition sanitizes_to {stack : Stack} (r r' : value) : Prop :=
  normalize_row r = Normal (inr r').

Lemma normalize_accepts {stack : Stack} rows : forall norm out,
  normalize rows norm = Normal (inr out) <->
  exists rows', Forall2 sanitizes_to rows rows' /\ out = norm ++ rows'.
Proof.
  induction rows as [|r rest IH]; intros norm out; simpl.
  - split.
    + intros H. inversion H. exists []. split; [constructor|].
      now rewrite List.app_nil_r.
    + intros (rows' & HF & ->). inversion HF. now rewrite List.app_nil_r.
  - split.
    + destruct (normalize_row r) as [[rej|row]|err] eqn:Hr; simpl;
        try discriminate.
      intros H. apply IH in H. destruct H as (rows' & HF & ->).
      exists (row :: rows'). split; [now constructor|].
      now rewrite <- List.app_assoc.
    + intros (rows' & HF & ->). inversion HF as [|? r' ? rest' Hr HF']; subst.
      unfold sanitizes_to in Hr. rewrite Hr. simpl.
      apply IH. exists rest'. split; [assumption|].
      now rewrite <- List.app_assoc.
Qed.

(** Scenario A. *)
Definition row_A : value :=
  JObj [(str "timestamp", JStr (str "t1")); (str "item", JStr (str "Coffee"));
        (str "qty", JStr (str "2")); (str "subtotal", JStr (str "3"));
        (str "vat", JStr (str "0.45")); (str "total", JStr (str "3.45"))].

Definition sanitized_A : value :=
  JObj [(str "timestamp", JStr (str "t1"));
        (str "item_name", JStr (str "Coffee"));
        (str "qty", JNum (f64_of_Z 2));
        (str "subtotal_usd", JStr (str "3.00"));
        (str "vat_usd", JStr (str "0.45"));
        (str "total_usd", JStr (str "3.45"));
        (str "currency", JStr (str "USD"));
        (str "iva_rate", JNum (parseFloat (str "0.15")))].

(** C9: the single row of scenario A sanitizes to exactly one row with
    timestamp [t1], item name [Coffee], quantity 2, the money strings
    [3.00], [0.45] and [3.45], currency [USD] and rate 0.15; and the loop
    keeps the order of its input: its result is the list of the sanitized
    rows, position by position. *)
Theorem scenario_A_sanitized {stack : Stack} :
  normalize [row_A] [] = Normal (inr [sanitized_A])
  /\ (forall rows out,
        normalize rows [] = Normal (inr out) <-> Forall2 sanitizes_to rows out).
Proof.
  split.
  - vm_compute. reflexivity.
  - intros rows out. rewrite normalize_accepts. simpl. split.
    + intros (rows' & HF & ->). exact HF.
    + intros HF. exists out. auto.
Qed.

Lemma scenario_A_sanitized_witness :
  Forall2 sanitizes_to [row_A] [sanitized_A].
Proof.
  apply (proj2 scenario_A_sanitized). apply (proj1 scenario_A_sanitized).
Defined.

(** A rejection by the loop body is always the [invalid_row] response,
    and its hint carries the sanitized item name and quantity. *)
Lemma normalize_row_rejection {stack : Stack} r resp :
  normalize_row r = Normal (inl resp) ->
  exists vi vq qty,
    get r "item" = Normal vi /\ get r "qty" = Normal vq
    /\ toInt vq qty_min qty_max = Normal qty
    /\ resp = json [(str "ok", JBool false);
                    (str "error", JStr (str "invalid_row"));
                    (str "hint", JObj [(str "item_name", JStr (safeText vi 96));
                                       (str "qty", JNum qty)])] 422.
Proof.
  unfold normalize_row.
  destruct (get r "timestamp") as [vt|]; [|discriminate].
  destruct (get r "item") as [vi|] eqn:Hi; [|discriminate].
  destruct (get r "qty") as [vq|] eqn:Hq; [|discriminate]. cbn [bind].
  destruct (toInt vq qty_min qty_max) as [qty|] eqn:Hn; [|discriminate].
  destruct (get r "subtotal") as [vs|]; [|discriminate]. cbn [bind].
  destruct (toMoney vs) as [ms|]; [|discriminate].
  destruct (get r "vat") as [vv|]; [|discriminate]. cbn [bind].
  destruct (toMoney vv) as [mv|]; [|discriminate].
  destruct (get r "total") as [vtot|]; [|discriminate]. cbn [bind].
  destruct (toMoney vtot) as [mt|]; [|discriminate]. cbn [bind].
  destruct (_ || _); intros H; inversion H; subst.
  exists vi, vq, qty. auto.
Qed.

(** When every row before [r] sanitizes and [r] is rejected, the loop
    ends with that rejection, whatever follows [r]. *)
Lemma normalize_first_rejection {stack : Stack} pre : forall r post resp norm,
  Forall (fun x => exists x', sanitizes_to x x') pre ->
  normalize_row r = Normal (inl resp) ->
  normalize (pre ++ r :: post) norm = Normal (inl resp).
Proof.
  induction pre as [|x pre IH]; intros r post resp norm Hpre Hr; simpl.
  - now rewrite Hr.
  - inversion Hpre as [|? ? [x' Hx] Hpre']; subst.
    unfold sanitizes_to in Hx. rewrite Hx. simpl. now apply IH.
Qed.

(** When a row before [r] throws, the loop throws: the rejection of [r]
    is never reached. *)
Lemma normalize_throw_first {stack : Stack} pre : forall r post err norm,
  Forall (fun x => exists x', sanitizes_to x x') pre ->
  normalize_row r = Throw err ->
  normalize (pre ++ r :: post) norm = Throw err.
Proof.
  induction pre as [|x pre IH]; intros r post err norm Hpre Hr; simpl.
  - now rewrite Hr.
  - inversion Hpre as [|? ? [x' Hx] Hpre']; subst.
    unfold sanitizes_to in Hx. rewrite Hx. simpl. now apply IH.
Qed.

(** The same at the level of the handler, for a submission that is a
    bare array: the response is the rejection and nothing is sent. *)
Lemma handleSave_invalid_row {stack : Stack} decode parse stringify sha hmac rq e w
      buf pre r post resp :
  fst (readLimited rq (64 * 1024)) = Normal (Some buf) ->
  parse (decode buf) = Some (JArr (pre ++ r :: post)) ->
  Forall (fun x => exists x', sanitizes_to x x') pre ->
  normalize_row r = Normal (inl resp) ->
  handleSave decode parse stringify sha hmac rq e w = (Normal resp, []).
Proof.
  intros Hb Hp Hpre Hr. unfold handleSave. rewrite Hb, Hp. cbn [isArray].
  pose proof (normalize_first_rejection pre r post resp [] Hpre Hr) as Hn.
  destruct pre; cbn [app] in *; now rewrite Hn.
Qed.

(** A runtime whose [JSON.parse] yields a given value; the other
    built-ins return empty results.  Used to run [handleSave] on concrete
    submissions. *)
Definition run_parsed {stack : Stack} (parsed : value) (rq : request) (e : env) (w : world)
  : completion response * list outbound :=
  handleSave (fun _ => []) (fun _ => Some parsed) (fun _ => [])
    (fun _ => []) (fun _ _ => []) rq e w.

Definition empty_request : request :=
  {| req_method := str "POST"; req_pathname := str "/api/save";
     req_header := fun _ => None; req_body := NoStream (Some []) |}.

Definition some_env : env :=
  {| SIGNING_KEY := str "k"; APP_SCRIPT_URL := str "https://downstream.example/exec";
     ASSET_ID := str "a"; KID := str "1" |}.

(** A downstream that answers every call with the given status and text. *)
Definition answering (status : Z) (text : jsstring) : world :=
  {| now_iso := str "2024-01-01T00:00:00.000Z";
     network := fun _ => FetchResponse status (Some text) |}.

(** C3, at the submission [[null, {}]]: the second row sanitizes to an
    empty timestamp and item name and alone would be rejected with
    [invalid_row]; but reading [r.timestamp] on the [null] before it
    throws a TypeError, so the request ends with an exception and not with
    the [invalid_row] response.  Nothing is sent downstream. *)
Theorem null_row_preempts_invalid_row {stack : Stack} :
  normalize [JObj []] []
    = Normal (inl (json [(str "ok", JBool false);
                         (str "error", JStr (str "invalid_row"));
                         (str "hint", JObj [(str "item_name", JStr []);
                                            (str "qty", JNum zero)])] 422))
  /\ normalize [JNull; JObj []] [] = Throw TypeError
  /\ run_parsed (JArr [JNull; JObj []]) empty_request some_env
       (answering 200 (str "success")) = (Throw TypeError, []).
Proof.
  split; [|split]; vm_compute; reflexivity.
Qed.

(* ===================================================================== *)
(** * The bounded reader *)
(* ===================================================================== *)

Local Open Scope nat_scope.

(** The number of bytes a sequence of chunks carries. *)
Definition total (cs : list bytes) : nat := length (List.concat cs).

(** The length in bytes of a request body. *)
Definition body_length (b : body) : nat :=
  match b with
  | Stream cs | BrokenStream cs => total cs
  | NoStream text =>
      length (TextEncoder_encode (text_or_empty text))
  end.

Lemma total_cons c cs : total (c :: cs) = length c + total cs.
Proof. unfold total. simpl. now rewrite length_app. Qed.

Lemma total_app a b : total (a ++ b) = total a + total b.
Proof.
  unfold total. now rewrite List.concat_app, length_app.
Qed.

Lemma concat_flat chunks : concat chunks = List.concat chunks.
Proof.
  unfold concat.
  enough (H : forall acc, fold_left (fun out c : bytes => out ++ c) chunks acc
                          = acc ++ List.concat chunks) by apply (H []).
  induction chunks as [|c cs IH]; intros acc; simpl.
  - now rewrite List.app_nil_r.
  - now rewrite IH, List.app_assoc.
Qed.

(** A stream that fits is read to its end and every chunk is kept. *)
Lemma read_loop_within maxBytes cs : forall received chunks,
  received + total cs <= maxBytes ->
  read_loop maxBytes cs received chunks = (Some (chunks ++ cs), []).
Proof.
  induction cs as [|c cs IH]; intros received chunks H; simpl.
  - now rewrite List.app_nil_r.
  - rewrite total_cons in H.
    destruct (Nat.ltb_spec maxBytes (received + length c)); [lia|].
    rewrite IH by lia. now rewrite <- List.app_assoc.
Qed.

(** A stream that does not fit is abandoned at the first chunk that
    takes the count over the limit: the chunks after it are never read. *)
Lemma read_loop_exceeds maxBytes cs : forall received chunks,
  received <= maxBytes ->
  maxBytes < received + total cs ->
  exists pre c post,
    cs = pre ++ c :: post
    /\ received + total pre <= maxBytes
    /\ maxBytes < received + total pre + length c
    /\ read_loop maxBytes cs received chunks = (None, post).
Proof.
  induction cs as [|c cs IH]; intros received chunks Hr H.
  - unfold total in H. simpl in H. lia.
  - rewrite total_cons in H. simpl.
    destruct (Nat.ltb_spec maxBytes (received + length c)) as [Hgt|Hle].
    + exists [], c, cs. unfold total. simpl. repeat split; lia.
    + destruct (IH (received + length c) (chunks ++ [c])) as
        (pre & c' & post & -> & H1 & H2 & H3); [lia|lia|].
      exists (c :: pre), c', post. rewrite total_cons.
      repeat split; [lia|lia|exact H3].
Qed.

Lemma readLimited_oversize rq maxBytes :
  maxBytes < body_length (req_body rq) ->
  fst (readLimited rq maxBytes) = Normal None.
Proof.
  unfold readLimited, body_length.
  destruct (req_body rq) as [cs|cs|text]; intros H.
  - destruct (read_loop_exceeds maxBytes cs 0 [] (Nat.le_0_l _) H)
      as (pre & c & post & _ & _ & _ & ->).
    reflexivity.
  - destruct (read_loop_exceeds maxBytes cs 0 [] (Nat.le_0_l _) H)
      as (pre & c & post & _ & _ & _ & ->).
    reflexivity.
  - apply Nat.ltb_lt in H. cbn [fst]. now rewrite H.
Qed.

Lemma readLimited_fits rq maxBytes :
  body_length (req_body rq) <= maxBytes ->
  (exists cs, req_body rq = BrokenStream cs
              /\ fst (readLimited rq maxBytes) = Throw StreamError)
  \/ exists buf, fst (readLimited rq maxBytes) = Normal (Some buf)
                 /\ length buf = body_length (req_body rq).
Proof.
  unfold readLimited, body_length.
  destruct (req_body rq) as [cs|cs|text]; intros H.
  - right. rewrite read_loop_within by (simpl; lia). simpl.
    exists (concat cs). now rewrite concat_flat.
  - left. exists cs. rewrite read_loop_within by (simpl; lia). auto.
  - right. destruct (Nat.ltb_spec maxBytes
      (length (TextEncoder_encode (text_or_empty text)))); [lia|].
    eexists. split; reflexivity.
Qed.

(** C2: a request whose body is longer than 65536 bytes is answered with
    [payload_too_large] and no outbound call, whatever the parser, the
    serializer, the digest and the network would do; a streamed body is
    abandoned at the first chunk that takes the byte count over the limit,
    the rest of the stream staying unread; a body without a stream is
    encoded whole and then compared with the same limit. *)
Theorem oversize_rejected_before_any_stage {stack : Stack} :
  (forall decode parse stringify sha hmac rq e w,
      64 * 1024 < body_length (req_body rq) ->
      handleSave decode parse stringify sha hmac rq e w
      = (Normal (json [(str "ok", JBool false);
                       (str "error", JStr (str "payload_too_large"))] 413), []))
  /\ (forall rq cs maxBytes,
        req_body rq = Stream cs -> maxBytes < total cs ->
        exists pre c post,
          cs = pre ++ c :: post
          /\ total pre <= maxBytes < total pre + length c
          /\ readLimited rq maxBytes = (Normal None, post))
  /\ (forall rq text maxBytes,
        req_body rq = NoStream text ->
        let buf := TextEncoder_encode (text_or_empty text) in
        readLimited rq maxBytes
        = (Normal (if maxBytes <? length buf then None else Some buf), [])).
Proof.
  split; [|split].
  - intros decode parse stringify sha hmac rq e w H.
    unfold handleSave. now rewrite (readLimited_oversize rq _ H).
  - intros rq cs maxBytes Hb H. unfold readLimited. rewrite Hb.
    destruct (read_loop_exceeds maxBytes cs 0 [] (Nat.le_0_l _) H)
      as (pre & c & post & -> & H1 & H2 & ->).
    exists pre, c, post. repeat split; try lia.
  - intros rq text maxBytes Hb buf. unfold readLimited. now rewrite Hb.
Qed.

Definition oversize_request : request :=
  {| req_method := str "POST"; req_pathname := str "/api/save";
     req_header := fun _ => None;
     req_body := Stream [repeat x00 (200 * 200); repeat x00 (200 * 200);
                         [x01]; [x02; x03]] |}.

Lemma oversize_rejected_witness :
  run_parsed (JArr [JObj []]) oversize_request some_env
    (Build_world [] (fun _ => FetchRejected))
  = (Normal (json [(str "ok", JBool false);
                   (str "error", JStr (str "payload_too_large"))] 413), [])
  /\ (exists pre c post,
        [repeat x00 (200 * 200); repeat x00 (200 * 200); [x01]; [x02; x03]]
          = pre ++ c :: post
        /\ total pre <= 64 * 1024 < total pre + length c
        /\ readLimited oversize_request (64 * 1024) = (Normal None, post)).
Proof.
  split.
  - apply (proj1 oversize_rejected_before_any_stage).
    apply Nat.ltb_lt. vm_compute. reflexivity.
  - apply (proj1 (proj2 oversize_rejected_before_any_stage) oversize_request).
    + reflexivity.
    + apply Nat.ltb_lt. vm_compute. reflexivity.
Defined.

(* ===================================================================== *)
(** * The relay *)
(* ===================================================================== *)

Local Open Scope Z_scope.

(** [s] contains [lit] up to the case of ASCII letters. *)
Definition contains_ci (lit s : jsstring) : Prop :=
  exists pre mid post,
    s = pre ++ mid ++ post /\ map ascii_upper mid = map ascii_upper lit.

Lemma prefix_ci_spec lit : forall s,
  prefix_ci lit s = true <->
  exists mid post, s = mid ++ post /\ map ascii_upper mid = map ascii_upper lit.
Proof.
  induction lit as [|p lit IH]; intros s; simpl.
  - split; [|reflexivity]. intros _. exists [], s. auto.
  - destruct s as [|c s].
    + split; [discriminate|].
      intros (mid & post & H & Hm). destruct mid; discriminate.
    + rewrite andb_true_iff, N.eqb_eq, IH. split.
      * intros (Hc & mid & post & -> & Hm).
        exists (c :: mid), post. simpl. split; [reflexivity|]. congruence.
      * intros (mid & post & H & Hm). destruct mid as [|c' mid]; [discriminate|].
        simpl in H, Hm. inversion H; subst. inversion Hm.
        split; [congruence|]. exists mid, post. auto.
Qed.

Lemma test_ci_spec lit s : test_ci lit s = true <-> contains_ci lit s.
Proof.
  unfold contains_ci. induction s as [|c s IH]; simpl.
  - rewrite orb_false_r, prefix_ci_spec. split.
    + intros (mid & post & H & Hm). exists [], mid, post. auto.
    + intros (pre & mid & post & H & Hm).
      destruct pre; [|discriminate]. exists mid, post. auto.
  - rewrite orb_true_iff, IH, prefix_ci_spec. split.
    + intros [(mid & post & H & Hm)|(pre & mid & post & H & Hm)].
      * exists [], mid, post. auto.
      * exists (c :: pre), mid, post. simpl. split; congruence.
    + intros (pre & mid & post & H & Hm). destruct pre as [|c' pre].
      * left. exists mid, post. auto.
      * right. simpl in H. inversion H; subst. exists pre, mid, post. auto.
Qed.

Lemma res_ok_spec status : res_ok status = true <-> (200 <= status <= 299)%Z.
Proof. unfold res_ok. rewrite andb_true_iff, !Z.leb_le. tauto. Qed.

(** The rows of a parsed submission: the array itself, or the array
    that the [rows] property of a wrapper object holds. *)
Definition data_rows (parsed : value) : option (list value) :=
  match parsed with
  | JArr items => Some items
  | JObj fields =>
      match lookup (str "rows") fields with
      | Some (JArr items) => Some items
      | _ => None
      end
  | _ => None
  end.

(** The wrapper the optional fields are read from. *)
Definition wrapper_of (parsed : value) : value :=
  if isArray parsed then JNull else parsed.

(** A failure response with an error code. *)
Definition failure (code : string) (status : Z) : response :=
  json [(str "ok", JBool false); (str "error", JStr (str code))] status.

Lemma handleSave_steps {stack : Stack} decode parse stringify sha hmac rq e w :
  handleSave decode parse stringify sha hmac rq e w =
  match fst (readLimited rq (64 * 1024)) with
  | Throw err => (Throw err, [])
  | Normal None => (Normal (failure "payload_too_large" 413), [])
  | Normal (Some buf) =>
      match parse (decode buf) with
      | None => (Normal (failure "invalid_json" 400), [])
      | Some parsed =>
          match data_rows parsed with
          | Some (r :: rest) =>
              match normalize (r :: rest) [] with
              | Throw err => (Throw err, [])
              | Normal (inl rejection) => (Normal rejection, [])
              | Normal (inr norm) =>
                  relay stringify sha hmac e w
                    (assemble rq (wrapper_of parsed) norm)
              end
          | _ => (Normal (failure "empty_rows" 400), [])
          end
      end
  end.
Proof.
  unfold handleSave, failure.
  destruct (fst (readLimited rq (64 * 1024))) as [[buf|]|err];
    try reflexivity.
  destruct (parse (decode buf)) as [parsed|]; [|reflexivity].
  destruct parsed as [| |b|x|s|items|fields]; try reflexivity.
  - destruct items; reflexivity.
  - cbn [isArray get_opt_chain data_rows wrapper_of].
    destruct (lookup (str "rows") fields) as [[| |b|x|s|items|f]|];
      try reflexivity.
    destruct items; reflexivity.
Qed.

(** [handleSave] either makes no outbound call at all, or reaches step 5
    and is the relay of one payload. *)
Lemma handleSave_cases {stack : Stack} decode parse stringify sha hmac rq e w :
  snd (handleSave decode parse stringify sha hmac rq e w) = []
  \/ exists payload,
       handleSave decode parse stringify sha hmac rq e w
       = relay stringify sha hmac e w payload.
Proof.
  rewrite handleSave_steps.
  destruct (fst (readLimited rq (64 * 1024))) as [[buf|]|err];
    try (now left).
  destruct (parse (decode buf)) as [parsed|]; [|now left].
  destruct (data_rows parsed) as [[|r rest]|]; try (now left).
  destruct (normalize (r :: rest) []) as [[rej|norm]|err]; try (now left).
  right. eexists. reflexivity.
Qed.

(** A text that is not empty has an encoding that is not empty. *)
Lemma encode_nonempty (s : jsstring) : s <> [] -> TextEncoder_encode s <> [].
Proof.
  destruct s as [|c t]; [congruence|]. intros _. cbn [TextEncoder_encode].
  destruct (c <? 128)%N; [discriminate|].
  destruct (c <? 2048)%N; [discriminate|].
  destruct (is_high_surrogate c).
  - destruct t as [|l t']; [discriminate|].
    destruct (is_low_surrogate l); discriminate.
  - destruct (is_low_surrogate c); discriminate.
Qed.

(** With a signing key that is not empty the call is signed; with the
    empty key the signing throws. *)
Lemma hmacSha256Base64_key hmac key message :
  hmacSha256Base64 hmac key message
  = if match key with [] => true | _ => false end then Throw DataError
    else Normal (b64 (hmac (TextEncoder_encode key) (TextEncoder_encode message))).
Proof.
  unfold hmacSha256Base64. destruct key as [|c t]; [reflexivity|].
  pose proof (encode_nonempty (c :: t) ltac:(discriminate)) as H.
  destruct (TextEncoder_encode (c :: t)); [contradiction|reflexivity].
Qed.

Lemma signed_call_key stringify sha hmac e w payload :
  SIGNING_KEY e <> [] ->
  exists call, signed_call stringify sha hmac e w payload = Normal call.
Proof.
  intros Hk. unfold signed_call. rewrite hmacSha256Base64_key.
  destruct (SIGNING_KEY e); [contradiction|]. eexists. reflexivity.
Qed.

Lemma signed_call_no_key stringify sha hmac e w payload :
  SIGNING_KEY e = [] ->
  signed_call stringify sha hmac e w payload = Throw DataError.
Proof.
  intros Hk. unfold signed_call. rewrite hmacSha256Base64_key, Hk. reflexivity.
Qed.

Lemma signed_call_throws stringify sha hmac e w payload err :
  signed_call stringify sha hmac e w payload = Throw err ->
  err = DataError /\ SIGNING_KEY e = [].
Proof.
  unfold signed_call. rewrite hmacSha256Base64_key.
  destruct (SIGNING_KEY e); [|discriminate].
  cbn [bind]. intros H. injection H as <-. auto.
Qed.

(** The relay makes the signed call and no other, and none when the
    signing throws. *)
Lemma relay_calls stringify sha hmac e w payload :
  snd (relay stringify sha hmac e w payload)
  = match signed_call stringify sha hmac e w payload with
    | Normal call => [call]
    | Throw _ => []
    end.
Proof.
  unfold relay. destruct (signed_call _ _ _ _ _ _) as [call|err]; [|reflexivity].
  destruct (network w _) as [|status res_text]; [reflexivity|].
  now destruct (_ && _).
Qed.

(** The two responses of step 5. *)
Definition forwarded_response : response :=
  json [(str "ok", JBool true); (str "forwarded", JBool true)] 200.

Definition forwarding_failure (status : Z) (text : jsstring) : response :=
  json [(str "ok", JBool false); (str "forwarded", JBool false);
        (str "status", JNum (f64_of_Z status));
        (str "body", JStr (firstn 3000 text))] 502.

Lemma relay_response stringify sha hmac e w payload call status res_text :
  signed_call stringify sha hmac e w payload = Normal call ->
  network w call = FetchResponse status res_text ->
  let text := text_or_empty res_text in
  relay stringify sha hmac e w payload
  = (if res_ok status && test_ci (str "success") text
     then Normal forwarded_response
     else Normal (forwarding_failure status text),
     [call]).
Proof.
  intros Hs H text. unfold relay. rewrite Hs, H. cbv zeta. subst text.
  now destruct (_ && _).
Qed.

(** The own properties of the object a response serializes. *)
Definition response_fields (r : response) : list (jsstring * value) :=
  match resp_json r with JObj fields => fields | _ => [] end.

(** The text holds the seven letters of [success] one after the other,
    each in its small or its capital form. *)
Definition success_marker (s : jsstring) : Prop :=
  exists pre c1 c2 c3 c4 c5 c6 c7 post,
    s = pre ++ [c1; c2; c3; c4; c5; c6; c7] ++ post
    /\ (c1 = 115 \/ c1 = 83)%N /\ (c2 = 117 \/ c2 = 85)%N
    /\ (c3 = 99 \/ c3 = 67)%N /\ (c4 = 99 \/ c4 = 67)%N
    /\ (c5 = 101 \/ c5 = 69)%N /\ (c6 = 115 \/ c6 = 83)%N
    /\ (c7 = 115 \/ c7 = 83)%N.

Lemma ascii_upper_capital (c u : codeunit) :
  (65 <= u <= 90)%N -> ascii_upper c = u <-> (c = u + 32 \/ c = u)%N.
Proof.
  intros Hu. unfold ascii_upper.
  destruct (N.leb_spec 97 c); destruct (N.leb_spec c 122); cbn [andb];
    split; intros Hc; lia.
Qed.

Lemma contains_success s : contains_ci (str "success") s <-> success_marker s.
Proof.
  unfold contains_ci, success_marker. split.
  - intros (pre & mid & post & -> & Hm).
    destruct mid as [|c1 [|c2 [|c3 [|c4 [|c5 [|c6 [|c7 [|c8 mid]]]]]]]];
      try discriminate Hm.
    cbn [map] in Hm. injection Hm as H1 H2 H3 H4 H5 H6 H7.
    change (ascii_upper 115%N) with 83%N in *.
    change (ascii_upper 117%N) with 85%N in *.
    change (ascii_upper 99%N) with 67%N in *.
    change (ascii_upper 101%N) with 69%N in *.
    apply ascii_upper_capital in H1, H2, H3, H4, H5, H6, H7; try lia.
    exists pre, c1, c2, c3, c4, c5, c6, c7, post.
    split; [reflexivity|]. repeat split; assumption.
  - intros (pre & c1 & c2 & c3 & c4 & c5 & c6 & c7 & post & -> &
            H1 & H2 & H3 & H4 & H5 & H6 & H7).
    exists pre, [c1; c2; c3; c4; c5; c6; c7], post. split; [reflexivity|].
    assert (Hup : forall c u, (65 <= u <= 90)%N ->
              (c = u + 32 \/ c = u)%N -> ascii_upper c = u)
      by (intros c u Hu Hc; now apply ascii_upper_capital).
    change (map ascii_upper (str "success"))
      with [83; 85; 67; 67; 69; 83; 83]%N.
    cbn [map].
    rewrite (Hup c1 83%N), (Hup c2 85%N), (Hup c3 67%N), (Hup c4 67%N),
      (Hup c5 69%N), (Hup c6 83%N), (Hup c7 83%N) by lia.
    reflexivity.
Qed.

(** C7: a submission that passes the earlier steps reaches the relay,
    and [handleSave] never makes a second call.  With a signing key that
    is not empty the relay issues its one call, a POST; when the
    downstream answers it, the relay reports success exactly when the
    status is from 200 to 299 and the response text holds the letters of
    [success] in a row, each small or capital; every other response is a
    forwarding failure, answered with status 502 and carrying the
    downstream status and the first 3000 code units of the text; and a
    text that cannot be read counts as empty, which fails the rule. *)
Theorem relay_success_rule {stack : Stack} :
  forall decode parse stringify sha hmac rq e w,
    (forall buf parsed r rest norm,
        fst (readLimited rq (64 * 1024)) = Normal (Some buf) ->
        parse (decode buf) = Some parsed ->
        data_rows parsed = Some (r :: rest) ->
        normalize (r :: rest) [] = Normal (inr norm) ->
        handleSave decode parse stringify sha hmac rq e w
        = relay stringify sha hmac e w (assemble rq (wrapper_of parsed) norm))
    /\ (length (snd (handleSave decode parse stringify sha hmac rq e w)) <= 1)%nat
    /\ (forall payload,
          SIGNING_KEY e <> [] ->
          exists call,
            signed_call stringify sha hmac e w payload = Normal call
            /\ out_method call = str "POST"
            /\ snd (relay stringify sha hmac e w payload) = [call])
    /\ (forall payload call status res_text,
          let text := text_or_empty res_text in
          let out := relay stringify sha hmac e w payload in
          signed_call stringify sha hmac e w payload = Normal call ->
          network w call = FetchResponse status res_text ->
          snd out = [call]
          /\ (fst out = Normal forwarded_response
              <-> (200 <= status <= 299 /\ success_marker text))
          /\ (fst out <> Normal forwarded_response ->
              fst out = Normal (forwarding_failure status text))
          /\ (res_text = None ->
              fst out = Normal (forwarding_failure status [])))
    /\ (forall status text,
          let r := forwarding_failure status text in
          resp_status r = 502
          /\ lookup (str "forwarded") (response_fields r) = Some (JBool false)
          /\ lookup (str "status") (response_fields r)
             = Some (JNum (f64_of_Z status))
          /\ lookup (str "body") (response_fields r)
             = Some (JStr (firstn 3000 text))).
Proof.
  intros decode parse stringify sha hmac rq e w.
  split; [|split; [|split; [|split]]].
  5:{ intros status text. cbv zeta. repeat split. }
  - intros buf parsed r rest norm Hb Hp Hd Hn.
    now rewrite handleSave_steps, Hb, Hp, Hd, Hn.
  - destruct (handleSave_cases decode parse stringify sha hmac rq e w)
      as [H|(payload & H)]; rewrite H; [cbn [length]; lia|].
    rewrite relay_calls. destruct (signed_call _ _ _ _ _ _); cbn [length]; lia.
  - intros payload Hk.
    destruct (signed_call_key stringify sha hmac e w payload Hk) as (call & Hc).
    exists call. split; [exact Hc|]. split.
    + unfold signed_call in Hc. destruct (hmacSha256Base64 _ _ _); [|discriminate].
      cbn [bind] in Hc. injection Hc as <-. reflexivity.
    + now rewrite relay_calls, Hc.
  - intros payload call status res_text text out Hs H.
    subst out. rewrite (relay_response _ _ _ _ _ _ _ _ _ Hs H).
    cbv zeta. cbn [fst snd]. subst text.
    set (t := text_or_empty res_text) in *.
    split; [reflexivity|].
    rewrite <- contains_success, <- res_ok_spec, <- test_ci_spec, <- andb_true_iff.
    assert (Hne : forall st tx,
               Normal (forwarding_failure st tx) <> Normal forwarded_response).
    { unfold forwarding_failure, forwarded_response, json. intros st tx Heq.
      inversion Heq. }
    destruct (res_ok status && test_ci (str "success") t) eqn:Hc.
    + split; [split; reflexivity|]. split; [congruence|].
      intros ->. subst t. rewrite andb_true_iff in Hc.
      destruct Hc as [_ Hc]. discriminate Hc.
    + split; [split; [intros Heq; now destruct (Hne _ _ Heq)|discriminate]|].
      split; [reflexivity|]. intros ->. reflexivity.
Qed.

(** The downstream answers 201 with [Saved: SUCCESS], and, as in
    scenario D, 500 with [fail: db down]. *)
Lemma relay_success_rule_witness :
  let payload := JObj [] in
  let sign := signed_call (fun _ => []) (fun _ => []) (fun _ _ => []) some_env in
  (exists call,
     sign (answering 201 (str "Saved: SUCCESS")) payload = Normal call
     /\ relay (fun _ => []) (fun _ => []) (fun _ _ => []) some_env
          (answering 201 (str "Saved: SUCCESS")) payload
        = (Normal forwarded_response, [call]))
  /\ (exists call,
        sign (answering 500 (str "fail: db down")) payload = Normal call
        /\ relay (fun _ => []) (fun _ => []) (fun _ _ => []) some_env
             (answering 500 (str "fail: db down")) payload
           = (Normal (forwarding_failure 500 (str "fail: db down")), [call])).
Proof.
  intros payload sign. split.
  - eexists. split; [reflexivity|].
    destruct (proj1 (proj2 (proj2 (proj2
                (relay_success_rule (fun _ => []) (fun _ => None) (fun _ => [])
                   (fun _ => []) (fun _ _ => []) empty_request some_env
                   (answering 201 (str "Saved: SUCCESS"))))))
                payload _ 201 (Some (str "Saved: SUCCESS")) eq_refl eq_refl)
      as (H1 & H2 & _).
    apply injective_projections; [|exact H1]. cbn [fst]. apply H2.
    split; [lia|].
    exists (str "Saved: "), 83%N, 85%N, 67%N, 67%N, 69%N, 83%N, 83%N, [].
    split; [reflexivity|]. repeat split; now right.
  - eexists. split; [reflexivity|].
    destruct (proj1 (proj2 (proj2 (proj2
                (relay_success_rule (fun _ => []) (fun _ => None) (fun _ => [])
                   (fun _ => []) (fun _ _ => []) empty_request some_env
                   (answering 500 (str "fail: db down"))))))
                payload _ 500 (Some (str "fail: db down")) eq_refl eq_refl)
      as (H1 & _ & H2 & _).
    apply injective_projections; [|exact H1]. cbn [fst]. apply H2.
    vm_compute. discriminate.
Defined.

(* ===================================================================== *)
(** * The response to the caller on a forwarding failure *)
(* ===================================================================== *)

(** The error codes of the taxonomy. *)
Definition error_codes : list jsstring :=
  [str "payload_too_large"; str "invalid_json"; str "empty_rows";
   str "invalid_row"].

(** C1 refuted on scenario D: a well-formed submission reaches the relay,
    the downstream answers 500 with [fail: db down], and the object
    returned to the caller has the properties [ok], [forwarded], [status]
    and [body] but no [error] property. *)
Lemma forwarding_failure_has_no_error_code :
  exists r call,
    run_parsed (JArr [row_A]) empty_request some_env
      (answering 500 (str "fail: db down")) = (Normal r, [call])
    /\ lookup (str "ok") (response_fields r) = Some (JBool false)
    /\ lookup (str "status") (response_fields r) = Some (JNum (f64_of_Z 500))
    /\ lookup (str "body") (response_fields r) = Some (JStr (str "fail: db down"))
    /\ lookup (str "error") (response_fields r) = None.
Proof.
  eexists. eexists. split; [vm_compute; reflexivity|].
  repeat split; vm_compute; reflexivity.
Qed.

(** C1 as the code has it: when [handleSave] has made its outbound call
    and the downstream response is not a success, the caller receives,
    with status 502, an object whose [ok] and [forwarded] are [false],
    whose [status] is the downstream status and whose [body] is the first
    3000 code units of the downstream text; the object has no [error]
    property. *)
Theorem forwarding_failure_response {stack : Stack} :
  forall decode parse stringify sha hmac rq e w call status res_text,
    In call (snd (handleSave decode parse stringify sha hmac rq e w)) ->
    network w call = FetchResponse status res_text ->
    res_ok status && test_ci (str "success") (text_or_empty res_text) = false ->
    exists r,
      fst (handleSave decode parse stringify sha hmac rq e w) = Normal r
      /\ resp_status r = 502
      /\ lookup (str "ok") (response_fields r) = Some (JBool false)
      /\ lookup (str "forwarded") (response_fields r) = Some (JBool false)
      /\ lookup (str "status") (response_fields r) = Some (JNum (f64_of_Z status))
      /\ lookup (str "body") (response_fields r)
         = Some (JStr (firstn 3000 (text_or_empty res_text)))
      /\ lookup (str "error") (response_fields r) = None.
Proof.
  intros decode parse stringify sha hmac rq e w call status res_text Hin Hnet Hc.
  destruct (handleSave_cases decode parse stringify sha hmac rq e w)
    as [Hnil|[payload Hrelay]].
  - rewrite Hnil in Hin. destruct Hin.
  - rewrite Hrelay in *. rewrite relay_calls in Hin.
    destruct (signed_call stringify sha hmac e w payload) as [call'|err] eqn:Hs;
      [|destruct Hin].
    destruct Hin as [<-|[]].
    rewrite (relay_response _ _ _ _ _ _ _ _ _ Hs Hnet). cbv zeta. rewrite Hc.
    eexists. split; [reflexivity|].
    repeat split.
Qed.

Lemma forwarding_failure_response_witness :
  exists r,
    fst (run_parsed (JArr [row_A]) empty_request some_env
           (answering 500 (str "fail: db down"))) = Normal r
    /\ resp_status r = 502
    /\ lookup (str "ok") (response_fields r) = Some (JBool false)
    /\ lookup (str "forwarded") (response_fields r) = Some (JBool false)
    /\ lookup (str "status") (response_fields r) = Some (JNum (f64_of_Z 500))
    /\ lookup (str "body") (response_fields r)
       = Some (JStr (firstn 3000 (str "fail: db down")))
    /\ lookup (str "error") (response_fields r) = None.
Proof.
  unfold run_parsed.
  eapply (forwarding_failure_response _ _ _ _ _ _ _ _ _ 500 (Some (str "fail: db down"))).
  - vm_compute. left. reflexivity.
  - reflexivity.
  - vm_compute. reflexivity.
Defined.

(* ===================================================================== *)
(** * [toMoney]: inputs outside the two-decimal format *)
(* ===================================================================== *)

(** C5, at the inputs ["1e21"], [1e21] and [{"toString": 1}]: an amount
    of [10^21] or more is finite and not negative, and [toFixed(2)] then
    returns the exponent notation of the number, which has no two decimal
    digits; and an object with an own [toString] property has no string
    form, so that [String(v)] throws. *)
Theorem toMoney_outside_two_decimals {stack : Stack} :
  toMoney (JStr (str "1e21")) = Normal (str "1e+21")
  /\ toMoney (JNum (parseFloat (str "1e21"))) = Normal (str "1e+21")
  /\ toMoney (JStr (str "123456789012345678901234.5"))
     = Normal (str "1.2345678901234569e+23")
  /\ toMoney (JObj [(str "toString", JNum qty_min)]) = Throw TypeError.
Proof.
  split; [|split; [|split]]; vm_compute; reflexivity.
Qed.

(* ===================================================================== *)
(** * Applying a sanitizer to its own output *)
(* ===================================================================== *)

Local Open Scope nat_scope.

(** C4 refuted.  [safeText] trims before it truncates, so truncation can
    leave a space at the end, which a second application removes: at the
    length 3 on [ab cd], and at the length 64 of the timestamp on 63
    letters, a space and a letter.  [toInt] returns 0 on an unparsable
    input whatever the bounds, and 0 is then clamped to the lower
    bound 1. *)
Lemma sanitizers_not_idempotent :
  safeText (JStr (safeText (JStr (str "ab cd")) 3)) 3
    <> safeText (JStr (str "ab cd")) 3
  /\ safeText (JStr (safeText (JStr (repeat 97%N 63 ++ str " b")) 64)) 64
    <> safeText (JStr (repeat 97%N 63 ++ str " b")) 64
  /\ (exists q, toInt (JStr (str "abc")) qty_min qty_max = Normal q
               /\ toInt (JNum q) qty_min qty_max <> Normal q).
Proof.
  split; [|split].
  - vm_compute. discriminate.
  - vm_compute. intros H. apply (f_equal (@length _)) in H. discriminate H.
  - exists zero. split; [reflexivity|]. vm_compute. discriminate.
Qed.

(** ** [safeText] *)

Lemma skip_run_idem cls s : skip_run cls (skip_run cls s) = skip_run cls s.
Proof.
  induction s as [|c t IH]; simpl; [reflexivity|].
  destruct (cls c) eqn:H; [exact IH|]. simpl. now rewrite H.
Qed.

Lemma skip_run_snoc cls a x :
  cls x = false -> skip_run cls (a ++ [x]) = skip_run cls a ++ [x].
Proof.
  intros Hx. induction a as [|c t IH]; simpl.
  - now rewrite Hx.
  - destruct (cls c); [exact IH|reflexivity].
Qed.

Lemma skip_run_Forall (P : codeunit -> Prop) cls s :
  Forall P s -> Forall P (skip_run cls s).
Proof.
  induction 1 as [|c t Hc Ht IH]; simpl; [constructor|].
  destruct (cls c); [exact IH|now constructor].
Qed.

Lemma trimEnd_idem s : trimEnd (trimEnd s) = trimEnd s.
Proof.
  unfold trimEnd, trimStart. now rewrite rev_involutive, skip_run_idem.
Qed.

Lemma trimEnd_length s : length (trimEnd s) <= length s.
Proof.
  unfold trimEnd, trimStart. rewrite length_rev.
  rewrite <- (length_rev s). apply skip_run_length.
Qed.

(** A string that does not start with white space keeps its head
    through [trimEnd], and [trimStart] leaves it alone. *)
Definition headed (s : jsstring) : Prop :=
  match s with [] => True | c :: _ => is_js_space c = false end.

Lemma trimStart_headed s : headed (trimStart s).
Proof.
  unfold trimStart. induction s as [|c t IH]; simpl; [exact I|].
  destruct (is_js_space c) eqn:H; [exact IH|exact H].
Qed.

Lemma headed_trimStart s : headed s -> trimStart s = s.
Proof.
  destruct s as [|c t]; simpl; [reflexivity|]. unfold trimStart. simpl.
  now intros ->.
Qed.

Lemma trimEnd_headed s : headed s -> headed (trimEnd s).
Proof.
  destruct s as [|c t]; [intros _; exact I|]. simpl. intros Hc.
  unfold trimEnd, trimStart. simpl rev.
  rewrite (skip_run_snoc _ _ _ Hc), rev_app_distr. simpl. exact Hc.
Qed.

Lemma firstn_headed n s : headed s -> headed (firstn n s).
Proof. destruct s, n; simpl; auto. Qed.

Lemma trim_fixed s : headed s -> trim s = trimEnd s.
Proof. intros H. unfold trim. now rewrite (headed_trimStart _ H). Qed.

(** Code units that [safeText] lets through unchanged. *)
Definition clean (c : codeunit) : Prop :=
  is_angle c = false /\ is_ctrl c = false.

Lemma strip_collapse_clean s : forall b, Forall clean (strip_collapse b s).
Proof.
  induction s as [|c t IH]; intros b; simpl; [constructor|].
  destruct (is_angle c) eqn:Ha; [apply IH|].
  destruct (is_ctrl c) eqn:Hc.
  - destruct b; simpl; [apply IH|]. constructor; [|apply IH].
    split; reflexivity.
  - constructor; [split; assumption|apply IH].
Qed.

Lemma strip_collapse_id s : Forall clean s -> strip_collapse false s = s.
Proof.
  induction 1 as [|c t [Ha Hc] Ht IH]; simpl; [reflexivity|].
  now rewrite Ha, Hc, IH.
Qed.

Lemma trim_Forall (P : codeunit -> Prop) s : Forall P s -> Forall P (trim s).
Proof.
  intros H. unfold trim, trimEnd, trimStart.
  apply Forall_rev, skip_run_Forall, Forall_rev, skip_run_Forall, H.
Qed.

Lemma firstn_Forall_keep (P : codeunit -> Prop) n s :
  Forall P s -> Forall P (firstn n s).
Proof.
  intros H. revert n. induction H as [|c t Hc Ht IH]; intros [|n]; simpl;
    constructor; auto.
Qed.

(** The text [safeText] works on: brackets dropped, control runs
    collapsed, both ends trimmed, before truncation. *)
Definition stripped (s : jsstring) : jsstring := trim (strip_collapse false s).

Lemma safeText_string s m : safeText (JStr s) m = firstn m (stripped s).
Proof. exact (safeText_described_eq (JStr s) m). Qed.

Lemma stripped_clean s : Forall clean (stripped s).
Proof. apply trim_Forall, strip_collapse_clean. Qed.

Lemma stripped_headed s : headed (stripped s).
Proof. apply trimEnd_headed, trimStart_headed. Qed.

Lemma stripped_trimEnd s : trimEnd (stripped s) = stripped s.
Proof. unfold stripped, trim. apply trimEnd_idem. Qed.

(** A second application of [safeText] removes the white space that
    truncation left at the end, and nothing else. *)
Lemma safeText_twice v m :
  safeText (JStr (safeText v m)) m = trimEnd (safeText v m).
Proof.
  rewrite safeText_string.
  assert (Hr : Forall clean (safeText v m) /\ headed (safeText v m)
               /\ length (safeText v m) <= m).
  { destruct v as [| |b|x|s|l|f]; try (simpl; repeat split; (constructor || lia)).
    rewrite safeText_string. split; [|split].
    - apply firstn_Forall_keep, stripped_clean.
    - apply firstn_headed, stripped_headed.
    - apply firstn_le_length. }
  destruct Hr as (Hc & Hh & Hl).
  unfold stripped. rewrite (strip_collapse_id _ Hc), (trim_fixed _ Hh).
  apply firstn_all2. pose proof (trimEnd_length (safeText v m)). lia.
Qed.

Lemma safeText_idempotent_untruncated s m :
  length (stripped s) <= m ->
  safeText (JStr (safeText (JStr s) m)) m = safeText (JStr s) m.
Proof.
  intros H. rewrite safeText_twice, safeText_string.
  rewrite (firstn_all2 _ H). apply stripped_trimEnd.
Qed.

Lemma safeText_thrice v m :
  safeText (JStr (safeText (JStr (safeText v m)) m)) m
  = safeText (JStr (safeText v m)) m.
Proof. now rewrite !safeText_twice, trimEnd_idem. Qed.

(* ===================================================================== *)
(** * Rounding to the nearest Number *)
(* ===================================================================== *)

Local Open Scope Z_scope.

Lemma rne_error P Q : 0 < Q -> Z.abs (2 * (rne P Q * Q - P)) <= Q.
Proof.
  intros HQ. unfold rne.
  pose proof (Z.div_mod P Q ltac:(lia)) as Hdm.
  pose proof (Z.mod_pos_bound P Q HQ) as Hr.
  set (d := P / Q) in *. set (r := P mod Q) in *.
  destruct (Z.compare_spec (2 * r) Q); [destruct (Z.even d)| |]; lia.
Qed.

Lemma rne_unique P Q m : 0 < Q -> Z.abs (2 * (m * Q - P)) < Q -> rne P Q = m.
Proof.
  intros HQ H. unfold rne.
  pose proof (Z.div_mod P Q ltac:(lia)) as Hdm.
  pose proof (Z.mod_pos_bound P Q HQ) as Hr.
  set (d := P / Q) in *. set (r := P mod Q) in *.
  assert (Hm : m = d \/ m = d + 1) by nia.
  destruct Hm as [-> | ->];
    destruct (Z.compare_spec (2 * r) Q); try destruct (Z.even d); lia.
Qed.

Lemma rne_nonneg P Q : 0 < Q -> 0 <= P -> 0 <= rne P Q.
Proof.
  intros HQ HP. unfold rne.
  pose proof (Z.div_pos P Q HP HQ).
  destruct (_ ?= _); [destruct (Z.even _)| |]; lia.
Qed.

Lemma binade_spec P Q :
  0 < P -> 0 < Q ->
  0 <= binade P Q
  /\ P < 2 ^ 53 * Q * 2 ^ binade P Q
  /\ (binade P Q = 0 \/ 2 ^ 53 * Q * 2 ^ (binade P Q - 1) <= P).
Proof.
  intros HP HQ. unfold binade.
  destruct (Z.log2_spec P HP) as [HP1 HP2].
  destruct (Z.log2_spec Q HQ) as [HQ1 HQ2].
  pose proof (Z.log2_nonneg P) as HlP. pose proof (Z.log2_nonneg Q) as HlQ.
  set (lp := Z.log2 P) in *. set (lq := Z.log2 Q) in *.
  destruct (Z.max_spec 0 (lp - lq - 53)) as [[Hd ->]|[Hd ->]].
  - (* d > 0 *)
    set (d := lp - lq - 53) in *.
    assert (E1 : 2 ^ (Z.succ lp) = 2 ^ 54 * 2 ^ lq * 2 ^ d).
    { rewrite <- !Z.pow_add_r by lia. f_equal. lia. }
    assert (E2 : 2 ^ lp = 2 ^ 53 * 2 ^ lq * 2 ^ d).
    { rewrite <- !Z.pow_add_r by lia. f_equal. lia. }
    assert (Hpd : 0 < 2 ^ d) by (apply Z.pow_pos_nonneg; lia).
    assert (Hpq : 0 < 2 ^ lq) by (apply Z.pow_pos_nonneg; lia).
    destruct (Z.leb_spec (2 ^ 53 * Q * 2 ^ d) P) as [Ht|Ht].
    + split; [lia|]. split.
      * replace (2 ^ (d + 1)) with (2 * 2 ^ d)
          by (rewrite Z.pow_add_r by lia; lia).
        rewrite E1 in HP2. nia.
      * right. replace (d + 1 - 1) with d by lia. exact Ht.
    + split; [lia|]. split; [exact Ht|]. right.
      assert (E3 : 2 ^ d = 2 * 2 ^ (d - 1)).
      { replace d with (1 + (d - 1)) at 1 by lia.
        rewrite Z.pow_add_r by lia. reflexivity. }
      assert (E4 : Z.succ lq = lq + 1) by lia. rewrite E4 in HQ2.
      rewrite Z.pow_add_r in HQ2 by lia. 
      assert (0 < 2 ^ (d - 1)) by (apply Z.pow_pos_nonneg; lia).
      nia.
  - (* d <= 0 *)
    assert (Hle : 2 ^ (Z.succ lp) <= 2 ^ 54 * 2 ^ lq).
    { rewrite <- Z.pow_add_r by lia. apply Z.pow_le_mono_r; lia. }
    assert (Hpq : 0 < 2 ^ lq) by (apply Z.pow_pos_nonneg; lia).
    change (2 ^ 0) with 1.
    destruct (Z.leb_spec (2 ^ 53 * Q * 1) P) as [Ht|Ht].
    + split; [lia|]. split; [|right; change (2 ^ (0 + 1 - 1)) with 1; lia].
      change (2 ^ (0 + 1)) with 2. lia.
    + split; [lia|]. split; [lia|]. left. reflexivity.
Qed.

Lemma U_pos : 0 < U.
Proof. unfold U. apply Z.pow_pos_nonneg; lia. Qed.

(** The mantissa before the carry. *)
Lemma rne_binade_bounds P Q :
  0 < P -> 0 < Q ->
  let k := binade P Q in
  let m0 := rne P (Q * 2 ^ k) in
  0 <= m0 <= 2 ^ 53 /\ (0 < k -> 2 ^ 52 <= m0).
Proof.
  intros HP HQ k m0.
  destruct (binade_spec P Q HP HQ) as (Hk & Hup & Hlo). fold k in Hk, Hup, Hlo.
  assert (Hpk : 0 < 2 ^ k) by (apply Z.pow_pos_nonneg; lia).
  assert (HQ' : 0 < Q * 2 ^ k) by nia.
  pose proof (rne_error P (Q * 2 ^ k) HQ') as He. fold m0 in He.
  pose proof (rne_nonneg P (Q * 2 ^ k) HQ' ltac:(lia)) as Hn. fold m0 in Hn.
  split; [split; [exact Hn|]|].
  - apply Z.abs_le in He. nia.
  - intros Hk0. destruct Hlo as [Hlo|Hlo]; [lia|].
    assert (E : 2 ^ k = 2 * 2 ^ (k - 1)).
    { replace k with (1 + (k - 1)) at 1 by lia.
      rewrite Z.pow_add_r by lia. reflexivity. }
    apply Z.abs_le in He.
    assert (0 < 2 ^ (k - 1)) by (apply Z.pow_pos_nonneg; lia).
    nia.
Qed.

Lemma f64_of_rat_unfold neg p q :
  p <> 0 ->
  let k := binade (p * U) q in
  let m0 := rne (p * U) (q * 2 ^ k) in
  f64_of_rat neg p q =
  if m0 =? 2 ^ 53 then
    (if 2045 <? k + 1 then Inf neg else Fin neg (2 ^ 52) (k + 1 - 1074))
  else (if 2045 <? k then Inf neg else Fin neg m0 (k - 1074)).
Proof.
  intros Hp k m0. unfold f64_of_rat.
  destruct (Z.eqb_spec p 0) as [|_]; [contradiction|].
  fold k. fold m0. destruct (m0 =? 2 ^ 53); reflexivity.
Qed.

(** What a finite result of rounding satisfies: it is canonical, and its
    magnitude is the rounded mantissa in the binade of the rational. *)
Lemma f64_of_rat_Fin neg p q s m e :
  0 < p -> 0 < q ->
  f64_of_rat neg p q = Fin s m e ->
  let k := binade (p * U) q in
  s = neg /\ canonical (Fin s m e)
  /\ units m e = rne (p * U) (q * 2 ^ k) * 2 ^ k
  /\ (e + 1074 = k \/ (e + 1074 = k + 1 /\ m = 2 ^ 52)).
Proof.
  intros Hp Hq H k.
  pose proof U_pos as HU.
  assert (HP : 0 < p * U) by nia.
  rewrite f64_of_rat_unfold in H by lia. fold k in H.
  destruct (rne_binade_bounds (p * U) q HP Hq) as (Hm0 & Hm1). fold k in Hm0, Hm1.
  destruct (binade_spec (p * U) q HP Hq) as (Hk & _). fold k in Hk.
  set (m0 := rne (p * U) (q * 2 ^ k)) in *.
  destruct (Z.eqb_spec m0 (2 ^ 53)) as [E|E].
  - destruct (Z.ltb_spec 2045 (k + 1)); [discriminate|].
    inversion H; subst s m e. split; [reflexivity|]. split; [|split].
    + simpl. left. lia.
    + unfold units. replace (k + 1 - 1074 + 1074) with (k + 1) by lia.
      rewrite Z.pow_add_r by lia. rewrite E.
      change (2 ^ 53) with (2 ^ 52 * 2 ^ 1). lia.
    + right. split; [lia|reflexivity].
  - destruct (Z.ltb_spec 2045 k); [discriminate|].
    inversion H; subst s m e. split; [reflexivity|]. split; [|split].
    + simpl. destruct (Z.eq_dec k 0) as [Ek|Ek].
      * destruct (Z.lt_ge_cases m0 (2 ^ 52)); [right|left]; lia.
      * left. lia.
    + unfold units. replace (k - 1074 + 1074) with k by lia. reflexivity.
    + left. lia.
Qed.

Lemma f64_of_rat_zero neg q : f64_of_rat neg 0 q = Fin neg 0 (-1074).
Proof. reflexivity. Qed.

Lemma f64_of_rat_canonical neg p q :
  0 <= p -> 0 < q -> canonical (f64_of_rat neg p q).
Proof.
  intros Hp Hq. destruct (Z.eq_dec p 0) as [->|Hn].
  - rewrite f64_of_rat_zero. simpl. right. lia.
  - destruct (f64_of_rat neg p q) as [| |s m e] eqn:E; try exact I.
    apply (f64_of_rat_Fin neg p q s m e); (lia || assumption).
Qed.

(** Error of rounding: at most half a unit of the binade. *)
Lemma f64_of_rat_error neg p q s m e :
  0 < p -> 0 < q ->
  f64_of_rat neg p q = Fin s m e ->
  Z.abs (2 * (units m e * q - p * U)) <= q * 2 ^ binade (p * U) q.
Proof.
  intros Hp Hq H.
  destruct (f64_of_rat_Fin neg p q s m e Hp Hq H) as (_ & _ & Hu & _).
  pose proof U_pos as HU.
  destruct (binade_spec (p * U) q ltac:(nia) Hq) as (Hk & _).
  assert (Hpk : 0 < 2 ^ binade (p * U) q) by (apply Z.pow_pos_nonneg; lia).
  pose proof (rne_error (p * U) (q * 2 ^ binade (p * U) q) ltac:(nia)) as He.
  rewrite Hu. 
  replace (rne (p * U) (q * 2 ^ binade (p * U) q) * 2 ^ binade (p * U) q * q)
    with (rne (p * U) (q * 2 ^ binade (p * U) q) * (q * 2 ^ binade (p * U) q)) by ring.
  exact He.
Qed.

Lemma binade_unique P Q K :
  0 < P -> 0 < Q -> 0 <= K ->
  P < 2 ^ 53 * Q * 2 ^ K ->
  (K = 0 \/ 2 ^ 53 * Q * 2 ^ (K - 1) <= P) ->
  binade P Q = K.
Proof.
  intros HP HQ HK Hup Hlo.
  destruct (binade_spec P Q HP HQ) as (Hk & Hup' & Hlo').
  set (k := binade P Q) in *.
  destruct (Z.lt_trichotomy k K) as [Hlt|[Heq|Hgt]]; [exfalso| exact Heq |exfalso].
  - destruct Hlo as [->|Hlo]; [lia|].
    assert (2 ^ k <= 2 ^ (K - 1)) by (apply Z.pow_le_mono_r; lia).
    assert (0 < 2 ^ k) by (apply Z.pow_pos_nonneg; lia).
    nia.
  - destruct Hlo' as [E|Hlo']; [lia|].
    assert (2 ^ K <= 2 ^ (k - 1)) by (apply Z.pow_le_mono_r; lia).
    assert (0 < 2 ^ K) by (apply Z.pow_pos_nonneg; lia).
    nia.
Qed.

(** A rational within half a unit in the last place of a normal Number
    rounds to that Number. *)
Lemma f64_of_rat_nearest neg p q m e :
  0 < p -> 0 < q ->
  2 ^ 52 <= m < 2 ^ 53 -> -1074 <= e <= 971 ->
  Z.abs (2 * (units m e * q - p * U)) < q * 2 ^ (e + 1074) ->
  (m = 2 ^ 52 -> units m e * q <= p * U) ->
  f64_of_rat neg p q = Fin neg m e.
Proof.
  intros Hp Hq Hm He Herr Hedge.
  pose proof U_pos as HU.
  set (K := e + 1074) in *.
  assert (HK : 0 <= K) by (unfold K; lia).
  assert (Hpk : 0 < 2 ^ K) by (apply Z.pow_pos_nonneg; lia).
  unfold units in *. fold K in Herr, Hedge |- *.
  assert (HP : 0 < p * U) by nia.
  assert (Hb : binade (p * U) q = K).
  { apply binade_unique; try assumption.
    - apply Z.abs_lt in Herr. nia.
    - destruct (Z.eq_dec K 0) as [E|E]; [now left|right].
      assert (E2 : 2 ^ K = 2 * 2 ^ (K - 1)).
      { replace K with (1 + (K - 1)) at 1 by lia.
        rewrite Z.pow_add_r by lia. reflexivity. }
      assert (0 < 2 ^ (K - 1)) by (apply Z.pow_pos_nonneg; lia).
      apply Z.abs_lt in Herr.
      destruct (Z.eq_dec m (2 ^ 52)) as [Em|Em].
      + specialize (Hedge Em). nia.
      + nia. }
  rewrite f64_of_rat_unfold by lia. rewrite Hb.
  assert (Hr : rne (p * U) (q * 2 ^ K) = m).
  { apply rne_unique; [nia|].
    replace (m * (q * 2 ^ K)) with (m * 2 ^ K * q) by ring. exact Herr. }
  rewrite Hr.
  destruct (Z.eqb_spec m (2 ^ 53)); [lia|].
  destruct (Z.ltb_spec 2045 K); [unfold K in *; lia|].
  f_equal. unfold K. lia.
Qed.

Lemma f64_of_rat_exact neg p q s m e :
  0 < p -> 0 < q ->
  f64_of_rat neg p q = Fin s m e ->
  (p * U) mod (q * 2 ^ binade (p * U) q) = 0 ->
  units m e * q = p * U.
Proof.
  intros Hp Hq H Hdiv.
  destruct (f64_of_rat_Fin neg p q s m e Hp Hq H) as (_ & _ & Hu & _).
  pose proof U_pos as HU.
  destruct (binade_spec (p * U) q ltac:(nia) Hq) as (Hk & _).
  set (k := binade (p * U) q) in *.
  assert (Hpk : 0 < 2 ^ k) by (apply Z.pow_pos_nonneg; lia).
  rewrite Hu. unfold rne. rewrite Hdiv.
  assert (HQ' : 0 < q * 2 ^ k) by nia.
  destruct (Z.compare_spec (2 * 0) (q * 2 ^ k)); try lia.
  pose proof (Z.div_mod (p * U) (q * 2 ^ k) ltac:(lia)) as Hdm.
  rewrite Hdiv in Hdm. nia.
Qed.

(** Rounding an integer below [2^53] is exact. *)
Lemma f64_of_rat_int_exact neg N s m e :
  0 < N < 2 ^ 53 ->
  f64_of_rat neg N 1 = Fin s m e ->
  s = neg /\ units m e = N * U.
Proof.
  intros HN H.
  pose proof U_pos as HU.
  destruct (f64_of_rat_Fin neg N 1 s m e ltac:(lia) ltac:(lia) H) as (Hs & _).
  split; [exact Hs|].
  rewrite <- (f64_of_rat_exact neg N 1 s m e ltac:(lia) ltac:(lia) H); [lia|].
  destruct (binade_spec (N * U) 1 ltac:(nia) ltac:(lia)) as (Hk & _ & Hlo).
  set (k := binade (N * U) 1) in *.
  assert (Hk' : k <= 1074).
  { destruct Hlo as [->|Hlo]; [lia|].
    destruct (Z.le_gt_cases k 1074) as [|Hgt]; [assumption|exfalso].
    assert (2 ^ 1074 <= 2 ^ (k - 1)) by (apply Z.pow_le_mono_r; lia).
    fold U in H0. nia. }
  replace (1 * 2 ^ k) with (2 ^ k) by lia.
  assert (E : U = 2 ^ (1074 - k) * 2 ^ k).
  { unfold U. rewrite <- Z.pow_add_r by lia. f_equal. lia. }
  rewrite E, Z.mul_assoc. apply Z.mod_mul.
  assert (0 < 2 ^ k) by (apply Z.pow_pos_nonneg; lia). lia.
Qed.

(** Rounding an integer of [2^53] or more gives at least [2^53]. *)
Lemma f64_of_rat_int_large neg N s m e :
  2 ^ 53 <= N ->
  f64_of_rat neg N 1 = Fin s m e ->
  2 ^ 53 * U <= units m e.
Proof.
  intros HN H.
  pose proof U_pos as HU.
  destruct (f64_of_rat_Fin neg N 1 s m e ltac:(lia) ltac:(lia) H) as (_ & _ & Hu & _).
  destruct (binade_spec (N * U) 1 ltac:(nia) ltac:(lia)) as (Hk & Hup & _).
  destruct (rne_binade_bounds (N * U) 1 ltac:(nia) ltac:(lia)) as (_ & Hm1).
  set (k := binade (N * U) 1) in *.
  assert (Hk' : 1074 < k).
  { destruct (Z.lt_ge_cases 1074 k) as [|Hle]; [assumption|exfalso].
    assert (2 ^ k <= 2 ^ 1074) by (apply Z.pow_le_mono_r; lia).
    fold U in H0. nia. }
  rewrite Hu. specialize (Hm1 ltac:(lia)).
  assert (2 ^ 1075 <= 2 ^ k) by (apply Z.pow_le_mono_r; lia).
  change (2 ^ 1075) with (2 * U) in H0.
  change (2 ^ 53) with (2 ^ 52 * 2).
  nia.
Qed.

Lemma cents_spec V :
  2 * cents V * U - U <= 200 * V < 2 * cents V * U + U.
Proof.
  pose proof U_pos as HU. unfold cents.
  pose proof (Z.div_mod (200 * V + U) (2 * U) ltac:(lia)) as Hdm.
  pose proof (Z.mod_pos_bound (200 * V + U) (2 * U) ltac:(lia)) as Hr.
  nia.
Qed.

Lemma cents_unique V n :
  2 * n * U - U <= 200 * V < 2 * n * U + U -> cents V = n.
Proof.
  pose proof U_pos as HU. intros H. unfold cents.
  symmetry. apply (Z.div_unique _ _ n (200 * V + U - 2 * U * n)); lia.
Qed.

Lemma units_nonneg m e : 0 <= m -> 0 <= units m e.
Proof.
  intros Hm. unfold units. apply Z.mul_nonneg_nonneg; [assumption|].
  apply Z.pow_nonneg. lia.
Qed.

Lemma canonical_units m e s :
  canonical (Fin s m e) ->
  0 <= m < 2 ^ 53 /\ 0 <= e + 1074 /\ (0 < e + 1074 -> 2 ^ 52 <= m) /\ e <= 971.
Proof. simpl. lia. Qed.

Lemma pow2_split a b : 0 <= a <= b -> 2 ^ b = 2 ^ (b - a) * 2 ^ a.
Proof. intros H. rewrite <- Z.pow_add_r by lia. f_equal. lia. Qed.

(** Formatting a non-negative amount below [10^21] with two decimals and
    reading the digits back gives a Number that formats to the same
    digits. *)
Lemma money_roundtrip m e :
  canonical (Fin false m e) ->
  0 < cents (units m e) ->
  units m e < 10 ^ 21 * U ->
  exists m' e',
    f64_of_rat false (cents (units m e)) 100 = Fin false m' e'
    /\ units m' e' < 10 ^ 21 * U
    /\ cents (units m' e') = cents (units m e).
Proof.
  intros Hcan Hn Hsmall.
  pose proof U_pos as HU.
  destruct (canonical_units _ _ _ Hcan) as (Hm & HK & Hnorm & He).
  set (V := units m e) in *. set (n := cents V) in *.
  pose proof (cents_spec V) as Hc. fold n in Hc.
  set (k := binade (n * U) 100).
  destruct (binade_spec (n * U) 100 ltac:(nia) ltac:(lia)) as (Hk & Hup & Hlo).
  fold k in Hk, Hup, Hlo.
  assert (Hpk : 0 < 2 ^ k) by (apply Z.pow_pos_nonneg; lia).
  destruct (Z.le_gt_cases k 1067) as [Hsm|Hbig].
  - (* the binade of n/100 is fine enough: the error stays below half a cent *)
    assert (H67 : 2 ^ k <= 2 ^ 1067) by (apply Z.pow_le_mono_r; lia).
    assert (EU : U = 128 * 2 ^ 1067) by reflexivity.
    destruct (f64_of_rat false n 100) as [| |s' m' e'] eqn:Hy.
    + exfalso. rewrite f64_of_rat_unfold in Hy by lia. fold k in Hy.
      destruct (_ =? _); destruct (_ <? _) eqn:L; try discriminate;
        apply Z.ltb_lt in L; lia.
    + exfalso. rewrite f64_of_rat_unfold in Hy by lia. fold k in Hy.
      destruct (_ =? _); destruct (_ <? _) eqn:L; try discriminate;
        apply Z.ltb_lt in L; lia.
    + destruct (f64_of_rat_Fin false n 100 s' m' e' ltac:(lia) ltac:(lia) Hy)
        as (-> & _ & _ & _).
      pose proof (f64_of_rat_error false n 100 false m' e' ltac:(lia) ltac:(lia) Hy) as Herr.
      fold k in Herr. apply Z.abs_le in Herr.
      exists m', e'. split; [reflexivity|]. split.
      * assert (n * U < 100 * 2 ^ 53 * 2 ^ 1067) by nia.
        assert (E2 : 10 ^ 21 * U = 10 ^ 21 * 128 * 2 ^ 1067) by (rewrite EU; ring).
        rewrite E2.
        assert (100 * units m' e' < 100 * (10 ^ 21 * 128 * 2 ^ 1067)); [|lia].
        assert (2 ^ 53 + 1 < 10 ^ 21 * 128) by reflexivity.
        nia.
      * apply cents_unique. nia.
  - (* from 2^46 on, hundredths are finer than the Numbers: the amount
       itself is the nearest Number *)
    assert (Hn46 : 100 * 2 ^ 53 * 2 ^ 1067 <= n * U).
    { destruct Hlo as [E|Hlo]; [lia|].
      assert (2 ^ 1067 <= 2 ^ (k - 1)) by (apply Z.pow_le_mono_r; lia).
      nia. }
    assert (EU : U = 128 * 2 ^ 1067) by reflexivity.
    assert (Hp67 : 0 < 2 ^ 1067) by reflexivity.
    set (K := e + 1074) in *.
    assert (HV : V = m * 2 ^ K) by reflexivity.
    assert (HK68 : 1068 <= K).
    { destruct (Z.le_gt_cases 1068 K) as [|Hlt]; [assumption|exfalso].
      assert (2 ^ K <= 2 ^ 1067) by (apply Z.pow_le_mono_r; lia).
      assert (0 < 2 ^ K) by (apply Z.pow_pos_nonneg; lia).
      assert (V <= (2 ^ 53 - 1) * 2 ^ 1067) by nia.
      nia. }
    specialize (Hnorm ltac:(lia)).
    assert (H68 : 2 ^ 1068 <= 2 ^ K) by (apply Z.pow_le_mono_r; lia).
    change (2 ^ 1068) with (2 * 2 ^ 1067) in H68.
    exists m, e. split; [|split; [exact Hsmall|reflexivity]].
    apply f64_of_rat_nearest; try lia.
    + fold K. fold V. apply Z.abs_lt. nia.
    + intros Em. fold V.
      (* 100 V is a whole number of units of U, so n U = 100 V *)
      assert (EK : 2 ^ K = 2 ^ (K - 1068) * 2 ^ 1068) by (apply pow2_split; lia).
      assert (E100 : 100 * V = (25 * 2 ^ 48 * 2 ^ (K - 1068)) * U).
      { rewrite HV, Em, EK. 
        change U with (2 ^ 6 * 2 ^ 1068).
        change (2 ^ 52) with (2 ^ 48 * 2 ^ 4). ring. }
      assert (En : n = 25 * 2 ^ 48 * 2 ^ (K - 1068)).
      { symmetry. unfold n. symmetry. apply cents_unique. nia. }
      nia.
Qed.

(* ===================================================================== *)
(** * Decimal digits, printed and read back *)
(* ===================================================================== *)

Definition all_digits (ds : jsstring) : Prop :=
  Forall (fun c => is_digit c = true) ds.

Lemma is_digit_cases c :
  is_digit c = true ->
  (c = 48 \/ c = 49 \/ c = 50 \/ c = 51 \/ c = 52 \/ c = 53 \/ c = 54
   \/ c = 55 \/ c = 56 \/ c = 57)%N.
Proof.
  unfold is_digit. rewrite andb_true_iff, !N.leb_le. lia.
Qed.

Ltac digit_cases H :=
  apply is_digit_cases in H;
  destruct H as [->|[->|[->|[->|[->|[->|[->|[->|[->| ->]]]]]]]]].

Lemma digits_of_uint_digits u : all_digits (digits_of_uint u).
Proof. induction u; constructor; (reflexivity || assumption). Qed.

Lemma decimal_digits_digits n : all_digits (decimal_digits n).
Proof. apply digits_of_uint_digits. Qed.

Lemma decimal_digits_nonnil n : decimal_digits n <> [].
Proof.
  unfold decimal_digits. destruct (Z.to_N n) as [|p]; [discriminate|].
  simpl. pose proof (Unsigned.to_uint_nonnil p) as H.
  destruct (Pos.to_uint p); [congruence| | | | | | | | | |]; discriminate.
Qed.

Definition horner (acc : Z) (ds : jsstring) : Z :=
  fold_left (fun acc c => 10 * acc + digit_value c) ds acc.

Lemma horner_acc ds : forall acc,
  horner acc ds = acc * 10 ^ Z.of_nat (length ds) + horner 0 ds.
Proof.
  unfold horner. induction ds as [|c t IH]; intros acc.
  - simpl. lia.
  - cbn [fold_left length]. rewrite IH, (IH (10 * 0 + digit_value c)).
    rewrite Nat2Z.inj_succ, Z.pow_succ_r by lia. ring.
Qed.

Lemma digits_value_app a b :
  digits_value (a ++ b)
  = digits_value a * 10 ^ Z.of_nat (length b) + digits_value b.
Proof.
  unfold digits_value. rewrite fold_left_app.
  exact (horner_acc b _).
Qed.

Lemma digits_value_zeros k : digits_value (repeat 48%N k) = 0.
Proof.
  induction k as [|k IH]; [reflexivity|].
  change (repeat 48%N (S k)) with ([48%N] ++ repeat 48%N k).
  rewrite digits_value_app, IH. reflexivity.
Qed.

Lemma digits_value_pad k ds :
  digits_value (repeat 48%N k ++ ds) = digits_value ds.
Proof. rewrite digits_value_app, digits_value_zeros. lia. Qed.

(** Reading the digits of a [uint] from the left with an accumulator. *)
Lemma horner_of_lu u : forall a,
  horner (Z.of_N (Unsigned.of_lu a)) (digits_of_uint u)
  = Z.of_N (Unsigned.of_lu (Decimal.revapp u a)).
Proof.
  unfold horner.
  induction u; intros a; cbn [digits_of_uint fold_left Decimal.revapp];
    try reflexivity;
    rewrite <- IHu; f_equal; cbn [Unsigned.of_lu];
    unfold digit_value; lia.
Qed.

Lemma digits_value_uint u :
  digits_value (digits_of_uint u) = Z.of_N (N.of_uint u).
Proof.
  unfold digits_value. 
  change (fold_left _ (digits_of_uint u) 0) with
    (horner (Z.of_N (Unsigned.of_lu Decimal.Nil)) (digits_of_uint u)).
  rewrite horner_of_lu. unfold N.of_uint.
  now rewrite Unsigned.of_uint_alt.
Qed.

Lemma digits_value_decimal n : 0 <= n -> digits_value (decimal_digits n) = n.
Proof.
  intros Hn. unfold decimal_digits.
  rewrite digits_value_uint, DecimalN.Unsigned.of_to. lia.
Qed.

Lemma digit_value_nonneg c : 0 <= digit_value c.
Proof. unfold digit_value. lia. Qed.

Lemma digits_value_nonneg ds : 0 <= digits_value ds.
Proof.
  unfold digits_value.
  enough (H : forall acc, 0 <= acc ->
            0 <= fold_left (fun a c => 10 * a + digit_value c) ds acc)
    by (apply H; lia).
  induction ds as [|c t IH]; intros acc Ha; cbn [fold_left]; [assumption|].
  apply IH. pose proof (digit_value_nonneg c). lia.
Qed.

Lemma span_digits ds rest :
  all_digits ds ->
  match rest with [] => True | c :: _ => is_digit c = false end ->
  span is_digit (ds ++ rest) = (ds, rest).
Proof.
  intros Hd Hr. induction Hd as [|c t Hc Ht IH]; simpl.
  - destruct rest as [|c r]; [reflexivity|]. simpl. now rewrite Hr.
  - now rewrite Hc, IH.
Qed.

Lemma span_digits_all ds : all_digits ds -> span is_digit ds = (ds, []).
Proof.
  intros H. rewrite <- (List.app_nil_r ds) at 1. now apply span_digits.
Qed.

Lemma trimStart_digit c t : is_digit c = true -> trimStart (c :: t) = c :: t.
Proof. intros H. digit_cases H; reflexivity. Qed.

Lemma strip_sign_digit c t :
  is_digit c = true -> strip_sign (c :: t) = (false, c :: t).
Proof. intros H. digit_cases H; reflexivity. Qed.

Lemma starts_with_Infinity_digit c t :
  is_digit c = true -> starts_with (str "Infinity") (c :: t) = false.
Proof.
  intros H. unfold starts_with.
  destruct (jsstring_eqb _ _) eqn:E; [|reflexivity].
  apply jsstring_eqb_eq in E. simpl in E. inversion E; subst. discriminate H.
Qed.

Lemma all_digits_app a b : all_digits a -> all_digits b -> all_digits (a ++ b).
Proof. intros Ha Hb. apply Forall_app. now split. Qed.

(** Reading back an integer part, a point and a fraction. *)
Lemma parseFloat_point ip fp :
  all_digits ip -> all_digits fp -> ip <> [] ->
  parseFloat (ip ++ 46%N :: fp)
  = f64_of_decimal false (digits_value (ip ++ fp)) (- Z.of_nat (length fp)).
Proof.
  intros Hi Hf Hne. destruct ip as [|c ip']; [contradiction|].
  inversion Hi as [|? ? Hc Hi']; subst.
  unfold parseFloat. cbn [app].
  rewrite (trimStart_digit c _ Hc), (strip_sign_digit c _ Hc).
  rewrite (starts_with_Infinity_digit c _ Hc).
  change (c :: ip' ++ 46%N :: fp) with ((c :: ip') ++ 46%N :: fp).
  rewrite (span_digits (c :: ip') (46%N :: fp) Hi eq_refl).
  rewrite (span_digits_all fp Hf).
  cbn [app exponent_part]. reflexivity.
Qed.

(** Reading back a string of digits as an integer. *)
Lemma parseInt10_digits ds :
  all_digits ds -> ds <> [] ->
  parseInt10 ds = f64_of_rat false (digits_value ds) 1.
Proof.
  intros Hd Hne. destruct ds as [|c t]; [contradiction|].
  inversion Hd as [|? ? Hc Ht]; subst.
  unfold parseInt10.
  rewrite (trimStart_digit c _ Hc), (strip_sign_digit c _ Hc).
  rewrite (span_digits_all (c :: t) Hd). reflexivity.
Qed.

Lemma skipn_Forall_keep (P : codeunit -> Prop) n s :
  Forall P s -> Forall P (skipn n s).
Proof.
  intros H. revert n. induction H as [|c t Hc Ht IH]; intros [|n]; simpl;
    try constructor; auto.
Qed.

Lemma parseFloat_fixed2 n :
  0 <= n -> parseFloat (fixed2_digits n) = f64_of_rat false n 100.
Proof.
  intros Hn. unfold fixed2_digits.
  set (m0 := decimal_digits n).
  set (m1 := if (length m0 <=? 2)%nat
             then repeat 48%N (3 - length m0) ++ m0 else m0).
  assert (Hd : all_digits m1).
  { unfold m1. destruct (_ <=? _)%nat; [|apply decimal_digits_digits].
    apply all_digits_app; [|apply decimal_digits_digits].
    apply Forall_forall. intros c Hc. apply repeat_spec in Hc. now subst. }
  assert (Hl : (3 <= length m1)%nat).
  { unfold m1. destruct (Nat.leb_spec (length m0) 2).
    - rewrite length_app, repeat_length. unfold codeunit in *. lia.
    - unfold codeunit in *. lia. }
  assert (Hv : digits_value m1 = n).
  { unfold m1. destruct (_ <=? _)%nat.
    - rewrite digits_value_pad. now apply digits_value_decimal.
    - now apply digits_value_decimal. }
  change (str ".") with [46%N]. cbn [app].
  rewrite parseFloat_point.
  - rewrite firstn_skipn, Hv, length_skipn.
    replace (length m1 - (length m1 - 2))%nat with 2%nat by lia.
    reflexivity.
  - now apply firstn_Forall_keep.
  - now apply skipn_Forall_keep.
  - intros E. apply (f_equal (@length _)) in E.
    rewrite length_firstn in E. cbn [length] in E. lia.
Qed.

Lemma f64_of_decimal_canonical neg d ex :
  0 <= d -> canonical (f64_of_decimal neg d ex).
Proof.
  intros Hd. unfold f64_of_decimal. destruct (Z.leb_spec 0 ex).
  - apply f64_of_rat_canonical; [|lia].
    apply Z.mul_nonneg_nonneg; [assumption|]. apply Z.pow_nonneg. lia.
  - apply f64_of_rat_canonical; [assumption|].
    apply Z.pow_pos_nonneg; lia.
Qed.

Lemma parseFloat_canonical s : canonical (parseFloat s).
Proof.
  unfold parseFloat.
  destruct (strip_sign (trimStart s)) as [neg s1].
  destruct (starts_with _ s1); [exact I|].
  destruct (span is_digit s1) as [ip r1].
  destruct (match r1 with
            | 46%N :: t => span is_digit t
            | _ => ([], r1)
            end) as [fp r2].
  destruct (ip ++ fp) as [|c ds] eqn:E; [exact I|].
  apply f64_of_decimal_canonical, digits_value_nonneg.
Qed.

(** The amount [10^21], from which [toFixed] leaves the fixed notation. *)
Definition e21 : f64 := Eval vm_compute in f64_of_decimal false 1 21.

Lemma f64_lt_fin a b :
  isFinite a = true -> isFinite b = true ->
  f64_lt a b = (su a <? su b).
Proof.
  destruct a as [| |sa ma ea], b as [| |sb mb eb]; try discriminate.
  intros _ _. unfold f64_lt, f64_compare, su.
  destruct (Z.compare_spec (signed_units sa ma ea) (signed_units sb mb eb));
    symmetry; [apply Z.ltb_ge|apply Z.ltb_lt|apply Z.ltb_ge]; lia.
Qed.

(** [toMoney] applied to its own output, for an amount below [10^21]. *)
Lemma toMoney_twice {stack : Stack} v s :
  toMoney v = Normal s ->
  (forall sv, ToString v = Normal sv ->
     isFinite (parseFloat sv) = true -> f64_lt (parseFloat sv) e21 = true) ->
  toMoney (JStr s) = Normal s.
Proof.
  intros H Hsmall. unfold toMoney in H.
  destruct (ToString v) as [sv|] eqn:Hs; [|discriminate]. cbn [bind] in H.
  specialize (Hsmall sv eq_refl).
  pose proof (parseFloat_canonical sv) as Hcan.
  destruct (negb (isFinite (parseFloat sv)) || f64_lt (parseFloat sv) zero) eqn:Hc.
  - inversion H. vm_compute. reflexivity.
  - apply orb_false_iff in Hc. destruct Hc as [Hfin Hneg].
    apply negb_false_iff in Hfin. specialize (Hsmall Hfin).
    destruct (parseFloat sv) as [| |neg m e]; try discriminate.
    rewrite f64_lt_fin in Hneg, Hsmall by reflexivity.
    apply Z.ltb_ge in Hneg. apply Z.ltb_lt in Hsmall.
    change (su zero) with 0 in Hneg.
    change (su e21) with (10 ^ 21 * U) in Hsmall.
    cbn [su] in Hneg, Hsmall. unfold signed_units in Hneg, Hsmall.
    destruct (canonical_units _ _ _ Hcan) as (Hm & _).
    pose proof (units_nonneg m e ltac:(lia)) as HV.
    pose proof U_pos as HU.
    assert (HVs : units m e < 10 ^ 21 * U) by (destruct neg; lia).
    assert (Hsgn : neg && (0 <? units m e) = false).
    { destruct neg; [|reflexivity]. simpl. apply Z.ltb_ge. lia. }
    unfold toFixed2 in H. rewrite Hsgn in H.
    destruct (Z.leb_spec (10 ^ 21 * U) (units m e)) as [|_]; [lia|].
    cbn [app] in H. inversion H as [Hs']. clear H.
    assert (Hc0 : 0 <= cents (units m e)).
    { pose proof (cents_spec (units m e)). nia. }
    unfold toMoney. cbn [ToString ToString_with bind].
    rewrite (parseFloat_fixed2 _ Hc0).
    destruct (Z.eq_dec (cents (units m e)) 0) as [E0|E0].
    + rewrite E0. vm_compute. reflexivity.
    + destruct (money_roundtrip m e Hcan ltac:(lia) HVs) as (m' & e' & Hy & HV' & Hc').
      rewrite Hy. 
      pose proof (f64_of_rat_canonical false (cents (units m e)) 100 Hc0 ltac:(lia)) as Hcy.
      rewrite Hy in Hcy. destruct (canonical_units _ _ _ Hcy) as (Hm' & _).
      pose proof (units_nonneg m' e' ltac:(lia)) as HVy.
      cbn [isFinite negb orb].
      rewrite f64_lt_fin by reflexivity.
      change (su zero) with 0. cbn [su signed_units].
      destruct (Z.ltb_spec (units m' e') 0) as [|_]; [lia|].
      unfold toFixed2. cbn [andb app].
      destruct (Z.leb_spec (10 ^ 21 * U) (units m' e')) as [|_]; [lia|].
      now rewrite Hc'.
Qed.

(** A string of digits, a point and two digits. *)
Definition two_decimals (s : jsstring) : Prop :=
  exists ip fp,
    s = ip ++ str "." ++ fp /\ ip <> [] /\ all_digits ip /\ all_digits fp
    /\ length fp = 2%nat.

Lemma fixed2_digits_two_decimals n : two_decimals (fixed2_digits n).
Proof.
  unfold fixed2_digits.
  set (m0 := decimal_digits n).
  set (m1 := if (length m0 <=? 2)%nat
             then repeat 48%N (3 - length m0) ++ m0 else m0).
  assert (Hd : all_digits m1).
  { unfold m1. destruct (_ <=? _)%nat; [|apply decimal_digits_digits].
    apply all_digits_app; [|apply decimal_digits_digits].
    apply Forall_forall. intros c Hc. apply repeat_spec in Hc. now subst. }
  assert (Hl : (3 <= length m1)%nat).
  { unfold m1. destruct (Nat.leb_spec (length m0) 2).
    - rewrite length_app, repeat_length. unfold codeunit in *. lia.
    - unfold codeunit in *. lia. }
  exists (firstn (length m1 - 2) m1), (skipn (length m1 - 2) m1).
  split; [reflexivity|]. split; [|split; [|split]].
  - intros E. apply (f_equal (@length _)) in E.
    rewrite length_firstn in E. cbn [length] in E. lia.
  - now apply firstn_Forall_keep.
  - now apply skipn_Forall_keep.
  - rewrite length_skipn. lia.
Qed.

(** Below [10^21], and whenever the value has a string form, [toMoney]
    returns two decimals. *)
Lemma toMoney_two_decimals {stack : Stack} v sv :
  ToString v = Normal sv ->
  (isFinite (parseFloat sv) = true -> f64_lt (parseFloat sv) e21 = true) ->
  exists s, toMoney v = Normal s /\ two_decimals s.
Proof.
  intros Hs Hsmall. unfold toMoney. rewrite Hs. cbn [bind].
  pose proof (parseFloat_canonical sv) as Hcan.
  destruct (negb (isFinite (parseFloat sv)) || f64_lt (parseFloat sv) zero) eqn:Hc.
  - eexists. split; [reflexivity|]. exact (fixed2_digits_two_decimals 0).
  - eexists. split; [reflexivity|].
    apply orb_false_iff in Hc. destruct Hc as [Hfin Hneg].
    apply negb_false_iff in Hfin. specialize (Hsmall Hfin).
    destruct (parseFloat sv) as [| |neg m e]; try discriminate.
    rewrite f64_lt_fin in Hneg, Hsmall by reflexivity.
    apply Z.ltb_ge in Hneg. apply Z.ltb_lt in Hsmall.
    change (su zero) with 0 in Hneg.
    change (su e21) with (10 ^ 21 * U) in Hsmall.
    cbn [su] in Hneg, Hsmall. unfold signed_units in Hneg, Hsmall.
    destruct (canonical_units _ _ _ Hcan) as (Hm & _).
    pose proof (units_nonneg m e ltac:(lia)) as HV.
    pose proof U_pos as HU.
    unfold toFixed2.
    replace (neg && (0 <? units m e)) with false
      by (destruct neg; [simpl; symmetry; apply Z.ltb_ge; lia|reflexivity]).
    destruct (Z.leb_spec (10 ^ 21 * U) (units m e)) as [|_];
      [destruct neg; lia|].
    apply fixed2_digits_two_decimals.
Qed.

(* ===================================================================== *)
(** * [Number::toString] on whole numbers *)
(* ===================================================================== *)

Lemma decade_from_bounds V b : forall fuel start,
  start <= b -> lt_pow10 V b = true -> b - start < Z.of_nat fuel ->
  start <= decade_from fuel start V <= b
  /\ lt_pow10 V (decade_from fuel start V) = true.
Proof.
  induction fuel as [|fuel IH]; intros start Hs Hb Hf; [simpl in Hf; lia|].
  cbn [decade_from]. destruct (lt_pow10 V start) eqn:Hlt.
  - split; [lia|exact Hlt].
  - assert (start <> b) by (intros ->; congruence).
    destruct (IH (start + 1)) as (H1 & H2); try lia; [assumption|].
    split; [lia|exact H2].
Qed.

Lemma decade_whole N :
  0 < N < 10 ^ 15 -> 1 <= decade (N * U) <= 15.
Proof.
  intros HN. pose proof U_pos as HU. unfold decade.
  assert (Hb : lt_pow10 (N * U) 15 = true).
  { unfold lt_pow10. destruct (Z.leb_spec 0 15); [|lia]. apply Z.ltb_lt.
    apply Z.mul_lt_mono_pos_r; lia. }
  destruct (decade_from_bounds (N * U) 15 640 (-330) ltac:(lia) Hb ltac:(lia))
    as ((_ & Hup) & Ht).
  split; [|exact Hup].
  set (r := decade_from 640 (-330) (N * U)) in *.
  destruct (Z.le_gt_cases 1 r) as [|Hr]; [assumption|exfalso].
  unfold lt_pow10 in Ht. destruct (Z.leb_spec 0 r).
  - assert (r = 0) by lia. subst r. rewrite H0 in Ht.
    change (10 ^ 0) with 1 in Ht. apply Z.ltb_lt in Ht. nia.
  - apply Z.ltb_lt in Ht.
    assert (0 < 10 ^ (- r)) by (apply Z.pow_pos_nonneg; lia).
    assert (U <= N * U) by nia.
    assert (N * U * 1 <= N * U * 10 ^ (- r))
      by (apply Z.mul_le_mono_nonneg_l; lia).
    lia.
Qed.

Lemma pow10_carry k n :
  1 <= k <= n -> 10 ^ k * 10 ^ (n - k) = 10 ^ (k - 1) * 10 ^ (n + 1 - k).
Proof.
  intros H. rewrite <- !Z.pow_add_r by lia. f_equal. lia.
Qed.

(** The search for the shortest digits of a whole number [N] ends at a
    length [k'] that does not exceed the decade, with digits [s] whose
    value [s * 10^(n' - k')] rounds to the Number. *)
Lemma shortest_whole N x n :
  0 < N -> f64_of_rat false N 1 = x ->
  forall fuel k,
    1 <= k <= n -> n - k < Z.of_nat fuel ->
    let '(s, k', n') := shortest fuel k x (N * U) n in
    0 <= s /\ 1 <= k' <= n' /\ n' <= n + 1
    /\ f64_of_rat false (s * 10 ^ (n' - k')) 1 = x.
Proof.
  intros HN Hx. pose proof U_pos as HU.
  induction fuel as [|fuel IH]; intros k Hk Hf; [simpl in Hf; lia|].
  cbn [shortest].
  set (lo := scaled_floor (N * U) (k - n)).
  assert (Hlo : 0 <= lo).
  { unfold lo, scaled_floor. destruct (Z.leb_spec 0 (k - n)).
    - apply Z.div_pos; [|exact HU].
      apply Z.mul_nonneg_nonneg; [nia|]. apply Z.pow_nonneg. lia.
    - apply Z.div_pos; [nia|].
      assert (0 < 10 ^ (- (k - n))) by (apply Z.pow_pos_nonneg; lia). nia. }
  assert (Hdec : forall d, f64_of_decimal false d (n - k)
                           = f64_of_rat false (d * 10 ^ (n - k)) 1).
  { intros d. unfold f64_of_decimal.
    destruct (Z.leb_spec 0 (n - k)); [reflexivity|lia]. }
  rewrite !Hdec.
  assert (Hcarry :
    f64_eqb (f64_of_rat false ((lo + 1) * 10 ^ (n - k)) 1) x = true ->
    let '(s, k', n') :=
      (if lo + 1 =? 10 ^ k then (10 ^ (k - 1), k, n + 1) else (lo + 1, k, n)) in
    0 <= s /\ 1 <= k' <= n' /\ n' <= n + 1
    /\ f64_of_rat false (s * 10 ^ (n' - k')) 1 = x).
  { intros Hok. apply f64_eqb_eq in Hok.
    destruct (Z.eqb_spec (lo + 1) (10 ^ k)) as [E|E].
    - split; [apply Z.pow_nonneg; lia|]. split; [lia|]. split; [lia|].
      rewrite <- pow10_carry by lia. rewrite <- E. exact Hok.
    - split; [lia|]. split; [lia|]. split; [lia|]. exact Hok. }
  destruct (f64_eqb (f64_of_rat false (lo * 10 ^ (n - k)) 1) x) eqn:Oklo;
    destruct (f64_eqb (f64_of_rat false ((lo + 1) * 10 ^ (n - k)) 1) x) eqn:Okhi;
    cbn [andb].
  - destruct (prefer_low _ _ _).
    + apply f64_eqb_eq in Oklo. repeat split; (lia || assumption).
    + apply Hcarry. reflexivity.
  - apply f64_eqb_eq in Oklo. repeat split; (lia || assumption).
  - apply Hcarry. reflexivity.
  - assert (k <> n).
    { intros ->. 
      assert (E : lo = N).
      { unfold lo, scaled_floor. replace (n - n) with 0 by lia.
        cbn [Z.leb Z.compare]. change (10 ^ 0) with 1.
        rewrite Z.mul_1_r. apply Z.div_mul. lia. }
      rewrite E in Oklo. replace (n - n) with 0 in Oklo by lia.
      change (10 ^ 0) with 1 in Oklo. rewrite Z.mul_1_r, Hx in Oklo.
      assert (f64_eqb x x = true) by (now apply f64_eqb_eq).
      congruence. }
    specialize (IH (k + 1) ltac:(lia) ltac:(lia)).
    destruct (shortest fuel (k + 1) x (N * U) n) as [[s k'] n'].
    destruct IH as (H1 & H2 & H3 & H4). repeat split; (lia || assumption).
Qed.

Lemma layout_whole k ds n :
  k <= n <= 21 -> layout k ds n = ds ++ zeros (n - k).
Proof.
  intros H. unfold layout.
  destruct (Z.leb_spec k n); [|lia]. destruct (Z.leb_spec n 21); [|lia].
  reflexivity.
Qed.

Lemma parseInt10_whole s j :
  0 <= s -> 0 <= j ->
  parseInt10 (decimal_digits s ++ zeros j) = f64_of_rat false (s * 10 ^ j) 1.
Proof.
  intros Hs Hj.
  assert (Hz : all_digits (zeros j)).
  { apply Forall_forall. intros c Hc. apply repeat_spec in Hc. now subst. }
  rewrite parseInt10_digits.
  - rewrite digits_value_app, digits_value_decimal by assumption.
    unfold zeros at 2. rewrite digits_value_zeros.
    unfold zeros. rewrite repeat_length, Z2Nat.id by assumption.
    f_equal. lia.
  - apply all_digits_app; [apply decimal_digits_digits|exact Hz].
  - intros E. apply app_eq_nil in E. destruct E as [E _].
    now apply decimal_digits_nonnil in E.
Qed.

(** The string form of a whole Number below [10^15] reads back, with
    [parseInt], as the same Number. *)
Lemma parseInt10_toString_whole N x :
  0 < N < 10 ^ 15 -> f64_of_rat false N 1 = x ->
  parseInt10 (Number_toString x) = x.
Proof.
  intros HN Hx. pose proof U_pos as HU.
  assert (H53 : 0 < N < 2 ^ 53).
  { split; [lia|]. assert (10 ^ 15 < 2 ^ 53) by (vm_compute; reflexivity). lia. }
  destruct x as [| |s m e].
  - exfalso. rewrite f64_of_rat_unfold in Hx by lia.
    destruct (_ =? _); destruct (_ <? _); discriminate.
  - exfalso.
    pose proof (f64_of_rat_canonical false N 1 ltac:(lia) ltac:(lia)) as Hc.
    rewrite f64_of_rat_unfold in Hx by lia.
    destruct (binade_spec (N * U) 1 ltac:(nia) ltac:(lia)) as (Hk & _ & Hlo).
    set (k := binade (N * U) 1) in *.
    assert (Hk' : k <= 1074).
    { destruct Hlo as [E|Hlo]; [lia|].
      destruct (Z.le_gt_cases k 1074) as [|Hgt]; [assumption|exfalso].
      assert (2 ^ 1074 <= 2 ^ (k - 1)) by (apply Z.pow_le_mono_r; lia).
      fold U in H. nia. }
    destruct (_ =? _); [destruct (Z.ltb_spec 2045 (k + 1))
                       |destruct (Z.ltb_spec 2045 k)]; (discriminate || lia).
  - destruct (f64_of_rat_int_exact false N s m e H53 Hx) as (-> & Hu).
    unfold Number_toString.
    destruct (Z.eqb_spec m 0) as [E|_].
    { rewrite E in Hu. unfold units in Hu. simpl in Hu. nia. }
    cbn [app]. unfold toString_pos. rewrite Hu.
    pose proof (decade_whole N HN) as Hd.
    pose proof (shortest_whole N (Fin false m e) (decade (N * U))
                  ltac:(lia) Hx 800 1 ltac:(lia) ltac:(lia)) as Hsh.
    destruct (shortest 800 1 (Fin false m e) (N * U) (decade (N * U)))
      as [[d k'] n'].
    destruct Hsh as (H1 & H2 & H3 & H4).
    rewrite layout_whole by lia.
    rewrite parseInt10_whole by lia. exact H4.
Qed.

(* ===================================================================== *)
(** * [toInt] applied to its own output *)
(* ===================================================================== *)

Lemma clamp_cases n lo hi :
  let q := Math_min (Math_max n lo) hi in
  q = NaN \/ q = n \/ q = lo \/ q = hi.
Proof.
  cbv zeta. unfold Math_min.
  destruct (f64_compare (Math_max n lo) hi) as [[| |]|]; auto;
    try (destruct (Math_max n lo) as [| |[|] ? ?] eqn:E; auto; rewrite <- E);
    unfold Math_max;
    destruct (f64_compare n lo) as [[| |]|]; auto;
    destruct n as [| |[|] ? ?]; auto.
Qed.

Lemma parseInt10_shape s :
  parseInt10 s = NaN
  \/ exists neg N, 0 <= N /\ parseInt10 s = f64_of_rat neg N 1.
Proof.
  unfold parseInt10.
  destruct (strip_sign (trimStart s)) as [neg s1].
  destruct (span is_digit s1) as [ds r].
  destruct ds as [|c t]; [now left|right].
  exists neg, (digits_value (c :: t)). split; [apply digits_value_nonneg|reflexivity].
Qed.

Lemma su_qty_min : su qty_min = U.
Proof. reflexivity. Qed.

Lemma su_qty_max : su qty_max = 9999 * U.
Proof. reflexivity. Qed.

(** A whole Number between the quantity bounds is one of 1 to 9999. *)
Lemma whole_in_range neg N q :
  0 <= N -> f64_of_rat neg N 1 = q -> isFinite q = true ->
  su qty_min <= su q <= su qty_max ->
  neg = false /\ 1 <= N <= 9999.
Proof.
  intros HN Hq Hf Hr. pose proof U_pos as HU.
  rewrite su_qty_min, su_qty_max in Hr.
  destruct q as [| |s m e]; try discriminate.
  destruct (Z.eq_dec N 0) as [->|Hn0].
  { rewrite f64_of_rat_zero in Hq. inversion Hq; subst.
    cbn [su] in Hr. unfold signed_units, units in Hr.
    destruct s; simpl in Hr; lia. }
  destruct (f64_of_rat_Fin neg N 1 s m e ltac:(lia) ltac:(lia) Hq) as (Es & Hc & _).
  subst s.
  destruct (canonical_units _ _ _ Hc) as (Hm & _).
  pose proof (units_nonneg m e ltac:(lia)) as HV.
  cbn [su] in Hr. unfold signed_units in Hr.
  destruct (Z.lt_ge_cases N (2 ^ 53)) as [Hlt|Hge].
  - destruct (f64_of_rat_int_exact neg N neg m e ltac:(lia) Hq) as (_ & Hu).
    rewrite Hu in *. destruct neg; [exfalso; nia|]. split; [reflexivity|nia].
  - pose proof (f64_of_rat_int_large neg N neg m e Hge Hq) as Hl.
    exfalso. destruct neg; [lia|].
    assert (9999 < 2 ^ 53) by (vm_compute; reflexivity). nia.
Qed.

Lemma whole_finite N :
  0 < N < 2 ^ 53 ->
  exists m e, f64_of_rat false N 1 = Fin false m e /\ units m e = N * U.
Proof.
  intros HN. pose proof U_pos as HU.
  destruct (f64_of_rat false N 1) as [| |s m e] eqn:Hx.
  - exfalso. rewrite f64_of_rat_unfold in Hx by lia.
    destruct (_ =? _); destruct (_ <? _); discriminate.
  - exfalso. rewrite f64_of_rat_unfold in Hx by lia.
    destruct (binade_spec (N * U) 1 ltac:(nia) ltac:(lia)) as (Hk & _ & Hlo).
    set (k := binade (N * U) 1) in *.
    assert (Hk' : k <= 1074).
    { destruct Hlo as [E|Hlo]; [lia|].
      destruct (Z.le_gt_cases k 1074) as [|Hgt]; [assumption|exfalso].
      assert (2 ^ 1074 <= 2 ^ (k - 1)) by (apply Z.pow_le_mono_r; lia).
      fold U in H. nia. }
    destruct (_ =? _); [destruct (Z.ltb_spec 2045 (k + 1))
                       |destruct (Z.ltb_spec 2045 k)]; (discriminate || lia).
  - destruct (f64_of_rat_int_exact false N s m e HN Hx) as (-> & Hu).
    exists m, e. auto.
Qed.

(** A whole Number from 1 to 9999 is left alone by the clamp. *)
Lemma clamp_fixed N :
  1 <= N <= 9999 ->
  Math_min (Math_max (f64_of_rat false N 1) qty_min) qty_max
  = f64_of_rat false N 1.
Proof.
  intros HN. pose proof U_pos as HU.
  assert (H53 : 0 < N < 2 ^ 53).
  { assert (9999 < 2 ^ 53) by (vm_compute; reflexivity). lia. }
  destruct (whole_finite N H53) as (m & e & Hq & Hu).
  destruct (Z.eq_dec N 9999) as [->|Hne]; [vm_compute; reflexivity|].
  rewrite Hq.
  assert (Hc : forall b, isFinite b = true ->
             f64_compare (Fin false m e) b = Some (N * U ?= su b)).
  { intros [| |sb mb eb]; try discriminate. intros _.
    unfold f64_compare. cbn [su signed_units]. now rewrite Hu. }
  unfold Math_max. rewrite (Hc qty_min eq_refl), su_qty_min.
  assert (E1 : match N * U ?= U with
               | Eq | Gt => Fin false m e
               | Lt => qty_min
               end = Fin false m e).
  { destruct (Z.compare_spec (N * U) U); try reflexivity. nia. }
  rewrite E1. unfold Math_min. rewrite (Hc qty_max eq_refl), su_qty_max.
  destruct (Z.compare_spec (N * U) (9999 * U)); try reflexivity; nia.
Qed.

Lemma toInt_twice {stack : Stack} v q :
  toInt v qty_min qty_max = Normal q ->
  (forall sv, ToString v = Normal sv -> isFinite (parseInt10 sv) = true) ->
  toInt (JNum q) qty_min qty_max = Normal q.
Proof.
  intros H Hfin. unfold toInt in H.
  destruct (ToString v) as [sv|] eqn:Hs; [|discriminate]. cbn [bind] in H.
  specialize (Hfin sv eq_refl). rewrite Hfin in H. cbn [negb] in H.
  injection H as Hq.
  assert (Hle : su qty_min <= su qty_max).
  { rewrite su_qty_min, su_qty_max. pose proof U_pos. lia. }
  destruct (clamp_between (parseInt10 sv) qty_min qty_max Hfin eq_refl eq_refl Hle)
    as (Hqf & Hlo & Hhi).
  rewrite Hq in Hqf, Hlo, Hhi.
  rewrite f64_le_fin in Hlo, Hhi by (assumption || reflexivity).
  apply Z.leb_le in Hlo, Hhi.
  assert (HN : exists N, 1 <= N <= 9999 /\ q = f64_of_rat false N 1).
  { destruct (clamp_cases (parseInt10 sv) qty_min qty_max) as [E|[E|[E|E]]];
      cbv zeta in E; rewrite Hq in E.
    - rewrite E in Hqf. discriminate.
    - destruct (parseInt10_shape sv) as [En|(neg & N & HN0 & En)].
      + rewrite En in Hfin. discriminate.
      + rewrite En in E.
        destruct (whole_in_range neg N q HN0 (eq_sym E) Hqf ltac:(lia)) as (-> & HN).
        exists N. auto.
    - exists 1. split; [lia|]. rewrite E. vm_compute. reflexivity.
    - exists 9999. split; [lia|]. rewrite E. vm_compute. reflexivity. }
  destruct HN as (N & HN & EN). clear Hq. subst q.
  unfold toInt. cbn [ToString ToString_with bind].
  rewrite (parseInt10_toString_whole N (f64_of_rat false N 1)); [|split; [lia|]|reflexivity].
  - rewrite Hqf. cbn [negb]. now rewrite clamp_fixed.
  - assert (9999 < 10 ^ 15) by (vm_compute; reflexivity). lia.
Qed.

(* ===================================================================== *)
(** * The signature as a function of the digests *)
(* ===================================================================== *)

Local Open Scope N_scope.

(** Linear arithmetic over [N] with division by constants. *)
Ltac nlia :=
  unfold codeunit in *; zify; Z.to_euclidean_division_equations; lia.

Lemma b64_char_inj x y :
  x < 64 -> y < 64 -> b64_char x = b64_char y -> x = y.
Proof.
  unfold b64_char. intros Hx Hy.
  repeat match goal with
         | |- context [?a <? ?b] => destruct (N.ltb_spec a b)
         | |- context [?a =? ?b] => destruct (N.eqb_spec a b)
         end; lia.
Qed.

Lemma b64_char_not_pad x : x < 64 -> b64_char x <> 61.
Proof.
  unfold b64_char. intros Hx.
  repeat match goal with
         | |- context [?a <? ?b] => destruct (N.ltb_spec a b)
         | |- context [?a =? ?b] => destruct (N.eqb_spec a b)
         end; lia.
Qed.

Definition octets (s : jsstring) : Prop := Forall (fun c => c < 256) s.

(** The four sextets of three octets, and back. *)
Lemma sextet_bounds a b c :
  a < 256 -> b < 256 -> c < 256 ->
  a / 4 < 64 /\ a mod 4 * 16 + b / 16 < 64 /\ a mod 4 * 16 < 64
  /\ b mod 16 * 4 + c / 64 < 64 /\ b mod 16 * 4 < 64 /\ c mod 64 < 64.
Proof. intros. repeat split; nlia. Qed.

Lemma sextets_head a b a' b' :
  a < 256 -> b < 256 -> a' < 256 -> b' < 256 ->
  a / 4 = a' / 4 -> a mod 4 * 16 + b / 16 = a' mod 4 * 16 + b' / 16 ->
  a = a' /\ b / 16 = b' / 16.
Proof. intros. split; nlia. Qed.

Lemma sextets_mid b c b' c' :
  b < 256 -> c < 256 -> b' < 256 -> c' < 256 ->
  b / 16 = b' / 16 -> b mod 16 * 4 + c / 64 = b' mod 16 * 4 + c' / 64 ->
  b = b' /\ c / 64 = c' / 64.
Proof. intros. split; nlia. Qed.

Lemma sextets_last c c' : c / 64 = c' / 64 -> c mod 64 = c' mod 64 -> c = c'.
Proof. intros. nlia. Qed.

Lemma sextets_1 a a' :
  a < 256 -> a' < 256 ->
  a / 4 = a' / 4 -> a mod 4 * 16 = a' mod 4 * 16 -> a = a'.
Proof. intros. nlia. Qed.

Lemma sextets_2 a b a' b' :
  a < 256 -> b < 256 -> a' < 256 -> b' < 256 ->
  a / 4 = a' / 4 -> a mod 4 * 16 + b / 16 = a' mod 4 * 16 + b' / 16 ->
  b mod 16 * 4 = b' mod 16 * 4 -> a = a' /\ b = b'.
Proof.
  intros Ha Hb Ha' Hb' H1 H2 H3.
  destruct (sextets_head a b a' b' Ha Hb Ha' Hb' H1 H2) as [E1 E2].
  split; [exact E1|]. clear - Hb Hb' E2 H3. nlia.
Qed.

Lemma sextets_3 a b c a' b' c' :
  a < 256 -> b < 256 -> c < 256 -> a' < 256 -> b' < 256 -> c' < 256 ->
  a / 4 = a' / 4 -> a mod 4 * 16 + b / 16 = a' mod 4 * 16 + b' / 16 ->
  b mod 16 * 4 + c / 64 = b' mod 16 * 4 + c' / 64 ->
  c mod 64 = c' mod 64 -> a = a' /\ b = b' /\ c = c'.
Proof.
  intros Ha Hb Hc Ha' Hb' Hc' H1 H2 H3 H4.
  destruct (sextets_head a b a' b' Ha Hb Ha' Hb' H1 H2) as [E1 E2].
  destruct (sextets_mid b c b' c' Hb Hc Hb' Hc' E2 H3) as [E3 E4].
  split; [exact E1|]. split; [exact E3|]. now apply sextets_last.
Qed.

Ltac pad_clash :=
  match goal with
  | H : b64_char _ = 61 |- _ =>
      exfalso; revert H; apply b64_char_not_pad
  | H : 61 = b64_char _ |- _ =>
      exfalso; symmetry in H; revert H; apply b64_char_not_pad
  end.

Lemma btoa_inj : forall a b, octets a -> octets b -> btoa a = btoa b -> a = b.
Proof.
  intros a. remember (length a) as n eqn:Hn. revert a Hn.
  induction n as [n IH] using lt_wf_ind. intros a Hn b Ha Hb H.
  destruct a as [|a1 [|a2 [|a3 ta]]]; destruct b as [|b1 [|b2 [|b3 tb]]];
    cbn [btoa] in H; try discriminate H; try reflexivity;
    repeat match goal with
           | Hf : octets (_ :: _) |- _ => inversion Hf; subst; clear Hf
           | Hf : Forall _ (_ :: _) |- _ => inversion Hf; subst; clear Hf
           end;
    injection H; clear H; intros;
    try (pad_clash;
         match goal with
         | Ha : ?a < 256, Hb : ?b < 256 |- _ =>
             first [ apply (sextet_bounds a b a Ha Hb Ha)
                   | apply (sextet_bounds a a b Ha Ha Hb)
                   | apply (sextet_bounds a a a Ha Ha Ha) ]
         end).
  - f_equal. 
    match goal with
    | H1 : a1 < 256, H2 : b1 < 256 |- _ =>
        pose proof (sextet_bounds a1 a1 a1 H1 H1 H1) as Ba;
        pose proof (sextet_bounds b1 b1 b1 H2 H2 H2) as Bb
    end.
    repeat match goal with
           | H : b64_char _ = b64_char _ |- _ =>
               apply b64_char_inj in H; [|tauto|tauto]
           end.
    now apply sextets_1.
  - match goal with
    | H1 : a1 < 256, H2 : b1 < 256, H3 : a2 < 256, H4 : b2 < 256 |- _ =>
        pose proof (sextet_bounds a1 a2 a2 H1 H3 H3) as Ba;
        pose proof (sextet_bounds b1 b2 b2 H2 H4 H4) as Bb;
        repeat match goal with
               | H : b64_char _ = b64_char _ |- _ =>
                   apply b64_char_inj in H; [|tauto|tauto]
               end;
        destruct (sextets_2 a1 a2 b1 b2) as [-> ->]; auto
    end.
  - match goal with
    | H1 : a1 < 256, H2 : b1 < 256, H3 : a2 < 256, H4 : b2 < 256,
      H5 : a3 < 256, H6 : b3 < 256 |- _ =>
        pose proof (sextet_bounds a1 a2 a3 H1 H3 H5) as Ba;
        pose proof (sextet_bounds b1 b2 b3 H2 H4 H6) as Bb;
        repeat match goal with
               | H : b64_char _ = b64_char _ |- _ =>
                   apply b64_char_inj in H; [|tauto|tauto]
               end;
        destruct (sextets_3 a1 a2 a3 b1 b2 b3) as (-> & -> & ->); auto
    end.
    assert (ta = tb).
    { apply (IH (length ta)) with (a := ta); auto. cbn [length]. lia. }
    now subst tb.
Qed.

Lemma b64_as_map u8 : b64 u8 = btoa (map Byte.to_N u8).
Proof.
  unfold b64. f_equal.
  enough (H : forall acc, fold_left (fun s b => s ++ [Byte.to_N b]) u8 acc
                          = acc ++ map Byte.to_N u8) by apply (H []).
  induction u8 as [|b t IH]; intros acc; simpl.
  - now rewrite List.app_nil_r.
  - rewrite IH, <- List.app_assoc. reflexivity.
Qed.

Lemma to_N_inj x y : Byte.to_N x = Byte.to_N y -> x = y.
Proof.
  intros H. pose proof (Byte.of_to_N x) as Hx. rewrite H, Byte.of_to_N in Hx.
  congruence.
Qed.

(** [b64] loses nothing: two byte strings with the same encoding are
    the same. *)
Lemma b64_inj u v : b64 u = b64 v -> u = v.
Proof.
  rewrite !b64_as_map. intros H. apply btoa_inj in H.
  - revert v H. induction u as [|x u IH]; intros [|y v] H; try discriminate.
    + reflexivity.
    + simpl in H. injection H as Hxy Huv.
      f_equal; [now apply to_N_inj|now apply IH].
  - apply Forall_forall. intros c Hc. apply in_map_iff in Hc.
    destruct Hc as (b & <- & _). pose proof (Byte.to_N_bounded b). lia.
  - apply Forall_forall. intros c Hc. apply in_map_iff in Hc.
    destruct Hc as (b & <- & _). pose proof (Byte.to_N_bounded b). lia.
Qed.

(** The body hash changes exactly when the digest of the payload bytes
    changes, and the signature exactly when the keyed digest changes. *)
Lemma body_hash_follows_digest sha s s' :
  sha256base64 sha s = sha256base64 sha s'
  <-> sha (TextEncoder_encode s) = sha (TextEncoder_encode s').
Proof.
  unfold sha256base64. split; [apply b64_inj|congruence].
Qed.

Lemma signature_follows_mac hmac key m m' :
  key <> [] ->
  hmacSha256Base64 hmac key m = hmacSha256Base64 hmac key m'
  <-> hmac (TextEncoder_encode key) (TextEncoder_encode m)
      = hmac (TextEncoder_encode key) (TextEncoder_encode m').
Proof.
  intros Hk. rewrite !hmacSha256Base64_key.
  destruct key as [|c t]; [contradiction|].
  split; [|congruence]. intros H. injection H as H. now apply b64_inj.
Qed.

(** Signing has no input other than the key, the timestamp and the
    payload: with the same key and the same clock, two payloads with the
    same serialization are sent with the same headers. *)
Lemma signed_call_deterministic stringify sha hmac e w w' payload payload' :
  now_iso w = now_iso w' -> stringify payload = stringify payload' ->
  signed_call stringify sha hmac e w payload
  = signed_call stringify sha hmac e w' payload'.
Proof. intros Hc Hp. unfold signed_call. now rewrite Hc, Hp. Qed.

(* ===================================================================== *)
(** * The quantity of a Number that is zero or negative *)
(* ===================================================================== *)

Local Open Scope Z_scope.

Lemma pow10_pos j : 0 < 10 ^ j \/ j < 0.
Proof.
  destruct (Z.lt_ge_cases j 0); [now right|left].
  apply Z.pow_pos_nonneg; lia.
Qed.

(** The decade of a positive canonical magnitude is found, at 309 at
    most. *)
Lemma decade_found m e :
  canonical (Fin false m e) -> 0 < m ->
  decade (units m e) <= 309
  /\ lt_pow10 (units m e) (decade (units m e)) = true.
Proof.
  intros Hc Hm. pose proof U_pos as HU.
  destruct (canonical_units _ _ _ Hc) as (Hm' & HK & _ & He).
  assert (Hb : lt_pow10 (units m e) 309 = true).
  { unfold lt_pow10. destruct (Z.leb_spec 0 309); [|lia]. apply Z.ltb_lt.
    unfold units.
    assert (2 ^ (e + 1074) <= 2 ^ 2045) by (apply Z.pow_le_mono_r; lia).
    assert (0 < 2 ^ (e + 1074)) by (apply Z.pow_pos_nonneg; lia).
    assert (E : 2 ^ 53 * 2 ^ 2045 < 10 ^ 309 * U) by (vm_compute; reflexivity).
    nia. }
  unfold decade.
  destruct (decade_from_bounds (units m e) 309 640 (-330)
              ltac:(lia) Hb ltac:(lia)) as ((_ & H1) & H2).
  split; assumption.
Qed.

(** Below its decade, a magnitude scaled to [k] digits has at most [k]
    digits. *)
Lemma scaled_floor_bound V n k :
  0 <= V -> 1 <= k -> lt_pow10 V n = true ->
  0 <= scaled_floor V (k - n) < 10 ^ k.
Proof.
  intros HV Hk Hlt. pose proof U_pos as HU.
  assert (Hk10 : 0 < 10 ^ k) by (apply Z.pow_pos_nonneg; lia).
  unfold lt_pow10 in Hlt. unfold scaled_floor.
  destruct (Z.leb_spec 0 n) as [Hn|Hn]; apply Z.ltb_lt in Hlt.
  - assert (Hn10 : 0 < 10 ^ n) by (apply Z.pow_pos_nonneg; lia).
    destruct (Z.leb_spec 0 (k - n)) as [Hj|Hj].
    + assert (Hj10 : 0 < 10 ^ (k - n)) by (apply Z.pow_pos_nonneg; lia).
      split; [apply Z.div_pos; nia|].
      apply Z.div_lt_upper_bound; [lia|].
      assert (E : 10 ^ k = 10 ^ n * 10 ^ (k - n)).
      { rewrite <- Z.pow_add_r by lia. f_equal. lia. }
      rewrite E. nia.
    + assert (Hj10 : 0 < 10 ^ (- (k - n))) by (apply Z.pow_pos_nonneg; lia).
      split; [apply Z.div_pos; nia|].
      apply Z.div_lt_upper_bound; [nia|].
      assert (E : 10 ^ n = 10 ^ (- (k - n)) * 10 ^ k).
      { rewrite <- Z.pow_add_r by lia. f_equal. lia. }
      rewrite E in Hlt. nia.
  - assert (Hn10 : 0 < 10 ^ (- n)) by (apply Z.pow_pos_nonneg; lia).
    destruct (Z.leb_spec 0 (k - n)) as [Hj|Hj]; [|lia].
    split.
    + apply Z.div_pos; [|lia]. apply Z.mul_nonneg_nonneg; [lia|].
      apply Z.pow_nonneg. lia.
    + apply Z.div_lt_upper_bound; [lia|].
      assert (E : 10 ^ (k - n) = 10 ^ (- n) * 10 ^ k).
      { rewrite <- Z.pow_add_r by lia. f_equal. lia. }
      rewrite E. nia.
Qed.

(** The digits the search returns have at most the length it returns. *)
Lemma shortest_bound x V n :
  0 <= V -> lt_pow10 V n = true ->
  forall fuel k, 1 <= k ->
    let '(s, k', n') := shortest fuel k x V n in
    1 <= k' /\ 0 <= s <= 10 ^ k' /\ n <= n' <= n + 1.
Proof.
  intros HV Hlt. induction fuel as [|fuel IH]; intros k Hk;
    pose proof (scaled_floor_bound V n k HV Hk Hlt) as Hlo;
    cbn [shortest].
  - split; [lia|]. split; lia.
  - set (lo := scaled_floor V (k - n)) in *.
    assert (Hcarry :
      let '(s, k', n') :=
        (if lo + 1 =? 10 ^ k then (10 ^ (k - 1), k, n + 1) else (lo + 1, k, n)) in
      1 <= k' /\ 0 <= s <= 10 ^ k' /\ n <= n' <= n + 1).
    { destruct (Z.eqb_spec (lo + 1) (10 ^ k)).
      - split; [lia|]. split; [|lia].
        assert (0 < 10 ^ (k - 1)) by (apply Z.pow_pos_nonneg; lia).
        assert (10 ^ (k - 1) <= 10 ^ k) by (apply Z.pow_le_mono_r; lia). lia.
      - split; [lia|]. split; lia. }
    destruct (f64_eqb _ x); destruct (f64_eqb _ x); cbn [andb];
      try destruct (prefer_low _ _ _); try exact Hcarry;
      try (split; [lia|]; split; lia).
    specialize (IH (k + 1) ltac:(lia)).
    destruct (shortest fuel (k + 1) x V n) as [[s k'] n']. exact IH.
Qed.

Lemma digits_value_lt ds :
  digits_value ds < 10 ^ Z.of_nat (length ds) \/ ~ all_digits ds.
Proof.
  induction ds as [|c t IH] using rev_ind.
  - left. reflexivity.
  - destruct IH as [IH|IH].
    + destruct (is_digit c) eqn:Hc.
      * left. rewrite digits_value_app, length_app, Nat2Z.inj_add.
        cbn [length]. rewrite Z.pow_add_r by lia.
        change (10 ^ Z.of_nat 1) with 10.
        assert (digits_value [c] <= 9).
        { unfold digits_value, digit_value. cbn [fold_left].
          apply is_digit_cases in Hc. lia. }
        lia.
      * right. intros H. apply Forall_app in H. destruct H as [_ H].
        inversion H; subst. congruence.
    + right. intros H. apply Forall_app in H. now destruct H.
Qed.

Lemma digits_value_bound ds :
  all_digits ds -> 0 <= digits_value ds < 10 ^ Z.of_nat (length ds).
Proof.
  intros H. split; [apply digits_value_nonneg|].
  destruct (digits_value_lt ds); [assumption|contradiction].
Qed.

Lemma firstn_nonnil (n : nat) (ds : jsstring) :
  (1 <= n)%nat -> ds <> [] -> firstn n ds <> [].
Proof. destruct n, ds; simpl; (lia || congruence). Qed.

Lemma all_digits_zeros j : all_digits (zeros j).
Proof.
  apply Forall_forall. intros c Hc. apply repeat_spec in Hc. now subst.
Qed.

(** Every layout of [Number::toString] starts with digits, and the
    digits before the first other character are worth [10^21] at most. *)
Lemma layout_head k s n :
  1 <= k -> 0 <= s <= 10 ^ k ->
  exists p r,
    span is_digit (layout k (decimal_digits s) n) = (p, r)
    /\ p <> [] /\ 0 <= digits_value p <= 10 ^ 21.
Proof.
  intros Hk Hs.
  set (ds := decimal_digits s).
  assert (Hd : all_digits ds) by apply decimal_digits_digits.
  assert (Hne : ds <> []) by apply decimal_digits_nonnil.
  assert (Hv : digits_value ds = s) by (apply digits_value_decimal; lia).
  assert (Hk10 : 0 < 10 ^ k) by (apply Z.pow_pos_nonneg; lia).
  unfold layout.
  destruct ((k <=? n) && (n <=? 21)) eqn:C1.
  { apply andb_true_iff in C1. destruct C1 as [C1 C2].
    apply Z.leb_le in C1, C2.
    exists (ds ++ zeros (n - k)), []. split; [|split].
    - apply span_digits_all, all_digits_app; [exact Hd|apply all_digits_zeros].
    - intros E. apply app_eq_nil in E. now destruct E.
    - rewrite digits_value_app, Hv. unfold zeros.
      rewrite !digits_value_zeros, repeat_length, Z2Nat.id by lia.
      assert (0 < 10 ^ (n - k)) by (apply Z.pow_pos_nonneg; lia).
      assert (E : 10 ^ n = 10 ^ k * 10 ^ (n - k)).
      { rewrite <- Z.pow_add_r by lia. f_equal. lia. }
      assert (10 ^ n <= 10 ^ 21) by (apply Z.pow_le_mono_r; lia).
      assert (s * 10 ^ (n - k) <= 10 ^ k * 10 ^ (n - k))
        by (apply Z.mul_le_mono_nonneg_r; lia).
      assert (0 <= s * 10 ^ (n - k)) by (apply Z.mul_nonneg_nonneg; lia).
      lia. }
  destruct ((0 <? n) && (n <=? 21)) eqn:C2.
  { apply andb_true_iff in C2. destruct C2 as [C2 C3].
    apply Z.ltb_lt in C2. apply Z.leb_le in C3.
    exists (firstn (Z.to_nat n) ds), (46%N :: skipn (Z.to_nat n) ds).
    split; [|split].
    - change (str ".") with [46%N]. cbn [app].
      apply span_digits; [now apply firstn_Forall_keep|reflexivity].
    - apply firstn_nonnil; [lia|exact Hne].
    - pose proof (digits_value_bound (firstn (Z.to_nat n) ds)
                    (firstn_Forall_keep _ _ _ Hd)) as Hb.
      assert (Z.of_nat (length (firstn (Z.to_nat n) ds)) <= n).
      { rewrite length_firstn. lia. }
      assert (10 ^ Z.of_nat (length (firstn (Z.to_nat n) ds)) <= 10 ^ 21)
        by (apply Z.pow_le_mono_r; lia).
      lia. }
  destruct ((-6 <? n) && (n <=? 0)) eqn:C3.
  { exists [48%N], (46%N :: zeros (- n) ++ ds).
    split; [reflexivity|]. split; [discriminate|]. vm_compute. split; discriminate. }
  destruct (Z.eqb_spec k 1) as [E1|E1].
  - exists ds, (str "e" ++ (if 0 <=? n - 1 then str "+" else str "-")
                  ++ decimal_digits (Z.abs (n - 1))).
    split; [|split].
    + change (str "e") with [101%N]. cbn [app].
      apply span_digits; [exact Hd|reflexivity].
    + exact Hne.
    + rewrite Hv. subst k. change (10 ^ 1) with 10 in Hs.
      assert (10 <= 10 ^ 21) by (vm_compute; discriminate). lia.
  - exists (firstn 1 ds),
      (46%N :: skipn 1 ds ++ str "e" ++ (if 0 <=? n - 1 then str "+" else str "-")
                  ++ decimal_digits (Z.abs (n - 1))).
    split; [|split].
    + change (str ".") with [46%N]. cbn [app].
      apply span_digits; [now apply firstn_Forall_keep|reflexivity].
    + apply firstn_nonnil; [lia|exact Hne].
    + pose proof (digits_value_bound (firstn 1 ds)
                    (firstn_Forall_keep _ _ _ Hd)) as Hb.
      assert (Z.of_nat (length (firstn 1 ds)) <= 1).
      { rewrite length_firstn. lia. }
      assert (10 ^ Z.of_nat (length (firstn 1 ds)) <= 10 ^ 21)
        by (apply Z.pow_le_mono_r; lia).
      lia.
Qed.

(** A rational below [2^1023] rounds to a finite Number. *)
Lemma f64_of_rat_finite neg p q :
  0 < p -> 0 < q -> p * U < 2 ^ 53 * q * 2 ^ 2044 ->
  exists m e, f64_of_rat neg p q = Fin neg m e.
Proof.
  intros Hp Hq Hb. pose proof U_pos as HU.
  rewrite f64_of_rat_unfold by lia.
  destruct (binade_spec (p * U) q ltac:(nia) Hq) as (Hk & _ & Hlo).
  set (k := binade (p * U) q) in *.
  assert (Hk' : k <= 2044).
  { destruct Hlo as [E|Hlo]; [lia|].
    destruct (Z.le_gt_cases k 2044) as [|Hgt]; [assumption|exfalso].
    assert (2 ^ 2044 <= 2 ^ (k - 1)) by (apply Z.pow_le_mono_r; lia).
    nia. }
  destruct (_ =? _); [destruct (Z.ltb_spec 2045 (k + 1))
                     |destruct (Z.ltb_spec 2045 k)]; try lia; eauto.
Qed.

Lemma clamp_nonpositive s m e :
  signed_units s m e <= 0 ->
  Math_min (Math_max (Fin s m e) qty_min) qty_max = qty_min.
Proof.
  intros H. pose proof U_pos as HU.
  assert (E : Math_max (Fin s m e) qty_min = qty_min).
  { unfold Math_max, f64_compare, qty_min.
    change (signed_units false 4503599627370496 (-52)) with U.
    destruct (Z.compare_spec (signed_units s m e) U); try reflexivity; lia. }
  rewrite E. reflexivity.
Qed.

(** A numeric quantity that is zero or negative becomes the quantity 1:
    its string form starts, after the sign, with digits, which
    [parseInt] reads as a finite integer that is not positive. *)
Lemma toInt_nonpositive {stack : Stack} x :
  canonical x -> isFinite x = true -> f64_le x zero = true ->
  toInt (JNum x) qty_min qty_max = Normal qty_min.
Proof.
  intros Hc Hf Hle. pose proof U_pos as HU.
  destruct x as [| |s m e]; try discriminate.
  rewrite f64_le_fin in Hle by reflexivity. apply Z.leb_le in Hle.
  change (su zero) with 0 in Hle. cbn [su] in Hle.
  destruct (canonical_units _ _ _ Hc) as (Hm & HK & _).
  assert (Hp : 0 < 2 ^ (e + 1074)) by (apply Z.pow_pos_nonneg; lia).
  unfold toInt. cbn [ToString ToString_with bind]. unfold Number_toString.
  destruct (Z.eqb_spec m 0) as [E0|E0].
  { vm_compute. reflexivity. }
  assert (Hs : s = true).
  { destruct s; [reflexivity|]. unfold signed_units, units in Hle. nia. }
  subst s. change (str "-") with [45%N]. cbn [app].
  unfold toString_pos.
  destruct (decade_found m e Hc ltac:(lia)) as (_ & Hdec).
  pose proof (shortest_bound (Fin false m e) (units m e) (decade (units m e))
                ltac:(apply units_nonneg; lia) Hdec 800 1 ltac:(lia)) as Hsh.
  destruct (shortest 800 1 (Fin false m e) (units m e) (decade (units m e)))
    as [[d k] n].
  cbv beta iota.
  destruct Hsh as (Hk & Hd & _).
  destruct (layout_head k d n Hk Hd) as (p & r & Hspan & Hne & Hv).
  match goal with
  | |- context [parseInt10 ?t] =>
      assert (Hparse : parseInt10 t = f64_of_rat true (digits_value p) 1)
  end.
  { unfold parseInt10, trimStart. cbn [skip_run].
    change (is_js_space 45%N) with false. cbn [strip_sign].
    rewrite Hspan. destruct p; [contradiction|reflexivity]. }
  rewrite Hparse.
  destruct (Z.eq_dec (digits_value p) 0) as [Ez|Ez].
  - rewrite Ez. vm_compute. reflexivity.
  - destruct (f64_of_rat_finite true (digits_value p) 1) as (m' & e' & Hq);
      try lia.
    { assert (10 ^ 21 * U < 2 ^ 53 * 1 * 2 ^ 2044) by (vm_compute; reflexivity).
      nia. }
    rewrite Hq. cbn [isFinite negb].
    rewrite clamp_nonpositive; [reflexivity|].
    pose proof (f64_of_rat_canonical true (digits_value p) 1 ltac:(lia) ltac:(lia)) as Hcq.
    rewrite Hq in Hcq. destruct (canonical_units _ _ _ Hcq) as (Hm'' & _).
    pose proof (units_nonneg m' e' ltac:(lia)). unfold signed_units. lia.
Qed.

(** Two rows used as examples: a numeric quantity of zero, and a
    quantity that is not a number. *)
Definition row_qty (q : value) : value :=
  JObj [(str "timestamp", JStr (str "t")); (str "item", JStr (str "Tea"));
        (str "qty", q)].

Definition sanitized_tea (q : f64) : value :=
  JObj [(str "timestamp", JStr (str "t"));
        (str "item_name", JStr (str "Tea"));
        (str "qty", JNum q);
        (str "subtotal_usd", JStr (str "0.00"));
        (str "vat_usd", JStr (str "0.00"));
        (str "total_usd", JStr (str "0.00"));
        (str "currency", JStr (str "USD"));
        (str "iva_rate", JNum IVA_RATE)].

(** C10: when the string form of the raw quantity parses to a finite
    integer, [toInt(v, 1, 9999)] lies in [1, 9999] and the test
    [qty <= 0] fails, so the row is not rejected for its quantity; in
    particular every finite Number that is zero or negative becomes the
    quantity 1.  When the parse is not finite, [toInt] returns 0 and the
    test [qty <= 0] succeeds: this is the only way a quantity rejects a
    row. *)
Theorem toInt_qty_clamped {stack : Stack} :
  (forall v s, ToString v = Normal s ->
     (isFinite (parseInt10 s) = true ->
        exists q, toInt v qty_min qty_max = Normal q
          /\ f64_le qty_min q = true /\ f64_le q qty_max = true
          /\ f64_le q zero = false)
     /\ (isFinite (parseInt10 s) = false ->
        toInt v qty_min qty_max = Normal zero /\ f64_le zero zero = true))
  /\ (forall r vq s, text_and_money_ok r ->
        get r "qty" = Normal vq -> ToString vq = Normal s ->
        (isFinite (parseInt10 s) = true ->
           exists row, normalize_row r = Normal (inr row))
        /\ (isFinite (parseInt10 s) = false ->
           exists hint, normalize_row r =
             Normal (inl (json [(str "ok", JBool false);
                                (str "error", JStr (str "invalid_row"));
                                (str "hint", hint)] 422))))
  /\ (forall x, canonical x -> isFinite x = true -> f64_le x zero = true ->
        toInt (JNum x) qty_min qty_max = Normal qty_min)
  /\ toInt (JNum zero) qty_min qty_max = Normal qty_min
  /\ toInt (JNum (f64_of_Z (-7))) qty_min qty_max = Normal qty_min
  /\ normalize_row (row_qty (JNum zero)) = Normal (inr (sanitized_tea qty_min))
  /\ normalize_row (row_qty (JNum (f64_of_Z (-7))))
       = Normal (inr (sanitized_tea qty_min)).
Proof.
  split; [|split; [|split; [|split; [|split; [|split]]]]].
  - intros v s Hs. split; intros Hf.
    + destruct (@qty_in_range _ v s Hs Hf) as (q & H1 & _ & H2 & H3 & H4).
      exists q. auto.
    + split; [exact (@toInt_not_finite _ v s qty_min qty_max Hs Hf)|reflexivity].
  - intros r vq s. apply normalize_row_qty.
  - exact toInt_nonpositive.
  - vm_compute. reflexivity.
  - vm_compute. reflexivity.
  - vm_compute. reflexivity.
  - vm_compute. reflexivity.
Qed.

Lemma toInt_qty_clamped_witness :
  (exists q, toInt (JStr (str "2")) qty_min qty_max = Normal q
     /\ f64_le qty_min q = true /\ f64_le q qty_max = true
     /\ f64_le q zero = false)
  /\ (toInt (JStr (str "abc")) qty_min qty_max = Normal zero
      /\ f64_le zero zero = true).
Proof.
  split.
  - apply (proj1 (proj1 toInt_qty_clamped (JStr (str "2")) (str "2") eq_refl)).
    vm_compute. reflexivity.
  - apply (proj2 (proj1 toInt_qty_clamped (JStr (str "abc")) (str "abc") eq_refl)).
    vm_compute. reflexivity.
Defined.

(* ===================================================================== *)
(** * Amounts from [10^21] on *)
(* ===================================================================== *)

(** The search for the decade passes no exponent that already bounds the
    magnitude. *)
Lemma decade_from_least V : forall fuel start j,
  start <= j < decade_from fuel start V -> lt_pow10 V j = false.
Proof.
  induction fuel as [|fuel IH]; intros start j Hj; cbn [decade_from] in Hj;
    [lia|].
  destruct (lt_pow10 V start) eqn:Hlt; [lia|].
  destruct (Z.eq_dec j start) as [->|Hne]; [exact Hlt|].
  apply (IH (start + 1)). lia.
Qed.

Lemma decade_large V :
  10 ^ 21 * U <= V -> lt_pow10 V (decade V) = true ->
  22 <= decade V /\ lt_pow10 V (decade V - 1) = false.
Proof.
  intros HV Hlt. pose proof U_pos as HU.
  assert (Hn : 22 <= decade V).
  { destruct (Z.le_gt_cases 22 (decade V)) as [|Hn]; [assumption|exfalso].
    unfold lt_pow10 in Hlt. destruct (Z.leb_spec 0 (decade V)).
    - apply Z.ltb_lt in Hlt.
      assert (10 ^ decade V <= 10 ^ 21) by (apply Z.pow_le_mono_r; lia).
      nia.
    - apply Z.ltb_lt in Hlt.
      assert (0 < 10 ^ (- decade V)) by (apply Z.pow_pos_nonneg; lia).
      assert (1 <= 10 ^ 21) by (vm_compute; discriminate).
      nia. }
  split; [exact Hn|].
  unfold decade in *. apply (decade_from_least V 640 (-330)). lia.
Qed.

(** Between the powers of ten around it, a magnitude scaled to [k]
    digits has exactly [k] digits. *)
Lemma scaled_floor_digits V n k :
  0 <= V -> 1 <= k ->
  lt_pow10 V (n - 1) = false -> lt_pow10 V n = true ->
  10 ^ (k - 1) <= scaled_floor V (k - n) < 10 ^ k.
Proof.
  intros HV Hk Hlow Hlt. pose proof U_pos as HU.
  split; [|apply (scaled_floor_bound V n k HV Hk Hlt)].
  assert (Hk10 : 0 < 10 ^ (k - 1)) by (apply Z.pow_pos_nonneg; lia).
  unfold lt_pow10 in Hlow. unfold scaled_floor.
  destruct (Z.leb_spec 0 (n - 1)) as [Hn|Hn]; apply Z.ltb_ge in Hlow.
  - assert (Hn10 : 0 < 10 ^ (n - 1)) by (apply Z.pow_pos_nonneg; lia).
    destruct (Z.leb_spec 0 (k - n)) as [Hj|Hj].
    + assert (Hj10 : 0 < 10 ^ (k - n)) by (apply Z.pow_pos_nonneg; lia).
      apply Z.div_le_lower_bound; [lia|].
      assert (E : 10 ^ (k - 1) = 10 ^ (n - 1) * 10 ^ (k - n)).
      { rewrite <- Z.pow_add_r by lia. f_equal. lia. }
      rewrite E. nia.
    + assert (Hj10 : 0 < 10 ^ (- (k - n))) by (apply Z.pow_pos_nonneg; lia).
      apply Z.div_le_lower_bound; [nia|].
      assert (E : 10 ^ (n - 1) = 10 ^ (k - 1) * 10 ^ (- (k - n))).
      { rewrite <- Z.pow_add_r by lia. f_equal. lia. }
      rewrite E in Hlow. nia.
  - assert (Hn10 : 0 < 10 ^ (- (n - 1))) by (apply Z.pow_pos_nonneg; lia).
    destruct (Z.leb_spec 0 (k - n)) as [Hj|Hj]; [|lia].
    apply Z.div_le_lower_bound; [lia|].
    assert (E : 10 ^ (k - n) = 10 ^ (- (n - 1)) * 10 ^ (k - 1)).
    { rewrite <- Z.pow_add_r by lia. f_equal. lia. }
    rewrite E. nia.
Qed.

(** The search returns [k'] digits exactly. *)
Lemma shortest_digits x V n :
  0 <= V -> lt_pow10 V (n - 1) = false -> lt_pow10 V n = true ->
  forall fuel k, 1 <= k ->
    let '(s, k', n') := shortest fuel k x V n in
    1 <= k' /\ 10 ^ (k' - 1) <= s < 10 ^ k' /\ n <= n' <= n + 1.
Proof.
  intros HV Hlow Hlt. induction fuel as [|fuel IH]; intros k Hk;
    pose proof (scaled_floor_digits V n k HV Hk Hlow Hlt) as Hlo;
    cbn [shortest].
  - split; [lia|]. split; lia.
  - set (lo := scaled_floor V (k - n)) in *.
    assert (Hcarry :
      let '(s, k', n') :=
        (if lo + 1 =? 10 ^ k then (10 ^ (k - 1), k, n + 1) else (lo + 1, k, n)) in
      1 <= k' /\ 10 ^ (k' - 1) <= s < 10 ^ k' /\ n <= n' <= n + 1).
    { destruct (Z.eqb_spec (lo + 1) (10 ^ k)).
      - split; [lia|]. split; [|lia]. lia.
      - split; [lia|]. split; lia. }
    destruct (f64_eqb _ x); destruct (f64_eqb _ x); cbn [andb];
      try destruct (prefer_low _ _ _); try exact Hcarry;
      try (split; [lia|]; split; lia).
    specialize (IH (k + 1) ltac:(lia)).
    destruct (shortest fuel (k + 1) x V n) as [[s k'] n']. exact IH.
Qed.

(** The decimal representation of a positive number starts with a digit
    that is not zero. *)
Lemma to_uint_head n :
  (0 < n)%N ->
  match N.to_uint n with
  | Decimal.Nil | Decimal.D0 _ => False
  | _ => True
  end.
Proof.
  intros Hn.
  pose proof (DecimalN.Unsigned.to_of (N.to_uint n)) as H.
  rewrite DecimalN.Unsigned.of_to in H.
  destruct (N.to_uint n) as [|u| | | | | | | | |] eqn:E; try exact I.
  - apply (f_equal N.of_uint) in E. rewrite DecimalN.Unsigned.of_to in E.
    subst n. discriminate Hn.
  - rewrite unorm_D0 in H. unfold Decimal.unorm in H.
    destruct (Decimal.nzhead u) eqn:Hz; try discriminate H;
      [|now apply nzhead_nonzero in Hz].
    injection H as ->.
    apply (f_equal N.of_uint) in E. rewrite DecimalN.Unsigned.of_to in E.
    subst n. discriminate Hn.
Qed.

Lemma decimal_digits_head s :
  0 < s ->
  exists c t, decimal_digits s = c :: t /\ 1 <= digit_value c.
Proof.
  intros Hs. unfold decimal_digits.
  pose proof (to_uint_head (Z.to_N s) ltac:(lia)) as H.
  destruct (N.to_uint (Z.to_N s)); try contradiction;
    cbn [digits_of_uint]; eexists _, _; (split; [reflexivity|]);
    vm_compute; discriminate.
Qed.

Lemma decimal_digits_length s k :
  1 <= k -> 10 ^ (k - 1) <= s < 10 ^ k ->
  Z.of_nat (length (decimal_digits s)) = k.
Proof.
  intros Hk Hs.
  assert (Hpos : 0 < s).
  { assert (0 < 10 ^ (k - 1)) by (apply Z.pow_pos_nonneg; lia). lia. }
  pose proof (decimal_digits_digits s) as Hd.
  pose proof (digits_value_decimal s ltac:(lia)) as Hv.
  pose proof (digits_value_bound _ Hd) as Hb.
  destruct (decimal_digits_head s Hpos) as (c & t & E & Hc).
  rewrite E in *. 
  assert (Hlow : 10 ^ Z.of_nat (length t) <= s).
  { change (c :: t) with ([c] ++ t) in Hv. rewrite digits_value_app in Hv.
    inversion Hd as [|? ? _ Ht]; subst.
    pose proof (digits_value_nonneg t).
    assert (E1 : digits_value [c] = digit_value c).
    { unfold digits_value. cbn [fold_left]. lia. }
    rewrite E1 in *.
    assert (0 < 10 ^ Z.of_nat (length t)) by (apply Z.pow_pos_nonneg; lia).
    nia. }
  cbn [length] in *. rewrite Nat2Z.inj_succ in *.
  set (l := Z.of_nat (length t)) in *.
  assert (Hl : 0 <= l) by (unfold l; lia).
  rewrite Hv in Hb.
  destruct (Z.lt_trichotomy (Z.succ l) k) as [H|[H|H]]; [exfalso|exact H|exfalso].
  - assert (10 ^ Z.succ l <= 10 ^ (k - 1)) by (apply Z.pow_le_mono_r; lia). lia.
  - assert (10 ^ k <= 10 ^ l) by (apply Z.pow_le_mono_r; lia). lia.
Qed.

(** A whole number that is a normal Number is its own rounding. *)
Lemma f64_of_rat_normal_whole m e :
  2 ^ 52 <= m < 2 ^ 53 -> 0 <= e <= 971 ->
  f64_of_rat false (m * 2 ^ e) 1 = Fin false m e.
Proof.
  intros Hm He.
  assert (0 < 2 ^ e) by (apply Z.pow_pos_nonneg; lia).
  assert (0 < 2 ^ (e + 1074)) by (apply Z.pow_pos_nonneg; lia).
  assert (E : units m e * 1 - m * 2 ^ e * U = 0).
  { unfold units, U. rewrite Z.pow_add_r by lia. ring. }
  apply f64_of_rat_nearest; [nia|lia|exact Hm|lia| |lia].
  rewrite E. change (Z.abs (2 * 0)) with 0. lia.
Qed.

Lemma exponent_part_plus E :
  all_digits E -> E <> [] ->
  exponent_part (101%N :: 43%N :: E) = digits_value E.
Proof.
  intros Hd Hne. cbn [exponent_part].
  change ((101 =? 101)%N || (101 =? 69)%N) with true. cbv beta iota.
  cbn [strip_sign]. rewrite (span_digits_all E Hd).
  destruct E; [contradiction|reflexivity].
Qed.

(** Reading back digits and an exponent. *)
Lemma parseFloat_exp ip E :
  all_digits ip -> ip <> [] -> all_digits E -> E <> [] ->
  parseFloat (ip ++ 101%N :: 43%N :: E)
  = f64_of_decimal false (digits_value ip) (digits_value E).
Proof.
  intros Hi Hne HE HEne. destruct ip as [|c ip']; [contradiction|].
  inversion Hi as [|? ? Hc Hi']; subst.
  unfold parseFloat. cbn [app].
  rewrite (trimStart_digit c _ Hc), (strip_sign_digit c _ Hc).
  rewrite (starts_with_Infinity_digit c _ Hc).
  change (c :: ip' ++ 101%N :: 43%N :: E) with ((c :: ip') ++ 101%N :: 43%N :: E).
  rewrite (span_digits (c :: ip') (101%N :: 43%N :: E) Hi eq_refl).
  rewrite List.app_nil_r. rewrite (exponent_part_plus E HE HEne).
  cbn [length]. rewrite Z.sub_0_r. reflexivity.
Qed.

(** Reading back a digit, a point, digits and an exponent. *)
Lemma parseFloat_point_exp ip fp E :
  all_digits ip -> ip <> [] -> all_digits fp -> all_digits E -> E <> [] ->
  parseFloat (ip ++ 46%N :: fp ++ 101%N :: 43%N :: E)
  = f64_of_decimal false (digits_value (ip ++ fp))
      (digits_value E - Z.of_nat (length fp)).
Proof.
  intros Hi Hne Hf HE HEne. destruct ip as [|c ip']; [contradiction|].
  inversion Hi as [|? ? Hc Hi']; subst.
  unfold parseFloat. cbn [app].
  rewrite (trimStart_digit c _ Hc), (strip_sign_digit c _ Hc).
  rewrite (starts_with_Infinity_digit c _ Hc).
  change (c :: ip' ++ 46%N :: fp ++ 101%N :: 43%N :: E)
    with ((c :: ip') ++ 46%N :: fp ++ 101%N :: 43%N :: E).
  rewrite (span_digits (c :: ip') (46%N :: fp ++ 101%N :: 43%N :: E) Hi eq_refl).
  rewrite (span_digits fp (101%N :: 43%N :: E) Hf eq_refl).
  rewrite (exponent_part_plus E HE HEne).
  cbn [app]. reflexivity.
Qed.

Lemma layout_exponent k ds n :
  22 <= n ->
  layout k ds n
  = if k =? 1 then ds ++ 101%N :: 43%N :: decimal_digits (n - 1)
    else firstn 1 ds ++ 46%N :: skipn 1 ds
           ++ 101%N :: 43%N :: decimal_digits (n - 1).
Proof.
  intros Hn. unfold layout.
  destruct (Z.leb_spec n 21); [lia|]. rewrite !andb_false_r.
  destruct (Z.leb_spec n 0); [lia|]. rewrite !andb_false_r.
  destruct (Z.leb_spec 0 (n - 1)); [|lia].
  rewrite Z.abs_eq by lia. reflexivity.
Qed.

(** From [10^21] on, the string form of a Number (digits and an
    exponent) reads back as the same Number. *)
Lemma parseFloat_toString_large m e :
  canonical (Fin false m e) -> 10 ^ 21 * U <= units m e ->
  parseFloat (toString_pos m e) = Fin false m e.
Proof.
  intros Hc HV. pose proof U_pos as HU.
  destruct (canonical_units _ _ _ Hc) as (Hm & HK & Hnorm & He).
  assert (He0 : 0 <= e).
  { destruct (Z.le_gt_cases 0 e) as [|Hneg]; [assumption|exfalso].
    assert (2 ^ (e + 1074) <= 2 ^ 1073) by (apply Z.pow_le_mono_r; lia).
    assert (0 < 2 ^ (e + 1074)) by (apply Z.pow_pos_nonneg; lia).
    assert (2 ^ 53 * 2 ^ 1073 < 10 ^ 21 * U) by (vm_compute; reflexivity).
    unfold units in HV. nia. }
  assert (Hm52 : 2 ^ 52 <= m) by (apply Hnorm; lia).
  set (N := m * 2 ^ e).
  assert (EV : units m e = N * U).
  { unfold units, U, N. rewrite Z.pow_add_r by lia. ring. }
  assert (HN : 0 < N).
  { unfold N. assert (0 < 2 ^ e) by (apply Z.pow_pos_nonneg; lia). nia. }
  assert (Hx : f64_of_rat false N 1 = Fin false m e)
    by (apply f64_of_rat_normal_whole; lia).
  destruct (decade_found m e Hc ltac:(lia)) as (Hup & Hdec).
  destruct (decade_large _ HV Hdec) as (Hn22 & Hlow).
  pose proof (shortest_digits (Fin false m e) (units m e) (decade (units m e))
                ltac:(lia) Hlow Hdec 800 1 ltac:(lia)) as Hdig.
  unfold toString_pos.
  rewrite EV in *.
  pose proof (shortest_whole N (Fin false m e) (decade (N * U)) HN Hx 800 1
                ltac:(lia) ltac:(lia)) as Hwh.
  destruct (shortest 800 1 (Fin false m e) (N * U) (decade (N * U)))
    as [[s k] n].
  destruct Hdig as (Hk & Hs & Hn). destruct Hwh as (_ & Hkn & _ & Hr).
  rewrite layout_exponent by lia.
  assert (Hs0 : 0 <= s).
  { assert (0 < 10 ^ (k - 1)) by (apply Z.pow_pos_nonneg; lia). lia. }
  pose proof (decimal_digits_digits s) as Hd.
  pose proof (decimal_digits_nonnil s) as Hne.
  pose proof (decimal_digits_length s k Hk Hs) as Hlen.
  pose proof (decimal_digits_digits (n - 1)) as HE.
  pose proof (decimal_digits_nonnil (n - 1)) as HEne.
  destruct (Z.eqb_spec k 1) as [E1|E1].
  - rewrite parseFloat_exp by assumption.
    rewrite !digits_value_decimal by lia.
    unfold f64_of_decimal. destruct (Z.leb_spec 0 (n - 1)); [|lia].
    rewrite E1 in Hr. exact Hr.
  - rewrite parseFloat_point_exp;
      [|now apply firstn_Forall_keep|apply firstn_nonnil; [lia|exact Hne]
       |now apply skipn_Forall_keep|assumption|assumption].
    rewrite firstn_skipn, !digits_value_decimal by lia.
    rewrite length_skipn.
    assert (EE : n - 1 - Z.of_nat (length (decimal_digits s) - 1) = n - k).
    { clear - Hlen Hk. unfold codeunit in *. lia. }
    rewrite EE.
    unfold f64_of_decimal. destruct (Z.leb_spec 0 (n - k)); [|lia].
    exact Hr.
Qed.

(** From [10^21] on, [toFixed] is [Number::toString]. *)
Lemma toFixed2_large m e :
  10 ^ 21 * U <= units m e -> toFixed2 (Fin false m e) = toString_pos m e.
Proof.
  intros H. pose proof U_pos as HU. unfold toFixed2. cbv zeta. cbn [andb].
  destruct (Z.leb_spec (10 ^ 21 * U) (units m e)) as [_|]; [|lia].
  rewrite List.app_nil_l. unfold Number_toString.
  destruct (Z.eqb_spec m 0) as [->|_]; [unfold units in H; lia|].
  apply List.app_nil_l.
Qed.

Lemma toMoney_finite {stack : Stack} sv m e :
  parseFloat sv = Fin false m e -> 0 <= units m e ->
  toMoney (JStr sv) = Normal (toFixed2 (Fin false m e)).
Proof.
  intros Hp HV. unfold toMoney. cbn [ToString ToString_with bind]. rewrite Hp.
  cbn [isFinite negb orb]. rewrite f64_lt_fin by reflexivity.
  change (su zero) with 0. cbn [su signed_units].
  destruct (Z.ltb_spec (units m e) 0) as [|_]; [lia|]. reflexivity.
Qed.

(** [toMoney] applied to its own output. *)
Lemma toMoney_idempotent {stack : Stack} v s :
  toMoney v = Normal s -> toMoney (JStr s) = Normal s.
Proof.
  intros H. pose proof U_pos as HU.
  destruct (ToString v) as [sv|] eqn:Hs;
    [|unfold toMoney in H; rewrite Hs in H; discriminate].
  destruct (isFinite (parseFloat sv)) eqn:Hfin.
  2:{ apply (toMoney_twice v s H). intros sv' Hs' Hf. congruence. }
  destruct (f64_lt (parseFloat sv) e21) eqn:Hlt.
  { apply (toMoney_twice v s H). intros sv' Hs' Hf. congruence. }
  pose proof (parseFloat_canonical sv) as Hcan.
  assert (Hv : toMoney v = toMoney (JStr sv)).
  { unfold toMoney. rewrite Hs. reflexivity. }
  rewrite Hv in H. clear Hv.
  destruct (parseFloat sv) as [| |neg m e] eqn:Hp; try discriminate.
  rewrite f64_lt_fin in Hlt by reflexivity. apply Z.ltb_ge in Hlt.
  change (su e21) with (10 ^ 21 * U) in Hlt.
  cbn [su] in Hlt. unfold signed_units in Hlt.
  destruct (canonical_units _ _ _ Hcan) as (Hm & _).
  pose proof (units_nonneg m e ltac:(lia)) as HV.
  assert (Hneg : neg = false) by (destruct neg; [lia|reflexivity]).
  subst neg.
  rewrite (toMoney_finite sv m e Hp HV), (toFixed2_large m e Hlt) in H.
  injection H as <-.
  rewrite (toMoney_finite (toString_pos m e) m e
             (parseFloat_toString_large m e Hcan Hlt) HV).
  now rewrite (toFixed2_large m e Hlt).
Qed.

(* ===================================================================== *)
(** * The sanitizers applied twice *)
(* ===================================================================== *)

(** C4 as the code has it.  A second [safeText] removes the white space
    that truncation left at the end of the first result and nothing else,
    so [safeText] is idempotent whenever the sanitized text was not cut,
    and from the second application on in every case.  [toInt] with the
    bounds 1 and 9999 is idempotent on every value whose string form
    parses to a finite integer.  [toMoney] is idempotent on every value
    on which it returns, the amounts from [10^21] on included. *)
Theorem sanitizers_twice {stack : Stack} :
  (forall v m, safeText (JStr (safeText v m)) m = trimEnd (safeText v m))
  /\ (forall s m, (length (stripped s) <= m)%nat ->
        safeText (JStr (safeText (JStr s) m)) m = safeText (JStr s) m)
  /\ (forall v m,
        safeText (JStr (safeText (JStr (safeText v m)) m)) m
        = safeText (JStr (safeText v m)) m)
  /\ (forall v sv q,
        ToString v = Normal sv -> isFinite (parseInt10 sv) = true ->
        toInt v qty_min qty_max = Normal q ->
        toInt (JNum q) qty_min qty_max = Normal q)
  /\ (forall v s, toMoney v = Normal s -> toMoney (JStr s) = Normal s).
Proof.
  split; [exact safeText_twice|].
  split; [exact safeText_idempotent_untruncated|].
  split; [exact safeText_thrice|].
  split.
  - intros v sv q Hs Hf H. apply (toInt_twice v q H).
    intros sv' Hs'. congruence.
  - exact toMoney_idempotent.
Qed.

Lemma sanitizers_twice_witness :
  safeText (JStr (safeText (JStr (str " <b>Tea</b> ")) 64)) 64
    = safeText (JStr (str " <b>Tea</b> ")) 64
  /\ toInt (JNum (f64_of_Z 12)) qty_min qty_max = Normal (f64_of_Z 12)
  /\ toMoney (JStr (str "3.46")) = Normal (str "3.46")
  /\ toMoney (JStr (str "1e+21")) = Normal (str "1e+21").
Proof.
  destruct sanitizers_twice as (_ & H2 & _ & H4 & H5).
  split; [|split; [|split]].
  - apply H2. vm_compute. lia.
  - apply (H4 (JStr (str " 12 units")) (str " 12 units")).
    + reflexivity.
    + vm_compute. reflexivity.
    + vm_compute. reflexivity.
  - apply (H5 (JNum (parseFloat (str "3.456")))).
    vm_compute. reflexivity.
  - apply (H5 (JStr (str "1e21"))).
    vm_compute. reflexivity.
Defined.

(* ===================================================================== *)
(** * Further properties: the bounded reader and [concat] *)
(* ===================================================================== *)

Local Open Scope nat_scope.

(** The bytes a request body delivers. *)
Definition body_bytes (b : body) : bytes :=
  match b with
  | Stream cs | BrokenStream cs => List.concat cs
  | NoStream text => TextEncoder_encode (text_or_empty text)
  end.

Lemma readLimited_result rq maxBytes :
  fst (readLimited rq maxBytes)
  = if maxBytes <? length (body_bytes (req_body rq)) then Normal None
    else match req_body rq with
         | BrokenStream _ => Throw StreamError
         | _ => Normal (Some (body_bytes (req_body rq)))
         end.
Proof.
  unfold readLimited, body_bytes.
  destruct (req_body rq) as [cs|cs|text].
  - destruct (Nat.ltb_spec maxBytes (length (List.concat cs))) as [H|H].
    + destruct (read_loop_exceeds maxBytes cs 0 [] (Nat.le_0_l _) H)
        as (pre & c & post & _ & _ & _ & ->).
      reflexivity.
    + rewrite read_loop_within by (unfold total; simpl; lia).
      cbn [app fst]. now rewrite concat_flat.
  - destruct (Nat.ltb_spec maxBytes (length (List.concat cs))) as [H|H].
    + destruct (read_loop_exceeds maxBytes cs 0 [] (Nat.le_0_l _) H)
        as (pre & c & post & _ & _ & _ & ->).
      reflexivity.
    + rewrite read_loop_within by (unfold total; simpl; lia). reflexivity.
  - cbn [fst]. now destruct (_ <? _).
Qed.

(** X1: [readLimited] returns [null] exactly when the body delivers more
    bytes than the limit; otherwise it returns all the bytes of the body,
    in order (a body of exactly [maxBytes] bytes is accepted), and has
    read the stream to its end.  A stream that fails after delivering
    bytes within the limit makes [readLimited] throw instead of
    returning them. *)
Theorem readLimited_exact rq maxBytes :
  fst (readLimited rq maxBytes)
  = (if maxBytes <? length (body_bytes (req_body rq)) then Normal None
     else match req_body rq with
          | BrokenStream _ => Throw StreamError
          | _ => Normal (Some (body_bytes (req_body rq)))
          end)
  /\ (fst (readLimited rq maxBytes) = Normal None
      \/ snd (readLimited rq maxBytes) = []).
Proof.
  split; [apply readLimited_result|].
  assert (Hloop : forall cs chunks unread,
            read_loop maxBytes cs 0 [] = (Some chunks, unread) -> unread = []).
  { intros cs chunks unread E.
    destruct (Nat.ltb_spec maxBytes (total cs)) as [H|H].
    - destruct (read_loop_exceeds maxBytes cs 0 [] (Nat.le_0_l _) H)
        as (pre & c & post & _ & _ & _ & E'). congruence.
    - rewrite read_loop_within in E by (simpl; lia). now injection E as _ <-. }
  unfold readLimited.
  destruct (req_body rq) as [cs|cs|text]; [| |now right];
    destruct (read_loop maxBytes cs 0 []) as [[chunks|] unread] eqn:E;
    try (now left); right; apply (Hloop _ _ _ E).
Qed.

(** ** [concat] with the copies of the source *)

(** [out.set(c, off)] on a [Uint8Array]: the bytes of [c] overwrite those
    of [out] from the index [off]; a copy that does not fit throws a
    RangeError ([None]). *)
Definition Uint8Array_set (out c : bytes) (off : nat) : option bytes :=
  if length out <? off + length c then None
  else Some (firstn off out ++ c ++ skipn (off + length c) out).

(** [chunks.reduce((n, c) => n + c.byteLength, 0)] *)
Definition byte_total (chunks : list bytes) : nat :=
  fold_left (fun n c => n + length c) chunks 0.

(** The loop [for (const c of chunks) { out.set(c, off); off += c.byteLength }]. *)
Fixpoint copy_chunks (chunks : list bytes) (out : bytes) (off : nat)
  : option bytes :=
  match chunks with
  | [] => Some out
  | c :: rest =>
      match Uint8Array_set out c off with
      | Some out' => copy_chunks rest out' (off + length c)
      | None => None
      end
  end.

(** [concat(chunks)] step by step: a zero-filled array of the total
    length, filled by the copies. *)
Definition concat_by_copies (chunks : list bytes) : option bytes :=
  copy_chunks chunks (repeat x00 (byte_total chunks)) 0.

Lemma byte_total_flat chunks : byte_total chunks = length (List.concat chunks).
Proof.
  unfold byte_total.
  enough (H : forall n, fold_left (fun n c => n + length c) chunks n
                        = n + length (List.concat chunks)) by apply (H 0).
  induction chunks as [|c cs IH]; intros n; simpl; [lia|].
  rewrite IH, length_app. lia.
Qed.

Lemma copy_chunks_fills chunks : forall filled rest,
  length rest = length (List.concat chunks) ->
  copy_chunks chunks (filled ++ rest) (length filled)
  = Some (filled ++ List.concat chunks).
Proof.
  induction chunks as [|c cs IH]; intros filled rest H; simpl in *.
  - apply length_zero_iff_nil in H. now subst.
  - rewrite length_app in H. unfold Uint8Array_set.
    rewrite length_app.
    destruct (Nat.ltb_spec (length filled + length rest)
                (length filled + length c)) as [Hlt|_]; [lia|].
    rewrite firstn_app, Nat.sub_diag, firstn_all. cbn [firstn].
    rewrite List.app_nil_r.
    rewrite skipn_app, skipn_all2 by lia. cbn [app].
    replace (length filled + length c - length filled) with (length c) by lia.
    specialize (IH (filled ++ c) (skipn (length c) rest)).
    rewrite length_app, <- !List.app_assoc in IH. apply IH.
    rewrite length_skipn. lia.
Qed.

(** X2: the copies of [concat] never fall outside the array, and the
    result is the chunks one after the other: its length is the sum of
    the lengths of the chunks and it is the buffer [readLimited] returns
    for a stream that fits. *)
Theorem concat_copies_in_order chunks :
  concat_by_copies chunks = Some (List.concat chunks)
  /\ concat chunks = List.concat chunks
  /\ length (concat chunks) = byte_total chunks.
Proof.
  split; [|split].
  - unfold concat_by_copies.
    pose proof (copy_chunks_fills chunks [] (repeat x00 (byte_total chunks))) as H.
    cbn [app length] in H. apply H.
    now rewrite repeat_length, byte_total_flat.
  - apply concat_flat.
  - now rewrite concat_flat, byte_total_flat.
Qed.

(** ** The size of an encoded text *)

Lemma encode_length_bounds_aux n : forall s : list N,
  length s <= n ->
  length s <= length (TextEncoder_encode s) <= 3 * length s.
Proof.
  induction n as [|n IH]; intros s Hn.
  - destruct s; [simpl; lia|simpl in Hn; lia].
  - destruct s as [|c t]; [simpl; lia|].
    cbn [length] in Hn.
    pose proof (IH t ltac:(lia)) as Ht.
    cbn [TextEncoder_encode].
    destruct (c <? 128)%N; [clear IH; cbn [length]; lia|].
    destruct (c <? 2048)%N; [clear IH; cbn [length]; lia|].
    destruct (is_high_surrogate c).
    + destruct t as [|l t']; [clear IH; unfold utf8_replacement; cbn [length]; lia|].
      cbn [length] in *.
      pose proof (IH t' ltac:(lia)) as Ht'. clear IH.
      destruct (is_low_surrogate l).
      * cbn [length]. lia.
      * rewrite length_app. cbn [length utf8_replacement]. lia.
    + clear IH. destruct (is_low_surrogate c).
      * rewrite length_app. cbn [length utf8_replacement]. lia.
      * cbn [length]. lia.
Qed.

(** X3: the UTF-8 encoding of a text has at least as many bytes as the
    text has code units and at most three times as many; hence a body
    without a stream is rejected whenever its text has more than
    [maxBytes] code units, and accepted whenever three times its length
    is within [maxBytes]. *)
Theorem unstreamed_text_limit rq text maxBytes :
  req_body rq = NoStream (Some text) ->
  length text <= length (TextEncoder_encode text) <= 3 * length text
  /\ (maxBytes < length text -> fst (readLimited rq maxBytes) = Normal None)
  /\ (3 * length text <= maxBytes ->
      fst (readLimited rq maxBytes) = Normal (Some (TextEncoder_encode text))).
Proof.
  intros Hb.
  pose proof (encode_length_bounds_aux (length text) text (Nat.le_refl _)) as H.
  split; [exact H|].
  unfold readLimited. rewrite Hb. cbn [text_or_empty fst].
  unfold jsstring, codeunit in *.
  split; intros Hl.
  - destruct (Nat.ltb_spec maxBytes (length (TextEncoder_encode text)));
      [reflexivity|lia].
  - destruct (Nat.ltb_spec maxBytes (length (TextEncoder_encode text)));
      [lia|reflexivity].
Qed.

Definition text_request (t : jsstring) : request :=
  {| req_method := str "POST"; req_pathname := str "/api/save";
     req_header := fun _ => None; req_body := NoStream (Some t) |}.

Lemma unstreamed_text_limit_witness :
  fst (readLimited (text_request (str "[]")) 1) = Normal None
  /\ fst (readLimited (text_request (str "[]")) 6)
     = Normal (Some (TextEncoder_encode (str "[]"))).
Proof.
  pose proof (unstreamed_text_limit (text_request (str "[]")) (str "[]")) as H.
  split.
  - apply (H 1); [reflexivity|]. simpl. lia.
  - apply (H 6); [reflexivity|]. simpl. lia.
Defined.

(* ===================================================================== *)
(** * Further properties: [safeText] *)
(* ===================================================================== *)

Local Open Scope nat_scope.

Lemma safeText_length v max : length (safeText v max) <= max.
Proof.
  destruct v; try (cbn [safeText length]; lia).
  rewrite safeText_string. apply firstn_le_length.
Qed.

(** X4: whatever the value and the maximum, the text [safeText] returns
    has at most [max] code units, contains neither [<] nor [>] nor a
    control character (code units 0 to 31), and does not start with
    white space. *)
Theorem safeText_output v max :
  length (safeText v max) <= max
  /\ Forall (fun c => c <> 60 /\ c <> 62 /\ 31 < c)%N (safeText v max)
  /\ headed (safeText v max).
Proof.
  destruct v as [| |b|x|s|l|f];
    try (split; [apply safeText_length|split; [constructor|exact I]]).
  split; [apply safeText_length|]. rewrite safeText_string. split.
  - apply firstn_Forall_keep.
    eapply Forall_impl; [|apply stripped_clean].
    intros c [Ha Hc]. unfold is_angle in Ha. unfold is_ctrl in Hc.
    apply orb_false_iff in Ha. destruct Ha as [H1 H2].
    apply N.eqb_neq in H1, H2. apply N.leb_gt in Hc. auto.
  - apply firstn_headed, stripped_headed.
Qed.

(** X5: [safeText] changes nothing in a text that needs no sanitizing: a
    string without [<], [>] and control characters, with no white space
    at either end and no longer than the maximum, is returned as it is. *)
Theorem safeText_keeps_plain_text s max :
  Forall clean s -> headed s -> headed (rev s) -> length s <= max ->
  safeText (JStr s) max = s.
Proof.
  intros Hc Hh Hr Hl. rewrite safeText_string. unfold stripped.
  rewrite (strip_collapse_id _ Hc), (trim_fixed _ Hh).
  unfold trimEnd. rewrite (headed_trimStart _ Hr), rev_involutive.
  now apply firstn_all2.
Qed.

Lemma safeText_keeps_plain_text_witness :
  safeText (JStr (str "Cafe con leche")) 96 = str "Cafe con leche".
Proof.
  apply safeText_keeps_plain_text.
  - repeat constructor.
  - reflexivity.
  - reflexivity.
  - vm_compute. lia.
Defined.

(* ===================================================================== *)
(** * Further properties: [b64] *)
(* ===================================================================== *)

(** The characters of the base64 alphabet, and the padding [=]. *)
Definition is_b64 (c : codeunit) : bool :=
  (((65 <=? c) && (c <=? 90)) || ((97 <=? c) && (c <=? 122))
   || ((48 <=? c) && (c <=? 57)) || (c =? 43) || (c =? 47) || (c =? 61))%N.

Lemma b64_char_alphabet x : is_b64 (b64_char x) = true.
Proof.
  unfold is_b64, b64_char.
  destruct (N.ltb_spec x 26); [|destruct (N.ltb_spec x 52);
    [|destruct (N.ltb_spec x 62); [|destruct (N.eqb_spec x 62)]]];
  repeat match goal with
         | |- context [(?a <=? ?b)%N] => destruct (N.leb_spec a b)
         | |- context [(?a =? ?b)%N] => destruct (N.eqb_spec a b)
         end; try reflexivity; lia.
Qed.

Lemma btoa_shape : forall n s,
  length s <= n ->
  length (btoa s) = 4 * ((length s + 2) / 3)
  /\ Forall (fun c => is_b64 c = true) (btoa s).
Proof.
  induction n as [n IH] using lt_wf_ind. intros s Hn.
  destruct s as [|a [|b [|c t]]]; cbn [btoa].
  - split; [reflexivity|constructor].
  - split; [reflexivity|]. repeat constructor; apply b64_char_alphabet.
  - split; [reflexivity|]. repeat constructor; apply b64_char_alphabet.
  - cbn [length] in Hn.
    destruct (IH (length t) ltac:(lia) t (Nat.le_refl _)) as (Hl & Ha).
    split.
    + cbn [length]. rewrite Hl.
      replace (S (S (S (length t))) + 2) with (length t + 2 + 1 * 3) by lia.
      rewrite Nat.div_add by lia. lia.
    + repeat (constructor; [apply b64_char_alphabet|]). exact Ha.
Qed.

(** X6: [b64] loses nothing (two different byte arrays have different
    encodings), its result has four characters for every three bytes,
    rounded up, and consists of the letters, digits, [+], [/] and the
    padding [=] only. *)
Theorem b64_faithful :
  (forall u v, u <> v -> b64 u <> b64 v)
  /\ (forall u, length (b64 u) = 4 * ((length u + 2) / 3))
  /\ (forall u, Forall (fun c => is_b64 c = true) (b64 u)).
Proof.
  split; [|split].
  - intros u v Hne H. apply Hne. now apply b64_inj.
  - intros u. rewrite b64_as_map.
    destruct (btoa_shape _ (map Byte.to_N u) (Nat.le_refl _)) as (H & _).
    rewrite H, length_map. reflexivity.
  - intros u. rewrite b64_as_map.
    apply (btoa_shape _ (map Byte.to_N u) (Nat.le_refl _)).
Qed.

Lemma b64_faithful_witness : b64 [x01; x02] <> b64 [x01; x03].
Proof.
  apply (proj1 b64_faithful). discriminate.
Defined.

(* ===================================================================== *)
(** * Further properties: [toInt] *)
(* ===================================================================== *)

Local Open Scope Z_scope.

(** X7: for any finite bounds [min <= max] (the defaults 0 and [1e9]
    among them) and any value that has a string form, [toInt] returns a
    finite Number: one between the bounds when the string parses to a
    finite integer, and 0 otherwise, whatever the bounds. *)
Theorem toInt_within_bounds {stack : Stack} v s lo hi :
  ToString v = Normal s ->
  isFinite lo = true -> isFinite hi = true -> f64_le lo hi = true ->
  exists q, toInt v lo hi = Normal q /\ isFinite q = true
    /\ (if isFinite (parseInt10 s)
        then f64_le lo q = true /\ f64_le q hi = true
        else q = zero).
Proof.
  intros Hs Hlo Hhi Hle.
  rewrite f64_le_fin in Hle by assumption. apply Z.leb_le in Hle.
  destruct (isFinite (parseInt10 s)) eqn:Hf.
  - rewrite (toInt_finite v s lo hi Hs Hf).
    destruct (clamp_between (parseInt10 s) lo hi Hf Hlo Hhi Hle) as (H1 & H2 & H3).
    eexists. split; [reflexivity|]. auto.
  - rewrite (toInt_not_finite v s lo hi Hs Hf).
    exists zero. auto.
Qed.

Lemma toInt_within_bounds_witness :
  exists q, toInt (JStr (str "42")) zero (f64_of_Z 1000000000) = Normal q
    /\ isFinite q = true
    /\ f64_le zero q = true /\ f64_le q (f64_of_Z 1000000000) = true.
Proof.
  apply (toInt_within_bounds (JStr (str "42")) (str "42") zero
           (f64_of_Z 1000000000)); vm_compute; reflexivity.
Defined.

Lemma skip_run_prefix cls (ws t : jsstring) :
  Forall (fun c => cls c = true) ws -> skip_run cls (ws ++ t) = skip_run cls t.
Proof.
  induction 1 as [|c ws Hc _ IH]; [reflexivity|]. simpl. now rewrite Hc.
Qed.

(** [parseInt] on white space, digits and a rest that starts with no
    digit. *)
Lemma parseInt10_leading_digits ws ds rest :
  Forall (fun c => is_js_space c = true) ws -> all_digits ds -> ds <> [] ->
  match rest with [] => True | c :: _ => is_digit c = false end ->
  parseInt10 (ws ++ ds ++ rest) = f64_of_rat false (digits_value ds) 1.
Proof.
  intros Hw Hd Hne Hr. destruct ds as [|c t]; [contradiction|].
  inversion Hd as [|? ? Hc Ht]; subst.
  unfold parseInt10, trimStart. rewrite (skip_run_prefix _ ws _ Hw).
  cbn [app]. fold (trimStart (c :: t ++ rest)).
  rewrite (trimStart_digit c _ Hc), (strip_sign_digit c _ Hc).
  change (c :: t ++ rest) with ((c :: t) ++ rest).
  rewrite (span_digits (c :: t) rest Hd Hr). reflexivity.
Qed.

(** A whole number from [2^1024] on rounds to Infinity. *)
Lemma f64_of_rat_overflow neg n : 2 ^ 1024 <= n -> f64_of_rat neg n 1 = Inf neg.
Proof.
  intros Hn. pose proof U_pos as HU.
  assert (0 < 2 ^ 1024) by (apply Z.pow_pos_nonneg; lia).
  rewrite f64_of_rat_unfold by lia.
  destruct (binade_spec (n * U) 1 ltac:(nia) ltac:(lia)) as (Hk & Hup & _).
  set (k := binade (n * U) 1) in *.
  assert (Hk' : 2045 < k).
  { destruct (Z.lt_ge_cases 2045 k) as [|Hle]; [assumption|exfalso].
    assert (2 ^ k <= 2 ^ 2045) by (apply Z.pow_le_mono_r; lia).
    assert (E : 2 ^ 53 * 2 ^ 2045 = 2 ^ 1024 * U).
    { unfold U. rewrite <- !Z.pow_add_r by lia. reflexivity. }
    assert (0 < 2 ^ k) by (apply Z.pow_pos_nonneg; lia).
    nia. }
  destruct (_ =? _); [destruct (Z.ltb_spec 2045 (k + 1))
                     |destruct (Z.ltb_spec 2045 k)]; (reflexivity || lia).
Qed.

(** A whole Number above 9999 is clamped to 9999. *)
Lemma clamp_above m e :
  9999 * U <= units m e ->
  Math_min (Math_max (Fin false m e) qty_min) qty_max = qty_max.
Proof.
  intros H. pose proof U_pos as HU.
  assert (Hc : forall b, isFinite b = true ->
             f64_compare (Fin false m e) b = Some (units m e ?= su b)).
  { intros [| |sb mb eb]; try discriminate. intros _. reflexivity. }
  unfold Math_max. rewrite (Hc qty_min eq_refl), su_qty_min.
  destruct (Z.compare_spec (units m e) U); try lia;
    unfold Math_min; rewrite (Hc qty_max eq_refl), su_qty_max;
    destruct (Z.compare_spec (units m e) (9999 * U)); try reflexivity; lia.
Qed.

(** X8: on a string made of white space, decimal digits and a rest that
    starts with no digit (a fraction, a unit, nothing), [toInt(v, 1, 9999)]
    is the number the digits denote, clamped to 1 and 9999: a fraction is
    dropped, not rounded.  When the digits denote [2^1024] or more the
    parse is Infinity and the result 0, as for a text with no digits. *)
Theorem toInt_reads_leading_digits {stack : Stack} ws ds rest :
  Forall (fun c => is_js_space c = true) ws -> all_digits ds -> ds <> [] ->
  match rest with [] => True | c :: _ => is_digit c = false end ->
  let n := digits_value ds in
  (n < 2 ^ 1023 ->
     toInt (JStr (ws ++ ds ++ rest)) qty_min qty_max
     = Normal (f64_of_Z (Z.min (Z.max n 1) 9999)))
  /\ (2 ^ 1024 <= n ->
     toInt (JStr (ws ++ ds ++ rest)) qty_min qty_max = Normal zero).
Proof.
  intros Hw Hd Hne Hr n. pose proof U_pos as HU.
  pose proof (parseInt10_leading_digits ws ds rest Hw Hd Hne Hr) as Hp.
  fold n in Hp.
  pose proof (digits_value_nonneg ds) as Hn0. fold n in Hn0.
  unfold toInt. cbn [ToString ToString_with bind]. rewrite Hp. clearbody n.
  split; intros Hn.
  - destruct (Z.eq_dec n 0) as [->|Hnz]; [vm_compute; reflexivity|].
    destruct (f64_of_rat_finite false n 1) as (m & e & Hq); try lia.
    { assert (E : 2 ^ 53 * 1 * 2 ^ 2044 = 2 ^ 1023 * U).
      { unfold U. rewrite Z.mul_1_r, <- !Z.pow_add_r by lia. reflexivity. }
      rewrite E. nia. }
    destruct (Z.le_gt_cases n 9999) as [Hle|Hgt].
    + rewrite Hq. cbn [isFinite negb]. rewrite <- Hq.
      rewrite clamp_fixed by lia.
      rewrite Z.max_l, Z.min_l by lia.
      unfold f64_of_Z. destruct (Z.ltb_spec n 0); [lia|].
      now rewrite Z.abs_eq by lia.
    + rewrite Hq. cbn [isFinite negb].
      rewrite Z.max_l, Z.min_r by lia.
      rewrite clamp_above; [reflexivity|].
      destruct (Z.lt_ge_cases n (2 ^ 53)) as [Hlt|Hge].
      * destruct (f64_of_rat_int_exact false n false m e ltac:(lia) Hq) as (_ & Hu).
        rewrite Hu. nia.
      * pose proof (f64_of_rat_int_large false n false m e Hge Hq).
        assert (9999 < 2 ^ 53) by (vm_compute; reflexivity). nia.
  - rewrite (f64_of_rat_overflow false n Hn). reflexivity.
Qed.

Lemma toInt_reads_leading_digits_witness :
  toInt (JStr (str " 12.9 kg")) qty_min qty_max = Normal (f64_of_Z 12)
  /\ toInt (JStr (repeat 57%N 309)) qty_min qty_max = Normal zero.
Proof.
  split.
  - apply (proj1 (toInt_reads_leading_digits (str " ") (str "12") (str ".9 kg")
             ltac:(repeat constructor) ltac:(repeat constructor)
             ltac:(discriminate) eq_refl)).
    vm_compute. reflexivity.
  - apply (proj2 (toInt_reads_leading_digits [] (repeat 57%N 309) []
             ltac:(constructor)
             ltac:(apply Forall_forall; intros c Hc;
                   apply repeat_spec in Hc; now subst)
             ltac:(discriminate) I)).
    vm_compute. discriminate.
Defined.

(* ===================================================================== *)
(** * Further properties: [toMoney] *)
(* ===================================================================== *)

Local Open Scope Z_scope.

(** Below [10^21], [toFixed(2)] prints the nearest number of cents. *)
Lemma toFixed2_small m e :
  units m e < 10 ^ 21 * U ->
  toFixed2 (Fin false m e) = fixed2_digits (cents (units m e)).
Proof.
  intros H. unfold toFixed2. cbv zeta. cbn [andb].
  destruct (Z.leb_spec (10 ^ 21 * U) (units m e)) as [|_]; [lia|].
  apply List.app_nil_l.
Qed.

(** The digits of [fixed2_digits n] are worth [n]. *)
Lemma fixed2_digits_value n :
  0 <= n ->
  exists ip fp,
    fixed2_digits n = ip ++ str "." ++ fp
    /\ ip <> [] /\ all_digits ip /\ all_digits fp /\ length fp = 2%nat
    /\ digits_value (ip ++ fp) = n.
Proof.
  intros Hn. unfold fixed2_digits.
  set (m0 := decimal_digits n).
  set (m1 := if (length m0 <=? 2)%nat
             then repeat 48%N (3 - length m0) ++ m0 else m0).
  assert (Hd : all_digits m1).
  { unfold m1. destruct (_ <=? _)%nat; [|apply decimal_digits_digits].
    apply all_digits_app; [|apply decimal_digits_digits].
    apply Forall_forall. intros c Hc. apply repeat_spec in Hc. now subst. }
  assert (Hl : (3 <= length m1)%nat).
  { unfold m1. destruct (Nat.leb_spec (length m0) 2).
    - rewrite length_app, repeat_length. unfold codeunit in *. lia.
    - unfold codeunit in *. lia. }
  assert (Hv : digits_value m1 = n).
  { unfold m1. destruct (_ <=? _)%nat.
    - rewrite digits_value_pad. now apply digits_value_decimal.
    - now apply digits_value_decimal. }
  exists (firstn (length m1 - 2) m1), (skipn (length m1 - 2) m1).
  split; [reflexivity|]. split; [|split; [|split; [|split]]].
  - intros E. apply (f_equal (@length _)) in E.
    rewrite length_firstn in E. cbn [length] in E. lia.
  - now apply firstn_Forall_keep.
  - now apply skipn_Forall_keep.
  - rewrite length_skipn. lia.
  - now rewrite firstn_skipn.
Qed.

(** X9: for a value that has a string form, [toMoney] returns ["0.00"]
    when the parse is not finite or is negative; and when the parsed
    amount is below [10^21] it returns digits, a point and two digits,
    which denote the whole number of cents nearest to the amount, the
    larger one when two are equally near. *)
Theorem toMoney_nearest_cent {stack : Stack} v sv :
  ToString v = Normal sv ->
  (isFinite (parseFloat sv) = false \/ f64_lt (parseFloat sv) zero = true ->
     toMoney v = Normal (str "0.00"))
  /\ (forall neg m e,
        parseFloat sv = Fin neg m e -> f64_lt (Fin neg m e) zero = false ->
        units m e < 10 ^ 21 * U ->
        exists ip fp c,
          toMoney v = Normal (ip ++ str "." ++ fp)
          /\ ip <> [] /\ all_digits ip /\ all_digits fp /\ length fp = 2%nat
          /\ digits_value (ip ++ fp) = c
          /\ 2 * c * U - U <= 200 * units m e < 2 * c * U + U).
Proof.
  intros Hs. pose proof U_pos as HU. unfold toMoney. rewrite Hs. cbn [bind].
  split.
  - intros [H|H]; rewrite H; [reflexivity|].
    now rewrite orb_true_r.
  - intros neg m e Hp Hneg Hsmall. rewrite Hp, Hneg. cbn [isFinite negb orb].
    pose proof (parseFloat_canonical sv) as Hcan. rewrite Hp in Hcan.
    destruct (canonical_units _ _ _ Hcan) as (Hm & _).
    pose proof (units_nonneg m e ltac:(lia)) as HV.
    rewrite f64_lt_fin in Hneg by reflexivity. apply Z.ltb_ge in Hneg.
    change (su zero) with 0 in Hneg. cbn [su] in Hneg.
    unfold signed_units in Hneg.
    assert (Hsgn : neg && (0 <? units m e) = false).
    { destruct neg; [|reflexivity]. simpl. apply Z.ltb_ge. lia. }
    assert (E : toFixed2 (Fin neg m e) = fixed2_digits (cents (units m e))).
    { unfold toFixed2. cbv zeta. rewrite Hsgn.
      destruct (Z.leb_spec (10 ^ 21 * U) (units m e)) as [|_]; [lia|].
      apply List.app_nil_l. }
    rewrite E.
    pose proof (cents_spec (units m e)) as Hc.
    assert (Hc0 : 0 <= cents (units m e)) by nia.
    destruct (fixed2_digits_value _ Hc0) as (ip & fp & E2 & H1 & H2 & H3 & H4 & H5).
    exists ip, fp, (cents (units m e)). rewrite E2. repeat split; auto; lia.
Qed.

Lemma toMoney_nearest_cent_witness :
  toMoney (JStr (str "-3")) = Normal (str "0.00")
  /\ exists ip fp c,
       toMoney (JStr (str "2.675")) = Normal (ip ++ str "." ++ fp)
       /\ ip <> [] /\ all_digits ip /\ all_digits fp /\ length fp = 2%nat
       /\ digits_value (ip ++ fp) = c
       /\ 2 * c * U - U
          <= 200 * units 6023564501608038 (-51) < 2 * c * U + U.
Proof.
  split.
  - apply (proj1 (toMoney_nearest_cent (JStr (str "-3")) (str "-3") eq_refl)).
    right. vm_compute. reflexivity.
  - apply (proj2 (toMoney_nearest_cent (JStr (str "2.675")) (str "2.675") eq_refl)
             false 6023564501608038 (-51)).
    + vm_compute. reflexivity.
    + vm_compute. reflexivity.
    + vm_compute. reflexivity.
Defined.

(** A number of cents below [10^15], divided by 100 and rounded to a
    Number, is still nearest to that number of cents. *)
Lemma cents_of_rounded c :
  0 <= c < 10 ^ 15 ->
  exists m e,
    f64_of_rat false c 100 = Fin false m e
    /\ 0 <= units m e < 10 ^ 21 * U
    /\ cents (units m e) = c.
Proof.
  intros Hc. pose proof U_pos as HU.
  destruct (Z.eq_dec c 0) as [->|Hnz].
  { rewrite f64_of_rat_zero. exists 0, (-1074). split; [reflexivity|].
    split; [vm_compute; split; [discriminate|reflexivity]|].
    apply cents_unique. unfold units. lia. }
  destruct (f64_of_rat_finite false c 100) as (m & e & Hq); try lia.
  { assert (10 ^ 15 * U < 2 ^ 53 * 100 * 2 ^ 2044) by (vm_compute; reflexivity).
    nia. }
  exists m, e. split; [exact Hq|].
  pose proof (f64_of_rat_error false c 100 false m e ltac:(lia) ltac:(lia) Hq) as Herr.
  destruct (binade_spec (c * U) 100 ltac:(nia) ltac:(lia)) as (Hk & _ & Hlo).
  set (k := binade (c * U) 100) in *.
  assert (Hk' : k <= 1067).
  { destruct Hlo as [E|Hlo]; [lia|].
    destruct (Z.le_gt_cases k 1067) as [|Hgt]; [assumption|exfalso].
    assert (2 ^ 1067 <= 2 ^ (k - 1)) by (apply Z.pow_le_mono_r; lia).
    assert (10 ^ 15 * U < 2 ^ 53 * 100 * 2 ^ 1067) by (vm_compute; reflexivity).
    nia. }
  assert (Hpk : 100 * 2 ^ k < U).
  { assert (2 ^ k <= 2 ^ 1067) by (apply Z.pow_le_mono_r; lia).
    assert (100 * 2 ^ 1067 < U) by (vm_compute; reflexivity). lia. }
  pose proof (f64_of_rat_canonical false c 100 ltac:(lia) ltac:(lia)) as Hcan.
  rewrite Hq in Hcan. destruct (canonical_units _ _ _ Hcan) as (Hm & _).
  pose proof (units_nonneg m e ltac:(lia)) as HV.
  apply Z.abs_le in Herr.
  split; [split; [exact HV|]|].
  - assert (10 ^ 15 * 2 + 1 < 200 * 10 ^ 21) by (vm_compute; reflexivity). nia.
  - apply cents_unique. lia.
Qed.

(** [parseFloat] on a string of digits. *)
Lemma parseFloat_digits ds :
  all_digits ds -> ds <> [] ->
  parseFloat ds = f64_of_rat false (digits_value ds) 1.
Proof.
  intros Hd Hne. destruct ds as [|c t]; [contradiction|].
  inversion Hd as [|? ? Hc Ht]; subst.
  unfold parseFloat.
  rewrite (trimStart_digit c _ Hc), (strip_sign_digit c _ Hc).
  rewrite (starts_with_Infinity_digit c _ Hc).
  rewrite (span_digits_all (c :: t) Hd). cbn [exponent_part length].
  rewrite List.app_nil_r. change (0 - Z.of_nat 0) with 0.
  unfold f64_of_decimal. change (0 <=? 0) with true. cbv iota.
  now rewrite Z.pow_0_r, Z.mul_1_r.
Qed.

(** X10: [toMoney] reads an amount written with two decimals exactly: on
    digits, a point and two digits that denote [c] cents, with [c] below
    [10^15], it returns the digits of [c] with the point before the last
    two; a string it has produced itself is returned unchanged; and a
    whole number below [10^13] written without a point gets [.00]. *)
Theorem toMoney_reads_two_decimals {stack : Stack} :
  (forall ip fp,
      all_digits ip -> ip <> [] -> all_digits fp -> length fp = 2%nat ->
      digits_value (ip ++ fp) < 10 ^ 15 ->
      toMoney (JStr (ip ++ str "." ++ fp))
      = Normal (fixed2_digits (digits_value (ip ++ fp))))
  /\ (forall c, 0 <= c < 10 ^ 15 ->
        toMoney (JStr (fixed2_digits c)) = Normal (fixed2_digits c))
  /\ (forall ds,
        all_digits ds -> ds <> [] -> digits_value ds < 10 ^ 13 ->
        toMoney (JStr ds) = Normal (fixed2_digits (100 * digits_value ds))).
Proof.
  pose proof U_pos as HU.
  assert (Hfix : forall sv c, 0 <= c < 10 ^ 15 ->
            parseFloat sv = f64_of_rat false c 100 ->
            toMoney (JStr sv) = Normal (fixed2_digits c)).
  { intros sv c Hc Hp.
    destruct (cents_of_rounded c Hc) as (m & e & Hq & HV & Hcents).
    rewrite Hq in Hp.
    rewrite (toMoney_finite sv m e Hp ltac:(lia)).
    rewrite toFixed2_small by lia. now rewrite Hcents. }
  split; [|split].
  - intros ip fp Hi Hne Hf Hl Hc. apply Hfix.
    + split; [apply digits_value_nonneg|exact Hc].
    + change (str ".") with [46%N]. cbn [app].
      rewrite parseFloat_point by assumption. rewrite Hl. reflexivity.
  - intros c Hc. apply Hfix; [exact Hc|].
    apply parseFloat_fixed2. lia.
  - intros ds Hd Hne Hc. pose proof (digits_value_nonneg ds) as H0.
    assert (Hq : exists m e, parseFloat ds = Fin false m e
                             /\ units m e = digits_value ds * U).
    { rewrite parseFloat_digits by assumption.
      destruct (Z.eq_dec (digits_value ds) 0) as [E|E].
      - rewrite E, f64_of_rat_zero. exists 0, (-1074). split; reflexivity.
      - apply whole_finite.
        assert (10 ^ 13 < 2 ^ 53) by (vm_compute; reflexivity). lia. }
    destruct Hq as (m & e & Hp & Hu).
    assert (10 ^ 13 < 10 ^ 21) by (vm_compute; reflexivity).
    rewrite (toMoney_finite ds m e Hp ltac:(nia)).
    rewrite toFixed2_small by nia. f_equal. f_equal.
    apply cents_unique. rewrite Hu. lia.
Qed.

Lemma toMoney_reads_two_decimals_witness :
  toMoney (JStr (str "007.50")) = Normal (str "7.50")
  /\ toMoney (JStr (str "3.45")) = Normal (str "3.45")
  /\ toMoney (JStr (str "12")) = Normal (str "12.00").
Proof.
  destruct toMoney_reads_two_decimals as (H1 & H2 & H3).
  split; [|split].
  - apply (H1 (str "007") (str "50")); try (repeat constructor);
      try discriminate.
  - apply (H2 345). lia.
  - apply (H3 (str "12")); try (repeat constructor); try discriminate.
Defined.

(* ===================================================================== *)
(** * Further properties: the rows *)
(* ===================================================================== *)

Local Open Scope Z_scope.

(** The quantity of a finite parse is a whole number from 1 to 9999. *)
Lemma toInt_whole {stack : Stack} v sv q :
  ToString v = Normal sv -> isFinite (parseInt10 sv) = true ->
  toInt v qty_min qty_max = Normal q ->
  exists N, 1 <= N <= 9999 /\ q = f64_of_Z N.
Proof.
  intros Hs Hfin H. rewrite (toInt_finite v sv _ _ Hs Hfin) in H.
  injection H as Hq.
  assert (Hle : su qty_min <= su qty_max).
  { rewrite su_qty_min, su_qty_max. pose proof U_pos. lia. }
  destruct (clamp_between (parseInt10 sv) qty_min qty_max Hfin eq_refl eq_refl Hle)
    as (Hqf & Hlo & Hhi).
  rewrite Hq in Hqf, Hlo, Hhi.
  rewrite f64_le_fin in Hlo, Hhi by (assumption || reflexivity).
  apply Z.leb_le in Hlo, Hhi.
  assert (HZ : forall N, 1 <= N -> f64_of_Z N = f64_of_rat false N 1).
  { intros N HN. unfold f64_of_Z. destruct (Z.ltb_spec N 0); [lia|].
    now rewrite Z.abs_eq by lia. }
  destruct (clamp_cases (parseInt10 sv) qty_min qty_max) as [E|[E|[E|E]]];
    cbv zeta in E; rewrite Hq in E.
  - rewrite E in Hqf. discriminate.
  - destruct (parseInt10_shape sv) as [En|(neg & N & HN0 & En)].
    + rewrite En in Hfin. discriminate.
    + rewrite En in E.
      destruct (whole_in_range neg N q HN0 (eq_sym E) Hqf ltac:(lia)) as (-> & HN).
      exists N. split; [exact HN|]. rewrite HZ by lia. exact E.
  - exists 1. split; [lia|]. rewrite E. reflexivity.
  - exists 9999. split; [lia|]. rewrite E. reflexivity.
Qed.

(** X11: every row the loop accepts has the same eight fields in the same
    order: a [timestamp] that is not empty and has at most 64 code units,
    an [item_name] that is not empty and has at most 96, a [qty] that is
    a whole number from 1 to 9999, the three amounts as [toMoney] returns
    them for the raw [subtotal], [vat] and [total], the currency [USD] and
    the rate 0.15. *)
Theorem sanitized_row_shape {stack : Stack} r r' :
  sanitizes_to r r' ->
  exists vt vi n vs vv vtot sub vat tot,
    r' = JObj [(str "timestamp", JStr (safeText vt 64));
               (str "item_name", JStr (safeText vi 96));
               (str "qty", JNum (f64_of_Z n));
               (str "subtotal_usd", JStr sub);
               (str "vat_usd", JStr vat);
               (str "total_usd", JStr tot);
               (str "currency", JStr (str "USD"));
               (str "iva_rate", JNum IVA_RATE)]
    /\ get r "timestamp" = Normal vt /\ get r "item" = Normal vi
    /\ safeText vt 64 <> [] /\ (length (safeText vt 64) <= 64)%nat
    /\ safeText vi 96 <> [] /\ (length (safeText vi 96) <= 96)%nat
    /\ 1 <= n <= 9999
    /\ get r "subtotal" = Normal vs /\ toMoney vs = Normal sub
    /\ get r "vat" = Normal vv /\ toMoney vv = Normal vat
    /\ get r "total" = Normal vtot /\ toMoney vtot = Normal tot.
Proof.
  unfold sanitizes_to, normalize_row.
  destruct (get r "timestamp") as [vt|] eqn:Ht; [|discriminate].
  destruct (get r "item") as [vi|] eqn:Hi; [|discriminate].
  destruct (get r "qty") as [vq|] eqn:Hq; [|discriminate]. cbn [bind].
  destruct (toInt vq qty_min qty_max) as [qty|] eqn:Hn; [|discriminate].
  destruct (get r "subtotal") as [vs|] eqn:Hs; [|discriminate]. cbn [bind].
  destruct (toMoney vs) as [ms|] eqn:Hms; [|discriminate].
  destruct (get r "vat") as [vv|] eqn:Hv; [|discriminate]. cbn [bind].
  destruct (toMoney vv) as [mv|] eqn:Hmv; [|discriminate].
  destruct (get r "total") as [vtot|] eqn:Htot; [|discriminate]. cbn [bind].
  destruct (toMoney vtot) as [mt|] eqn:Hmt; [|discriminate]. cbn [bind].
  destruct (negb (truthy (JStr (safeText vt 64)))
            || negb (truthy (JStr (safeText vi 96)))
            || f64_le qty zero) eqn:Hc; intros H; inversion H; subst; clear H.
  apply orb_false_iff in Hc. destruct Hc as [Hc Hq0].
  apply orb_false_iff in Hc. destruct Hc as [Hts Hit].
  apply negb_false_iff in Hts, Hit.
  assert (Hne : forall s, truthy (JStr s) = true -> s <> []).
  { intros [|] Hs'; [discriminate|congruence]. }
  assert (Hwhole : exists N, 1 <= N <= 9999 /\ qty = f64_of_Z N).
  { unfold toInt in Hn.
    destruct (ToString vq) as [sq|] eqn:Hsq; [|discriminate]. cbn [bind] in Hn.
    destruct (isFinite (parseInt10 sq)) eqn:Hf.
    - apply (toInt_whole vq sq qty Hsq Hf).
      unfold toInt. rewrite Hsq. cbn [bind]. now rewrite Hf.
    - cbn [negb] in Hn. injection Hn as <-. discriminate Hq0. }
  destruct Hwhole as (N & HN & ->).
  exists vt, vi, N, vs, vv, vtot, ms, mv, mt.
  split; [reflexivity|].
  repeat split; auto; try lia; apply safeText_length.
Qed.

Lemma sanitized_row_shape_witness :
  exists vt vi n vs vv vtot sub vat tot,
    sanitized_A
    = JObj [(str "timestamp", JStr (safeText vt 64));
            (str "item_name", JStr (safeText vi 96));
            (str "qty", JNum (f64_of_Z n));
            (str "subtotal_usd", JStr sub);
            (str "vat_usd", JStr vat);
            (str "total_usd", JStr tot);
            (str "currency", JStr (str "USD"));
            (str "iva_rate", JNum IVA_RATE)]
    /\ get row_A "timestamp" = Normal vt /\ get row_A "item" = Normal vi
    /\ safeText vt 64 <> [] /\ (length (safeText vt 64) <= 64)%nat
    /\ safeText vi 96 <> [] /\ (length (safeText vi 96) <= 96)%nat
    /\ 1 <= n <= 9999
    /\ get row_A "subtotal" = Normal vs /\ toMoney vs = Normal sub
    /\ get row_A "vat" = Normal vv /\ toMoney vv = Normal vat
    /\ get row_A "total" = Normal vtot /\ toMoney vtot = Normal tot.
Proof.
  apply (sanitized_row_shape row_A sanitized_A). vm_compute. reflexivity.
Defined.

(** The response that rejects a row, with its hint. *)
Definition invalid_row (item_name : jsstring) (qty : f64) : response :=
  json [(str "ok", JBool false); (str "error", JStr (str "invalid_row"));
        (str "hint", JObj [(str "item_name", JStr item_name);
                           (str "qty", JNum qty)])] 422.

(** X12: a row that is no object but a boolean, a number, a string or an
    array has none of the fields, and so has an object without a
    [timestamp], an [item] and a [qty]: each is rejected with
    [invalid_row] and the hint of an empty item name and the quantity 0. *)
Theorem fieldless_row_rejected {stack : Stack} r :
  match r with
  | JBool _ | JNum _ | JStr _ | JArr _ => True
  | JObj fields =>
      lookup (str "timestamp") fields = None
      /\ lookup (str "item") fields = None
      /\ lookup (str "qty") fields = None
      /\ lookup (str "subtotal") fields = None
      /\ lookup (str "vat") fields = None
      /\ lookup (str "total") fields = None
  | _ => False
  end ->
  normalize_row r = Normal (inl (invalid_row [] zero)).
Proof.
  destruct r as [| |b|x|s|l|f]; try contradiction.
  - intros _. vm_compute. reflexivity.
  - intros _. vm_compute. reflexivity.
  - intros _. vm_compute. reflexivity.
  - intros _. vm_compute. reflexivity.
  - intros (H1 & H2 & H3 & H4 & H5 & H6).
    unfold normalize_row, get. rewrite H1, H2, H3, H4, H5, H6.
    vm_compute. reflexivity.
Qed.

Lemma fieldless_row_rejected_witness :
  normalize_row (JNum qty_max) = Normal (inl (invalid_row [] zero))
  /\ normalize_row (JObj [(str "name", JStr (str "Tea"))])
     = Normal (inl (invalid_row [] zero)).
Proof.
  split.
  - apply (fieldless_row_rejected (JNum qty_max)). exact I.
  - apply (fieldless_row_rejected (JObj [(str "name", JStr (str "Tea"))])).
    repeat split.
Defined.

(* ===================================================================== *)
(** * Further properties: the handler, step by step *)
(* ===================================================================== *)

Lemma normalize_rejection {stack : Stack} rows : forall norm rej,
  normalize rows norm = Normal (inl rej) ->
  exists item_name qty, rej = invalid_row item_name qty.
Proof.
  induction rows as [|r rest IH]; intros norm rej H; simpl in H;
    [discriminate|].
  destruct (normalize_row r) as [[rj|row]|err] eqn:Hr; simpl in H;
    try discriminate.
  - injection H as <-.
    destruct (normalize_row_rejection r rj Hr) as (vi & vq & qty & _ & _ & _ & ->).
    eexists _, _. reflexivity.
  - apply (IH _ _ H).
Qed.

Local Open Scope Z_scope.

(** X13: the loop stops at the first row it rejects.  When the rows
    before it sanitize, the request is answered 422 [invalid_row] with the
    sanitized item name and the quantity of that row as the hint, nothing
    is sent downstream, and the rows after it are not looked at (they may
    be anything), for a bare array and for a wrapper object alike. *)
Theorem first_invalid_row_rejected {stack : Stack}
    decode parse stringify sha hmac rq e w buf parsed pre r post resp :
  fst (readLimited rq (64 * 1024)) = Normal (Some buf) ->
  parse (decode buf) = Some parsed ->
  data_rows parsed = Some (pre ++ r :: post) ->
  Forall (fun x => exists x', sanitizes_to x x') pre ->
  normalize_row r = Normal (inl resp) ->
  exists vi vq qty,
    get r "item" = Normal vi /\ get r "qty" = Normal vq
    /\ toInt vq qty_min qty_max = Normal qty
    /\ handleSave decode parse stringify sha hmac rq e w
       = (Normal (invalid_row (safeText vi 96) qty), []).
Proof.
  intros Hb Hp Hd Hpre Hr.
  destruct (normalize_row_rejection r resp Hr) as (vi & vq & qty & Hi & Hq & Hn & ->).
  exists vi, vq, qty. repeat split; try assumption.
  rewrite handleSave_steps, Hb, Hp, Hd.
  pose proof (normalize_first_rejection pre r post _ [] Hpre Hr) as Hnorm.
  destruct pre; cbn [app] in *; now rewrite Hnorm.
Qed.

Lemma first_invalid_row_rejected_witness :
  exists vi vq qty,
    get (JObj [(str "timestamp", JStr (str "t2"))]) "item" = Normal vi
    /\ get (JObj [(str "timestamp", JStr (str "t2"))]) "qty" = Normal vq
    /\ toInt vq qty_min qty_max = Normal qty
    /\ run_parsed
         (JObj [(str "rows",
                 JArr [row_A; JObj [(str "timestamp", JStr (str "t2"))]; JNull])])
         empty_request some_env (answering 200 (str "success"))
       = (Normal (invalid_row (safeText vi 96) qty), []).
Proof.
  apply (first_invalid_row_rejected _ _ _ _ _ empty_request some_env
           (answering 200 (str "success")) []
           (JObj [(str "rows",
                   JArr [row_A; JObj [(str "timestamp", JStr (str "t2"))]; JNull])])
           [row_A] (JObj [(str "timestamp", JStr (str "t2"))]) [JNull]
           (invalid_row [] zero)).
  - reflexivity.
  - reflexivity.
  - reflexivity.
  - constructor; [|constructor]. exists sanitized_A. vm_compute. reflexivity.
  - vm_compute. reflexivity.
Defined.

(** X14: a body that fits and is not JSON is answered 400
    [invalid_json]; one that parses to anything but a non-empty array or
    an object whose [rows] property is a non-empty array (so [null], a
    number, a string, [{}], [[]], an object whose [rows] is empty or is
    not an array) is answered 400 [empty_rows].  Neither sends
    anything downstream. *)
Theorem unusable_body_rejected {stack : Stack}
    decode parse stringify sha hmac rq e w buf :
  fst (readLimited rq (64 * 1024)) = Normal (Some buf) ->
  (parse (decode buf) = None ->
     handleSave decode parse stringify sha hmac rq e w
     = (Normal (failure "invalid_json" 400), []))
  /\ (forall parsed,
        parse (decode buf) = Some parsed ->
        data_rows parsed = None \/ data_rows parsed = Some [] ->
        handleSave decode parse stringify sha hmac rq e w
        = (Normal (failure "empty_rows" 400), [])).
Proof.
  intros Hb. split.
  - intros Hp. now rewrite handleSave_steps, Hb, Hp.
  - intros parsed Hp [Hd|Hd]; now rewrite handleSave_steps, Hb, Hp, Hd.
Qed.

Lemma unusable_body_rejected_witness :
  handleSave (fun _ => []) (fun _ => None) (fun _ => []) (fun _ => [])
    (fun _ _ => []) empty_request some_env (answering 200 (str "success"))
  = (Normal (failure "invalid_json" 400), [])
  /\ run_parsed JNull empty_request some_env (answering 200 (str "success"))
     = (Normal (failure "empty_rows" 400), [])
  /\ run_parsed (JObj [(str "rows", JStr (str "x"))]) empty_request some_env
       (answering 200 (str "success"))
     = (Normal (failure "empty_rows" 400), []).
Proof.
  split; [|split].
  - apply (proj1 (unusable_body_rejected (fun _ => []) (fun _ => None)
             (fun _ => []) (fun _ => []) (fun _ _ => []) empty_request some_env
             (answering 200 (str "success")) [] eq_refl)).
    reflexivity.
  - apply (proj2 (unusable_body_rejected (fun _ => []) (fun _ => Some JNull)
             (fun _ => []) (fun _ => []) (fun _ _ => []) empty_request some_env
             (answering 200 (str "success")) [] eq_refl) JNull eq_refl).
    left. reflexivity.
  - apply (proj2 (unusable_body_rejected (fun _ => [])
             (fun _ => Some (JObj [(str "rows", JStr (str "x"))]))
             (fun _ => []) (fun _ => []) (fun _ _ => []) empty_request some_env
             (answering 200 (str "success")) [] eq_refl) _ eq_refl).
    left. reflexivity.
Defined.

(** What [readLimited] does, by the length and the kind of the body. *)
Lemma readLimited_cases (rq : request) (maxBytes : nat) :
  ((length (body_bytes (req_body rq)) > maxBytes)%nat
   /\ fst (readLimited rq maxBytes) = Normal None)
  \/ ((length (body_bytes (req_body rq)) <= maxBytes)%nat
      /\ (exists cs, req_body rq = BrokenStream cs)
      /\ fst (readLimited rq maxBytes) = Throw StreamError)
  \/ ((length (body_bytes (req_body rq)) <= maxBytes)%nat
      /\ fst (readLimited rq maxBytes) = Normal (Some (body_bytes (req_body rq)))).
Proof.
  rewrite (readLimited_result rq maxBytes).
  destruct (Nat.ltb_spec maxBytes (length (body_bytes (req_body rq))));
    [left; split; [lia|reflexivity]|right].
  destruct (req_body rq) as [cs|cs|text]; [right|left|right]; eauto.
Qed.

(** X15: the worker calls out only for a [POST] to [/api/save] whose
    body is within 65536 bytes and parses, and whose rows all sanitize;
    it then makes exactly one call, the signed call whose payload holds
    the sanitized rows in the order of the submission.  Every other
    request (any other method or path, [/health] included) sends
    nothing. *)
Theorem outbound_discipline {stack : Stack} decode parse stringify sha hmac rq e w :
  let out := fetch_handler decode parse stringify sha hmac rq e w in
  snd out = []
  \/ exists parsed items norm call,
       req_method rq = str "POST" /\ req_pathname rq = str "/api/save"
       /\ (length (body_bytes (req_body rq)) <= 64 * 1024)%nat
       /\ parse (decode (body_bytes (req_body rq))) = Some parsed
       /\ data_rows parsed = Some items /\ items <> []
       /\ Forall2 sanitizes_to items norm
       /\ signed_call stringify sha hmac e w
            (assemble rq (wrapper_of parsed) norm) = Normal call
       /\ snd out = [call].
Proof.
  cbv zeta. unfold fetch_handler.
  destruct (jsstring_eqb (req_method rq) (str "GET")
            && jsstring_eqb (req_pathname rq) (str "/health")); [now left|].
  destruct (jsstring_eqb (req_method rq) (str "POST")
            && jsstring_eqb (req_pathname rq) (str "/api/save")) eqn:Hpost;
    [|now left].
  apply andb_true_iff in Hpost. destruct Hpost as [Hm Hp].
  apply jsstring_eqb_eq in Hm, Hp.
  rewrite handleSave_steps. generalize (64 * 1024)%nat. intros maxBytes.
  destruct (readLimited_cases rq maxBytes)
    as [(_ & Hr)|[(_ & _ & Hr)|(Hfit & Hr)]]; rewrite Hr; try (now left).
  destruct (parse (decode (body_bytes (req_body rq)))) as [parsed|] eqn:Hparse;
    [|now left].
  destruct (data_rows parsed) as [[|r rest]|] eqn:Hd; try (now left).
  destruct (normalize (r :: rest) []) as [[rej|norm]|err] eqn:Hn;
    try (now left).
  rewrite relay_calls.
  destruct (signed_call stringify sha hmac e w
              (assemble rq (wrapper_of parsed) norm)) as [call|err] eqn:Hs;
    [|now left].
  right. exists parsed, (r :: rest), norm, call.
  apply normalize_accepts in Hn. destruct Hn as (rows' & HF & Hrows').
  cbn [app] in Hrows'. subst rows'.
  repeat split; try assumption; try discriminate.
Qed.

(** The lines of status, [ok] and [error] a response can show. *)
Definition response_lines : list (Z * option value * option value) :=
  [(200, Some (JBool true), None);
   (400, Some (JBool false), Some (JStr (str "invalid_json")));
   (400, Some (JBool false), Some (JStr (str "empty_rows")));
   (404, Some (JBool false), Some (JStr (str "not_found")));
   (413, Some (JBool false), Some (JStr (str "payload_too_large")));
   (422, Some (JBool false), Some (JStr (str "invalid_row")));
   (502, Some (JBool false), None)].

Definition response_line (r : response) : Z * option value * option value :=
  (resp_status r, lookup (str "ok") (response_fields r),
   lookup (str "error") (response_fields r)).

(** X16: every response of the worker carries the JSON content type and
    is one line of this table of status, [ok] and [error]: 200 with
    [ok: true] and no error code; 400 with [invalid_json] or
    [empty_rows]; 404 with [not_found]; 413 with [payload_too_large];
    422 with [invalid_row]; 502 with [ok: false] and no error code.  A
    response with a status from 400 to 499 is given without any call
    downstream. *)
Theorem response_table {stack : Stack} decode parse stringify sha hmac rq e w r :
  let out := fetch_handler decode parse stringify sha hmac rq e w in
  fst out = Normal r ->
  resp_content_type r = str "application/json; charset=utf-8"
  /\ In (response_line r) response_lines
  /\ (400 <= resp_status r <= 499 -> snd out = []).
Proof.
  cbv zeta. unfold fetch_handler.
  destruct (jsstring_eqb (req_method rq) (str "GET")
            && jsstring_eqb (req_pathname rq) (str "/health")).
  { intros H. injection H as <-. split; [reflexivity|].
    split; [left; reflexivity|reflexivity]. }
  destruct (jsstring_eqb (req_method rq) (str "POST")
            && jsstring_eqb (req_pathname rq) (str "/api/save")).
  2:{ intros H. injection H as <-. split; [reflexivity|].
      split; [do 3 right; left; reflexivity|reflexivity]. }
  rewrite handleSave_steps.
  destruct (fst (readLimited rq (64 * 1024))) as [[buf|]|err0];
    [| |discriminate].
  2:{ intros H. injection H as <-. split; [reflexivity|].
      split; [do 4 right; left; reflexivity|reflexivity]. }
  destruct (parse (decode buf)) as [parsed|].
  2:{ intros H. injection H as <-. split; [reflexivity|].
      split; [do 1 right; left; reflexivity|reflexivity]. }
  assert (Hempty :
    fst (Normal (failure "empty_rows" 400), @nil outbound) = Normal r ->
    resp_content_type r = str "application/json; charset=utf-8"
    /\ In (response_line r) response_lines
    /\ (400 <= resp_status r <= 499 ->
        snd (Normal (failure "empty_rows" 400), @nil outbound) = [])).
  { intros H. injection H as <-. split; [reflexivity|].
    split; [do 2 right; left; reflexivity|reflexivity]. }
  destruct (data_rows parsed) as [[|x rest]|]; try exact Hempty. clear Hempty.
  destruct (normalize (x :: rest) []) as [[rej|norm]|err] eqn:Hn.
  - intros H. injection H as <-.
    destruct (normalize_rejection _ _ _ Hn) as (item_name & qty & ->).
    split; [reflexivity|].
    split; [do 5 right; left; reflexivity|reflexivity].
  - unfold relay.
    destruct (signed_call _ _ _ _ _ _) as [call|err]; [|discriminate].
    destruct (network w _) as [|status res_text]; [discriminate|].
    destruct (res_ok status && test_ci (str "success") (text_or_empty res_text));
      intros H; injection H as <-; (split; [reflexivity|]).
    + split; [left; reflexivity|]. cbn [resp_status json]. lia.
    + split; [do 6 right; left; reflexivity|]. cbn [resp_status json]. lia.
  - discriminate.
Qed.

Definition health_request : request :=
  {| req_method := str "GET"; req_pathname := str "/health";
     req_header := fun _ => None; req_body := NoStream None |}.

Lemma response_table_witness :
  exists r,
    fst (fetch_handler (fun _ => []) (fun _ => None) (fun _ => [])
           (fun _ => []) (fun _ _ => []) health_request some_env
           (answering 200 [])) = Normal r
    /\ resp_content_type r = str "application/json; charset=utf-8"
    /\ In (response_line r) response_lines.
Proof.
  eexists. split; [reflexivity|].
  pose proof (response_table (fun _ => []) (fun _ => None) (fun _ => [])
                (fun _ => []) (fun _ _ => []) health_request some_env
                (answering 200 []) _ eq_refl) as (H1 & H2 & _).
  split; [exact H1|exact H2].
Defined.

(** The fields of the payload object. *)
Definition payload_fields (payload : value) : list (jsstring * value) :=
  match payload with JObj fields => fields | _ => [] end.

(** X17: each of the five optional fields of the payload is a string
    within its limit (200, 50, 120, 32 and 32 code units): the sanitized
    text of the wrapper's own property when that is a string, and the
    empty string in every other case: no wrapper (the body was a bare
    array), no such property, or a value that is not a string, such as a
    latitude sent as a number. *)
Theorem optional_fields_sanitized rq wrapper norm key max :
  In (key, max) [("delivery_address"%string, 200%nat);
                 ("whatsapp"%string, 50%nat); ("email"%string, 120%nat);
                 ("delivery_lat"%string, 32%nat);
                 ("delivery_lng"%string, 32%nat)] ->
  exists s,
    lookup (str key) (payload_fields (assemble rq wrapper norm)) = Some (JStr s)
    /\ (length s <= max)%nat
    /\ s = match wrapper with
           | JObj fields =>
               match lookup (str key) fields with
               | Some (JStr raw) => safeText (JStr raw) max
               | _ => []
               end
           | _ => []
           end.
Proof.
  assert (Hs : forall k m,
            safeText (getOpt wrapper k) m
            = match wrapper with
              | JObj fields =>
                  match lookup (str k) fields with
                  | Some (JStr raw) => safeText (JStr raw) m
                  | _ => []
                  end
              | _ => []
              end).
  { intros k m. destruct wrapper as [| |b|x|s|l|f]; try reflexivity.
    - destruct b; reflexivity.
    - unfold getOpt. destruct (negb (truthy (JNum x)) || _); reflexivity.
    - unfold getOpt. destruct (negb (truthy (JStr s)) || _); reflexivity.
    - unfold getOpt. cbn [truthy typeof_object negb orb get_opt_chain].
      destruct (lookup (str k) f) as [[| |b|x|s|l|f']|]; reflexivity. }
  intros Hin. exists (safeText (getOpt wrapper key) max).
  split; [|split; [apply safeText_length|apply Hs]].
  cbn [In] in Hin.
  destruct Hin as [H|[H|[H|[H|[H|[]]]]]]; injection H as <- <-; reflexivity.
Qed.

Lemma optional_fields_sanitized_witness :
  exists s,
    lookup (str "delivery_lat")
      (payload_fields
         (assemble empty_request
            (JObj [(str "rows", JArr [row_A]); (str "delivery_lat", JNum qty_min)])
            [sanitized_A]))
    = Some (JStr s)
    /\ (length s <= 32)%nat
    /\ s = [].
Proof.
  apply (optional_fields_sanitized empty_request
           (JObj [(str "rows", JArr [row_A]); (str "delivery_lat", JNum qty_min)])
           [sanitized_A] "delivery_lat" 32%nat).
  do 3 right. left. reflexivity.
Defined.

(** Every call the worker makes is the signed call of some payload. *)
Lemma fetch_handler_calls {stack : Stack} decode parse stringify sha hmac rq e w call :
  In call (snd (fetch_handler decode parse stringify sha hmac rq e w)) ->
  exists payload, signed_call stringify sha hmac e w payload = Normal call.
Proof.
  unfold fetch_handler.
  destruct (_ && _); [intros []|].
  destruct (_ && _); [|intros []].
  destruct (handleSave_cases decode parse stringify sha hmac rq e w)
    as [H|(payload & H)]; rewrite H; [intros []|].
  rewrite relay_calls.
  destruct (signed_call stringify sha hmac e w payload) as [call'|err] eqn:Hs;
    [|intros []].
  intros [<-|[]]. now exists payload.
Qed.

(** The value of a header of an outbound call. *)
Definition header (name : string) (call : outbound) : option jsstring :=
  (fix find (hs : list (jsstring * jsstring)) : option jsstring :=
     match hs with
     | [] => None
     | (k, v) :: rest => if jsstring_eqb k (str name) then Some v else find rest
     end) (out_headers call).

(** X18: every call the worker makes is a [POST] to the configured URL
    that can be checked from what it carries: [X-Body-Hash] is the
    base64 SHA-256 digest of the body sent, [X-Signature] is the base64
    HMAC, under the signing key (which is then not empty), of the
    [X-Timestamp] value, a dot and the [X-Body-Hash] value, [X-Timestamp]
    is the instant of the request, and the asset and key identifiers are
    those of the environment. *)
Theorem outbound_call_verifiable {stack : Stack} decode parse stringify sha hmac rq e w call :
  In call (snd (fetch_handler decode parse stringify sha hmac rq e w)) ->
  out_url call = APP_SCRIPT_URL e /\ out_method call = str "POST"
  /\ header "Content-Type" call = Some (str "application/json")
  /\ header "X-Asset-ID" call = Some (ASSET_ID e)
  /\ header "X-KID" call = Some (KID e)
  /\ header "X-Timestamp" call = Some (now_iso w)
  /\ header "X-Body-Hash" call = Some (sha256base64 sha (out_body call))
  /\ SIGNING_KEY e <> []
  /\ header "X-Signature" call
     = Some (b64 (hmac (TextEncoder_encode (SIGNING_KEY e))
                    (TextEncoder_encode
                       (now_iso w ++ str "."
                        ++ sha256base64 sha (out_body call)))))
  /\ hmacSha256Base64 hmac (SIGNING_KEY e)
       (now_iso w ++ str "." ++ sha256base64 sha (out_body call))
     = Normal (b64 (hmac (TextEncoder_encode (SIGNING_KEY e))
                      (TextEncoder_encode
                         (now_iso w ++ str "."
                          ++ sha256base64 sha (out_body call))))).
Proof.
  intros H.
  destruct (fetch_handler_calls _ _ _ _ _ _ _ _ _ H) as (payload & Hs).
  clear H. unfold signed_call in Hs. rewrite hmacSha256Base64_key in Hs.
  rewrite hmacSha256Base64_key.
  remember (SIGNING_KEY e) as key eqn:Ek. clear Ek.
  assert (Hk : match key with [] => true | _ => false end = false).
  { destruct key; [discriminate Hs|reflexivity]. }
  rewrite Hk in *. cbn [bind] in Hs.
  assert (Hne : key <> []) by (intros ->; discriminate Hk).
  clear Hk. revert Hs Hne.
  generalize (hmac (TextEncoder_encode key)). intros mac.
  generalize (stringify payload). intros bodyString.
  intros Hs Hne. injection Hs as <-.
  repeat split. exact Hne.
Qed.

Lemma outbound_call_verifiable_witness :
  let sha := fun _ : bytes => [x01; x02] in
  let hmac := fun _ _ : bytes => [x03] in
  let w := answering 200 (str "success") in
  exists call,
    signed_call (fun _ => str "{}") sha hmac some_env w
      (assemble empty_request JNull [sanitized_A]) = Normal call
    /\ header "X-Body-Hash" call = Some (sha256base64 sha (out_body call))
    /\ header "X-Signature" call
       = Some (b64 (hmac (TextEncoder_encode (SIGNING_KEY some_env))
                      (TextEncoder_encode
                         (now_iso w ++ str "."
                          ++ sha256base64 sha (out_body call))))).
Proof.
  cbv zeta. eexists. split; [reflexivity|].
  destruct (outbound_call_verifiable (fun _ => []) (fun _ => Some (JArr [row_A]))
              (fun _ => str "{}") (fun _ => [x01; x02]) (fun _ _ => [x03])
              empty_request some_env (answering 200 (str "success"))
              _ ltac:(vm_compute; left; reflexivity))
    as (_ & _ & _ & _ & _ & _ & H1 & _ & H2 & _).
  split; [exact H1|exact H2].
Defined.

(** X19: a [POST] to [/api/save] whose body is read within the limit,
    parses and has rows that all sanitize reaches the signing.  With the
    empty signing key the signing throws a DataError and nothing is sent.
    With any other key the worker makes exactly one call, which carries
    the payload made of the sanitized rows in their order; the response
    then follows from the answer alone: success or the forwarding failure
    when the downstream answers, and an exception, with no response at
    all, when the call itself fails. *)
Theorem accepted_submission_forwarded {stack : Stack}
    decode parse stringify sha hmac rq e w buf parsed items norm :
  req_method rq = str "POST" -> req_pathname rq = str "/api/save" ->
  fst (readLimited rq (64 * 1024)) = Normal (Some buf) ->
  parse (decode buf) = Some parsed ->
  data_rows parsed = Some items -> items <> [] ->
  Forall2 sanitizes_to items norm ->
  let payload := assemble rq (wrapper_of parsed) norm in
  let out := fetch_handler decode parse stringify sha hmac rq e w in
  (SIGNING_KEY e = [] -> out = (Throw DataError, []))
  /\ (SIGNING_KEY e <> [] ->
      exists call,
        signed_call stringify sha hmac e w payload = Normal call
        /\ snd out = [call]
        /\ (network w call = FetchRejected -> fst out = Throw NetworkError)
        /\ (forall status res_text,
              network w call = FetchResponse status res_text ->
              fst out
              = Normal (if res_ok status
                           && test_ci (str "success") (text_or_empty res_text)
                        then forwarded_response
                        else forwarding_failure status (text_or_empty res_text)))).
Proof.
  intros Hm Hp Hread Hparse Hd Hne HF. cbv zeta.
  assert (Hn : normalize items [] = Normal (inr norm)).
  { apply normalize_accepts. exists norm. split; [exact HF|reflexivity]. }
  assert (E : fetch_handler decode parse stringify sha hmac rq e w
              = relay stringify sha hmac e w
                  (assemble rq (wrapper_of parsed) norm)).
  { unfold fetch_handler. rewrite Hm, Hp.
    change (jsstring_eqb (str "POST") (str "GET")) with false.
    change (jsstring_eqb (str "POST") (str "POST")) with true.
    change (jsstring_eqb (str "/api/save") (str "/api/save")) with true.
    cbn [andb]. rewrite handleSave_steps, Hread, Hparse, Hd.
    destruct items as [|r rest]; [contradiction|].
    now rewrite Hn. }
  rewrite E. split.
  - intros Hk. unfold relay.
    now rewrite (signed_call_no_key stringify sha hmac e w _ Hk).
  - intros Hk.
    destruct (signed_call_key stringify sha hmac e w
                (assemble rq (wrapper_of parsed) norm) Hk) as (call & Hs).
    exists call. split; [exact Hs|]. split; [now rewrite relay_calls, Hs|].
    split.
    + intros H. unfold relay. now rewrite Hs, H.
    + intros status res_text H.
      rewrite (relay_response _ _ _ _ _ _ _ _ _ Hs H). cbv zeta. cbn [fst].
      now destruct (_ && _).
Qed.

(** An environment whose signing key is empty. *)
Definition keyless_env : env :=
  {| SIGNING_KEY := []; APP_SCRIPT_URL := str "https://downstream.example/exec";
     ASSET_ID := str "a"; KID := str "1" |}.

Lemma accepted_submission_forwarded_witness :
  let w := Build_world (str "2024-01-01T00:00:00.000Z") (fun _ => FetchRejected) in
  let run := fetch_handler (fun _ => []) (fun _ => Some (JArr [row_A]))
               (fun _ => []) (fun _ => []) (fun _ _ => []) empty_request in
  run keyless_env w = (Throw DataError, [])
  /\ exists call,
       signed_call (fun _ => []) (fun _ => []) (fun _ _ => [])
         some_env w (assemble empty_request JNull [sanitized_A]) = Normal call
       /\ snd (run some_env w) = [call]
       /\ fst (run some_env w) = Throw NetworkError.
Proof.
  cbv zeta.
  assert (HA : Forall2 sanitizes_to [row_A] [sanitized_A]).
  { constructor; [|constructor]. vm_compute. reflexivity. }
  split.
  - apply (proj1 (accepted_submission_forwarded (fun _ => [])
             (fun _ => Some (JArr [row_A])) (fun _ => []) (fun _ => [])
             (fun _ _ => []) empty_request keyless_env
             (Build_world (str "2024-01-01T00:00:00.000Z") (fun _ => FetchRejected))
             [] (JArr [row_A]) [row_A] [sanitized_A]
             eq_refl eq_refl eq_refl eq_refl eq_refl ltac:(discriminate) HA)).
    reflexivity.
  - destruct (proj2 (accepted_submission_forwarded (fun _ => [])
             (fun _ => Some (JArr [row_A])) (fun _ => []) (fun _ => [])
             (fun _ _ => []) empty_request some_env
             (Build_world (str "2024-01-01T00:00:00.000Z") (fun _ => FetchRejected))
             [] (JArr [row_A]) [row_A] [sanitized_A]
             eq_refl eq_refl eq_refl eq_refl eq_refl ltac:(discriminate) HA)
             ltac:(discriminate))
      as (call & H1 & H2 & H3 & _).
    exists call. split; [exact H1|]. split; [exact H2|].
    apply H3. revert H1. vm_compute. intros H1. injection H1 as <-. reflexivity.
Defined.

Local Open Scope Z_scope.

(* ===================================================================== *)
(** * Further properties: exceptions, and what a success means *)
(* ===================================================================== *)

Lemma bind_throws {A B} (c : completion A) (k : A -> completion B) err :
  bind c k = Throw err ->
  c = Throw err \/ exists a, c = Normal a /\ k a = Throw err.
Proof.
  destruct c as [a|e]; simpl; intros H; [right; eauto|left].
  now injection H as <-.
Qed.

(** The two exceptions of a conversion to a string: a TypeError (an
    object whose [toString] is not a function) and a RangeError (arrays
    nested deeper than the call stack allows). *)
Definition conversion_error (err : error) : Prop :=
  err = TypeError \/ err = RangeError.

Lemma ToString_with_throws on_array v err :
  (forall items e, on_array items = Throw e -> conversion_error e) ->
  ToString_with on_array v = Throw err -> conversion_error err.
Proof.
  intros Harr. destruct v as [| |b|n|s|items|fields];
    cbn [ToString_with]; try discriminate.
  - apply Harr.
  - destruct (lookup (str "toString") fields); [|discriminate].
    intros H. injection H as <-. now left.
Qed.

Lemma Array_join_throws depth : forall items err,
  Array_join depth items = Throw err -> conversion_error err.
Proof.
  induction depth as [|depth IH]; intros items err.
  - cbn [Array_join]. intros H. injection H as <-. now right.
  - induction items as [|x0 t IHt]; [discriminate|].
    cbn [Array_join]. intros H. apply bind_throws in H.
    destruct H as [H|(sx & _ & H)].
    + destruct x0; try discriminate H;
        exact (ToString_with_throws _ _ _ IH H).
    + destruct t as [|x1 t']; [discriminate|].
      apply bind_throws in H. destruct H as [H|(st & _ & H)]; [|discriminate].
      apply IHt. exact H.
Qed.

(** [String(v)] throws nothing else. *)
Lemma ToString_throws {stack : Stack} v err :
  ToString v = Throw err -> conversion_error err.
Proof.
  unfold ToString. apply ToString_with_throws. apply Array_join_throws.
Qed.

(** An empty array inside [n] arrays of one element each. *)
Fixpoint nested_array (n : nat) : value :=
  match n with
  | O => JArr []
  | S n' => JArr [nested_array n']
  end.

(** Whatever room the stack has, some array is nested too deep for it:
    both exceptions of a conversion occur. *)
Lemma nested_array_overflows {stack : Stack} :
  ToString (nested_array stack_depth) = Throw RangeError
  /\ toInt (nested_array stack_depth) qty_min qty_max = Throw RangeError
  /\ toMoney (nested_array stack_depth) = Throw RangeError
  /\ ToString (JObj [(str "toString", JNull)]) = Throw TypeError.
Proof.
  assert (H : forall d,
            ToString_with (Array_join d) (nested_array d) = Throw RangeError).
  { induction d as [|d IH]; [reflexivity|].
    cbn [nested_array ToString_with Array_join].
    cbn [nested_array ToString_with] in IH.
    destruct d; cbn [nested_array] in *; now rewrite IH. }
  unfold toInt, toMoney, ToString. rewrite (H stack_depth).
  repeat split.
Qed.

Lemma get_throws r key err : get r key = Throw err -> err = TypeError.
Proof.
  destruct r; cbn [get]; try discriminate; intros H; now injection H as <-.
Qed.

Lemma toInt_throws {stack : Stack} v lo hi err :
  toInt v lo hi = Throw err -> conversion_error err.
Proof.
  unfold toInt. intros H. apply bind_throws in H.
  destruct H as [H|(s & _ & H)]; [now apply ToString_throws in H|].
  destruct (negb _); discriminate.
Qed.

Lemma toMoney_throws {stack : Stack} v err :
  toMoney v = Throw err -> conversion_error err.
Proof.
  unfold toMoney. intros H. apply bind_throws in H.
  destruct H as [H|(s & _ & H)]; [now apply ToString_throws in H|].
  destruct (_ || _); discriminate.
Qed.

(** A row throws a TypeError (it is [null] or [undefined], or a field
    has no string form) or a RangeError. *)
Lemma normalize_row_throws {stack : Stack} r err :
  normalize_row r = Throw err -> conversion_error err.
Proof.
  unfold normalize_row. intros H.
  repeat match type of H with
         | bind _ _ = Throw _ =>
             apply bind_throws in H; destruct H as [H|(? & _ & H)]
         end;
    try (apply get_throws in H; now left);
    try (now apply toInt_throws in H);
    try (now apply toMoney_throws in H).
  destruct (_ || _); discriminate.
Qed.

(** The loop throws at a row that throws, the rows before it having
    been accepted. *)
Lemma normalize_throws {stack : Stack} rows : forall norm err,
  normalize rows norm = Throw err ->
  exists pre r post,
    rows = pre ++ r :: post
    /\ Forall (fun x => exists x', sanitizes_to x x') pre
    /\ normalize_row r = Throw err.
Proof.
  induction rows as [|r rest IH]; intros norm err H; simpl in H;
    [discriminate|].
  destruct (normalize_row r) as [[rj|row]|e'] eqn:Hr; simpl in H;
    try discriminate.
  - destruct (IH _ _ H) as (pre & r' & post & -> & Hpre & Hr').
    exists (r :: pre), r', post. split; [reflexivity|].
    split; [|exact Hr']. constructor; [now exists row|exact Hpre].
  - injection H as <-. exists [], r, rest. repeat split; [constructor|exact Hr].
Qed.

(** X20: what has happened when the worker ends with an exception.  The
    request is a [POST] to [/api/save], no response is built, and one of
    four things holds.  The body is a stream that fails while it is read,
    within the limit: nothing was sent.  A row throws a TypeError or a
    RangeError while it is sanitized, every row before it having been
    accepted: nothing was sent.  Every row was sanitized and the signing
    key is empty, so that the signing throws a DataError: nothing was
    sent.  Or the call downstream itself fails: exactly one call was
    made. *)
Theorem exceptions_that_escape {stack : Stack} decode parse stringify sha hmac rq e w err :
  let out := fetch_handler decode parse stringify sha hmac rq e w in
  fst out = Throw err ->
  req_method rq = str "POST" /\ req_pathname rq = str "/api/save"
  /\ ((err = StreamError /\ snd out = []
       /\ exists cs, req_body rq = BrokenStream cs
            /\ (length (List.concat cs) <= 64 * 1024)%nat)
      \/ ((err = TypeError \/ err = RangeError) /\ snd out = []
          /\ exists parsed pre r post,
               fst (readLimited rq (64 * 1024))
               = Normal (Some (body_bytes (req_body rq)))
               /\ parse (decode (body_bytes (req_body rq))) = Some parsed
               /\ data_rows parsed = Some (pre ++ r :: post)
               /\ Forall (fun x => exists x', sanitizes_to x x') pre
               /\ normalize_row r = Throw err)
      \/ (err = DataError /\ snd out = [] /\ SIGNING_KEY e = []
          /\ exists parsed items norm,
               fst (readLimited rq (64 * 1024))
               = Normal (Some (body_bytes (req_body rq)))
               /\ parse (decode (body_bytes (req_body rq))) = Some parsed
               /\ data_rows parsed = Some items /\ items <> []
               /\ Forall2 sanitizes_to items norm)
      \/ (err = NetworkError
          /\ exists call, snd out = [call] /\ network w call = FetchRejected)).
Proof.
  cbv zeta. unfold fetch_handler.
  destruct (_ && _); [discriminate|].
  destruct (jsstring_eqb (req_method rq) (str "POST")
            && jsstring_eqb (req_pathname rq) (str "/api/save")) eqn:Hpost;
    [|discriminate].
  apply andb_true_iff in Hpost. destruct Hpost as [Hm Hp].
  apply jsstring_eqb_eq in Hm, Hp.
  intros Hout. split; [exact Hm|]. split; [exact Hp|]. revert Hout.
  rewrite handleSave_steps. generalize (64 * 1024)%nat. intros maxBytes.
  destruct (readLimited_cases rq maxBytes)
    as [(_ & Hr)|[(Hfit & (cs & Hcs) & Hr)|(Hfit & Hr)]]; rewrite Hr.
  - discriminate.
  - intros H. injection H as <-. left. split; [reflexivity|].
    split; [reflexivity|]. exists cs. split; [exact Hcs|].
    rewrite Hcs in Hfit. exact Hfit.
  - destruct (parse (decode (body_bytes (req_body rq)))) as [parsed|] eqn:Hparse;
      [|discriminate].
    destruct (data_rows parsed) as [[|x rest]|] eqn:Hd; try discriminate.
    destruct (normalize (x :: rest) []) as [[rej|norm]|err'] eqn:Hn.
    + discriminate.
    + unfold relay.
      destruct (signed_call stringify sha hmac e w
                  (assemble rq (wrapper_of parsed) norm)) as [call|err'] eqn:Hs.
      * destruct (network w call) as [|status res_text] eqn:Hnet.
        -- intros H. injection H as <-. do 3 right. split; [reflexivity|].
           exists call. split; [reflexivity|exact Hnet].
        -- destruct (_ && _); discriminate.
      * intros H. injection H as <-.
        destruct (signed_call_throws _ _ _ _ _ _ _ Hs) as [-> Hk].
        do 2 right. left. split; [reflexivity|]. split; [reflexivity|].
        split; [exact Hk|]. exists parsed, (x :: rest), norm.
        apply normalize_accepts in Hn. destruct Hn as (rows' & HF & Hrows').
        cbn [app] in Hrows'. subst rows'.
        repeat split; try assumption; discriminate.
    + intros H. injection H as ->. right. left.
      destruct (normalize_throws _ _ _ Hn) as (pre & r & post & E & Hpre & Hrow).
      split; [exact (normalize_row_throws _ _ Hrow)|]. split; [reflexivity|].
      exists parsed, pre, r, post. rewrite <- E. auto.
Qed.

(** A request whose body fails while it is read. *)
Definition broken_request : request :=
  {| req_method := str "POST"; req_pathname := str "/api/save";
     req_header := fun _ => None; req_body := BrokenStream [[x5b]] |}.

Lemma exceptions_that_escape_witness :
  let run := fetch_handler (fun _ => []) (fun _ => Some (JArr [row_A; JNull]))
               (fun _ => []) (fun _ => []) (fun _ _ => []) in
  let w := answering 200 (str "success") in
  run broken_request some_env w = (Throw StreamError, [])
  /\ ((StreamError = StreamError /\ snd (run broken_request some_env w) = []
       /\ exists cs, req_body broken_request = BrokenStream cs
            /\ (length (List.concat cs) <= 64 * 1024)%nat)
      \/ ((StreamError = TypeError \/ StreamError = RangeError)
          /\ snd (run broken_request some_env w) = []
          /\ exists parsed pre r post,
               fst (readLimited broken_request (64 * 1024))
               = Normal (Some (body_bytes (req_body broken_request)))
               /\ Some (JArr [row_A; JNull]) = Some parsed
               /\ data_rows parsed = Some (pre ++ r :: post)
               /\ Forall (fun x => exists x', sanitizes_to x x') pre
               /\ normalize_row r = Throw StreamError)
      \/ (StreamError = DataError /\ snd (run broken_request some_env w) = []
          /\ SIGNING_KEY some_env = []
          /\ exists parsed items norm,
               fst (readLimited broken_request (64 * 1024))
               = Normal (Some (body_bytes (req_body broken_request)))
               /\ Some (JArr [row_A; JNull]) = Some parsed
               /\ data_rows parsed = Some items /\ items <> []
               /\ Forall2 sanitizes_to items norm)
      \/ (StreamError = NetworkError
          /\ exists call, snd (run broken_request some_env w) = [call]
               /\ network w call = FetchRejected)).
Proof.
  cbv zeta. split; [vm_compute; reflexivity|].
  apply (exceptions_that_escape (fun _ => [])
           (fun _ => Some (JArr [row_A; JNull]))
           (fun _ => []) (fun _ => []) (fun _ _ => [])
           broken_request some_env (answering 200 (str "success")) StreamError).
  vm_compute. reflexivity.
Defined.

(** X21: the worker answers [forwarded: true] only after the downstream
    has answered its one call with a status from 200 to 299 and a text
    that contains [success] in some letter case. *)
Theorem forwarded_means_confirmed {stack : Stack} decode parse stringify sha hmac rq e w r :
  let out := fetch_handler decode parse stringify sha hmac rq e w in
  fst out = Normal r ->
  lookup (str "forwarded") (response_fields r) = Some (JBool true) ->
  exists call status res_text,
    snd out = [call]
    /\ network w call = FetchResponse status res_text
    /\ 200 <= status <= 299
    /\ contains_ci (str "success") (text_or_empty res_text).
Proof.
  cbv zeta. unfold fetch_handler.
  destruct (_ && _).
  { intros H. injection H as <-. discriminate. }
  destruct (_ && _).
  2:{ intros H. injection H as <-. discriminate. }
  rewrite handleSave_steps.
  destruct (fst (readLimited rq (64 * 1024))) as [[buf|]|err0];
    [| |discriminate].
  2:{ intros H. injection H as <-. discriminate. }
  destruct (parse (decode buf)) as [parsed|].
  2:{ intros H. injection H as <-. discriminate. }
  assert (Hempty : forall calls : list outbound,
            Normal (failure "empty_rows" 400) = Normal r ->
            lookup (str "forwarded") (response_fields r) = Some (JBool true) ->
            exists call status res_text,
              calls = [call]
              /\ network w call = FetchResponse status res_text
              /\ 200 <= status <= 299
              /\ contains_ci (str "success") (text_or_empty res_text)).
  { intros calls H. injection H as <-. discriminate. }
  destruct (data_rows parsed) as [[|x rest]|]; try apply Hempty. clear Hempty.
  destruct (normalize (x :: rest) []) as [[rej|norm]|err] eqn:Hn.
  - intros H. injection H as <-.
    destruct (normalize_rejection _ _ _ Hn) as (item_name & qty & ->).
    discriminate.
  - unfold relay.
    destruct (signed_call _ _ _ _ _ _) as [call|err]; [|discriminate].
    destruct (network w _) as [|status res_text] eqn:Hnet; [discriminate|].
    destruct (res_ok status && test_ci (str "success") (text_or_empty res_text))
      eqn:Hc; intros H; injection H as <-; [|discriminate].
    intros _. apply andb_true_iff in Hc. destruct Hc as [H1 H2].
    apply res_ok_spec in H1. apply test_ci_spec in H2.
    eexists _, status, res_text. repeat split; try eassumption; lia.
  - discriminate.
Qed.

Lemma forwarded_means_confirmed_witness :
  exists call status res_text,
    snd (fetch_handler (fun _ => []) (fun _ => Some (JArr [row_A]))
           (fun _ => []) (fun _ => []) (fun _ _ => [])
           empty_request some_env (answering 201 (str "Success: saved")))
    = [call]
    /\ network (answering 201 (str "Success: saved")) call
       = FetchResponse status res_text
    /\ 200 <= status <= 299
    /\ contains_ci (str "success") (text_or_empty res_text).
Proof.
  apply (forwarded_means_confirmed (fun _ => []) (fun _ => Some (JArr [row_A]))
           (fun _ => []) (fun _ => []) (fun _ _ => [])
           empty_request some_env (answering 201 (str "Success: saved"))
           forwarded_response).
  - vm_compute. reflexivity.
  - vm_compute. reflexivity.
Defined.
